(** * Resume-helper: LaTeX section engine, fallback job-description
      heuristics and the three validators, embedded from the Python sources.

    Python [str] values are modelled as lists of code points restricted to
    Latin-1 ([list ascii]); integers are unbounded ([Z] or [nat]), so the
    digit limit of [int] on very long digit strings is left out; floats are
    binary64 values of [SpecFloat]; the [re] module is modelled by a
    backtracking matcher with Python's priority order (leftmost match,
    greedy or lazy repetition, first alternative first).  The pydantic
    wrapper of the summary bullets is modelled by its validator: a raised
    [ValueError(msg)] reaches [validate] as the message [msg].  *)

From Stdlib Require Import String Ascii List Bool Arith ZArith Lia.
From Stdlib Require Import DecimalString.
From Stdlib Require DecimalZ.
From Stdlib Require Import Floats.SpecFloat.
From Stdlib Require Import Permutation Sorted.
Import ListNotations.

(* ===================================================================== *)
(** * Python strings *)
(* ===================================================================== *)

Module PyStr.

(** A Python [str] over Latin-1 code points. *)
Definition str := list ascii.

(** A literal of the source. *)
Definition lit (s : string) : str := list_ascii_of_string s.

Definition code (c : ascii) : nat := nat_of_ascii c.

Definition in_range (lo hi : nat) (c : ascii) : bool :=
  (lo <=? code c) && (code c <=? hi).

Definition nl : ascii := ascii_of_nat 10.
Definition tab : ascii := ascii_of_nat 9.
Definition backslash : ascii := ascii_of_nat 92.

(** [str.isspace] on one code point; also the class [\s] of [re]. *)
Definition isspace (c : ascii) : bool :=
  in_range 9 13 c || in_range 28 32 c
  || (code c =? 133) || (code c =? 160).

(** The class [\d] of [re]: decimal digits (in Latin-1 only 0-9). *)
Definition isdigit (c : ascii) : bool := in_range 48 57 c.

Definition is_ascii_letter (c : ascii) : bool :=
  in_range 65 90 c || in_range 97 122 c.

(** The class [\w] of [re] for [str] patterns: alphanumeric code points
    (letters and numeric characters of Latin-1) and the underscore. *)
Definition is_word (c : ascii) : bool :=
  is_ascii_letter c || isdigit c || (code c =? 95)
  || (code c =? 170) || (code c =? 178) || (code c =? 179)
  || (code c =? 181) || (code c =? 185) || (code c =? 186)
  || in_range 188 190 c
  || in_range 192 214 c || in_range 216 246 c || in_range 248 255 c.

(** [str.lower] on one code point. *)
Definition lower_char (c : ascii) : ascii :=
  if in_range 65 90 c || in_range 192 214 c || in_range 216 222 c
  then ascii_of_nat (code c + 32) else c.

(** The Latin-1 code point whose lowercase is [c], when [c] is a
    lowercase letter that has one. *)
Definition upper_char (c : ascii) : ascii :=
  if in_range 97 122 c || in_range 224 246 c || in_range 248 254 c
  then ascii_of_nat (code c - 32) else c.

Definition lower (s : str) : str := map lower_char s.

Definition eqc (a b : ascii) : bool := Ascii.eqb a b.

Fixpoint eqs (a b : str) : bool :=
  match a, b with
  | [], [] => true
  | x :: a', y :: b' => eqc x y && eqs a' b'
  | _, _ => false
  end.

(** [s.startswith(p)]. *)
Fixpoint startswith (p s : str) : bool :=
  match p, s with
  | [], _ => true
  | x :: p', y :: s' => eqc x y && startswith p' s'
  | _ :: _, [] => false
  end.

(** [s.endswith(p)]. *)
Definition endswith (p s : str) : bool := startswith (rev p) (rev s).

(** [p in s]: substring test. *)
Fixpoint contains (p s : str) : bool :=
  startswith p s ||
  match s with
  | [] => false
  | _ :: s' => contains p s'
  end.

(** [s.lstrip()], [s.rstrip()], [s.strip()]. *)
Fixpoint lstrip (s : str) : str :=
  match s with
  | [] => []
  | c :: s' => if isspace c then lstrip s' else s
  end.

Definition rstrip (s : str) : str := rev (lstrip (rev s)).

Definition strip (s : str) : str := rstrip (lstrip s).

(** [s.split(sep)] for a one-character separator. *)
Fixpoint split_on (sep : ascii) (s : str) : list str :=
  match s with
  | [] => [[]]
  | c :: s' =>
      if eqc c sep then [] :: split_on sep s'
      else match split_on sep s' with
           | [] => [[c]]
           | w :: ws => (c :: w) :: ws
           end
  end.

(** [s.split()]: maximal runs of non-whitespace. *)
Fixpoint split_ws_aux (cur : str) (s : str) : list str :=
  match s with
  | [] => match cur with [] => [] | _ => [rev cur] end
  | c :: s' =>
      if isspace c
      then match cur with
           | [] => split_ws_aux [] s'
           | _ => rev cur :: split_ws_aux [] s'
           end
      else split_ws_aux (c :: cur) s'
  end.

Definition split_ws (s : str) : list str := split_ws_aux [] s.

(** [s.replace(a, b)] for one-character [a] and [b]. *)
Definition replace_char (a b : ascii) (s : str) : str :=
  map (fun c => if eqc c a then b else c) s.

(** [sep.join(parts)]. *)
Fixpoint join (sep : str) (parts : list str) : str :=
  match parts with
  | [] => []
  | [p] => p
  | p :: ps => p ++ sep ++ join sep ps
  end.

(** [s[a:b]] for [0 <= a]. *)
Definition slice (a b : nat) (s : str) : str := firstn (b - a) (skipn a s).

(** [str(n)] for an [int]. *)
Definition str_of_Z (z : Z) : str :=
  list_ascii_of_string (NilEmpty.string_of_int (Z.to_int z)).

Definition str_of_nat (n : nat) : str := str_of_Z (Z.of_nat n).

(** [int(s)] for a run of digits [s]. *)
Definition int_of_digits (s : str) : Z :=
  fold_left (fun acc c => (10 * acc + Z.of_nat (code c - 48))%Z) s 0%Z.

End PyStr.
Import PyStr.

(* ===================================================================== *)
(** * Python [re]: a backtracking matcher *)
(* ===================================================================== *)

Module Re.

(** Members of a bracketed class. *)
Inductive cls_item :=
| CChar (c : ascii)             (* one character *)
| CRange (lo hi : ascii)        (* lo-hi *)
| CSpace                        (* \s *)
| CDigit.                       (* \d *)

Inductive greed := Greedy | Lazy.

Inductive regex :=
| Eps
| Chr (c : ascii)                         (* a literal character *)
| Any                                     (* . *)
| Cls (neg : bool) (items : list cls_item) (* [...] and [^...] *)
| Cat (r1 r2 : regex)
| Alt (r1 r2 : regex)                      (* r1|r2 *)
| Star (g : greed) (r : regex)             (* r* and r*? *)
| Opt (g : greed) (r : regex)              (* r? and r?? *)
| Grp (i : nat) (r : regex)                (* capturing group number i *)
| Look (r : regex)                         (* (?=r) *)
| NotBehind (items : list cls_item)        (* (?<![...]) on one character *)
| WordB                                    (* \b *)
| Bol                                      (* ^ *)
| Eol.                                     (* $ *)

(** r+ and r+? *)
Definition Plus (g : greed) (r : regex) : regex := Cat r (Star g r).

Definition cats (rs : list regex) : regex := fold_right Cat Eps rs.

(** An escaped literal text, as [re.escape] produces. *)
Definition lits (s : str) : regex := cats (map Chr s).

Definition alts (r : regex) (rs : list regex) : regex :=
  fold_left Alt rs r.

Definition digit : regex := Cls false [CDigit].
Definition space : regex := Cls false [CSpace].

Record flags := Flags { ignorecase : bool; dotall : bool }.

Definition no_flags := Flags false false.
Definition I := Flags true false.
Definition DOTALL_I := Flags true true.
Definition DOTALL := Flags false true.

Definition item_mem (it : cls_item) (c : ascii) : bool :=
  match it with
  | CChar x => eqc c x
  | CRange lo hi => in_range (code lo) (code hi) c
  | CSpace => isspace c
  | CDigit => isdigit c
  end.

Definition items_mem (items : list cls_item) (c : ascii) : bool :=
  existsb (fun it => item_mem it c) items.

(** Membership in a class; under IGNORECASE the class is closed under
    case before the lowered subject character is looked up. *)
Definition cls_mem (fl : flags) (items : list cls_item) (c : ascii) : bool :=
  if ignorecase fl
  then items_mem items (lower_char c) || items_mem items (upper_char (lower_char c))
  else items_mem items c.

Definition chr_match (fl : flags) (p c : ascii) : bool :=
  if ignorecase fl then eqc (lower_char p) (lower_char c) else eqc p c.

(** Matcher state: the offset reached, the character before it, the rest
    of the subject, and the spans of the groups closed so far (latest
    first). *)
Record mstate := MState {
  m_pos : nat;
  m_prev : option ascii;
  m_rest : str;
  m_caps : list (nat * (nat * nat))
}.

Definition advance (st : mstate) (c : ascii) (rest : str) : mstate :=
  MState (S (m_pos st)) (Some c) rest (m_caps st).

Definition set_cap (i : nat) (span : nat * nat) (st : mstate) : mstate :=
  MState (m_pos st) (m_prev st) (m_rest st) ((i, span) :: m_caps st).

Definition opt_word (o : option ascii) : bool :=
  match o with Some c => is_word c | None => false end.

Definition at_boundary (st : mstate) : bool :=
  xorb (opt_word (m_prev st)) (opt_word (hd_error (m_rest st))).

Definition orelse {A} (a b : option A) : option A :=
  match a with Some x => Some x | None => b end.

(** The loop of a repetition whose body is matched by [body]: at most [n]
    further iterations, each of which has to consume something. *)
Fixpoint star_loop (body : mstate -> (mstate -> option mstate) -> option mstate)
         (g : greed) (k : mstate -> option mstate) (n : nat) (st0 : mstate)
         {struct n} : option mstate :=
  match n with
  | O => k st0
  | S n' =>
      let again :=
        body st0 (fun st1 => if m_pos st1 =? m_pos st0 then None
                             else star_loop body g k n' st1) in
      match g with
      | Greedy => orelse again (k st0)
      | Lazy => orelse (k st0) again
      end
  end.

(** [m fl r st k]: match [r] at [st] and continue with [k]; alternatives
    are tried in Python's priority order and the first overall success
    is returned.  A repetition makes at most one iteration per remaining
    character, an iteration that consumes nothing ends the loop. *)
Fixpoint m (fl : flags) (r : regex) (st : mstate)
           (k : mstate -> option mstate) {struct r} : option mstate :=
  match r with
  | Eps => k st
  | Chr p =>
      match m_rest st with
      | c :: rest => if chr_match fl p c then k (advance st c rest) else None
      | [] => None
      end
  | Any =>
      match m_rest st with
      | c :: rest =>
          if dotall fl || negb (eqc c nl) then k (advance st c rest) else None
      | [] => None
      end
  | Cls neg items =>
      match m_rest st with
      | c :: rest =>
          if xorb neg (cls_mem fl items c) then k (advance st c rest) else None
      | [] => None
      end
  | Cat r1 r2 => m fl r1 st (fun st1 => m fl r2 st1 k)
  | Alt r1 r2 => orelse (m fl r1 st k) (m fl r2 st k)
  | Star g r1 => star_loop (m fl r1) g k (S (length (m_rest st))) st
  | Opt g r1 =>
      match g with
      | Greedy => orelse (m fl r1 st k) (k st)
      | Lazy => orelse (k st) (m fl r1 st k)
      end
  | Grp i r1 =>
      m fl r1 st (fun st1 => k (set_cap i (m_pos st, m_pos st1) st1))
  | Look r1 =>
      match m fl r1 st (fun st1 => Some st1) with
      | Some _ => k st
      | None => None
      end
  | NotBehind items =>
      match m_prev st with
      | Some c => if items_mem items c then None else k st
      | None => k st
      end
  | WordB => if at_boundary st then k st else None
  | Bol => if m_pos st =? 0 then k st else None
  | Eol =>
      match m_rest st with
      | [] => k st
      | [c] => if eqc c nl then k st else None
      | _ => None
      end
  end.

(** A match object: span and group spans, over the subject string. *)
Record rmatch := RMatch {
  r_start : nat;
  r_end : nat;
  r_caps : list (nat * (nat * nat))
}.

(** Top-level acceptance; after an empty match the next one starting at
    the same offset must not be empty ([must_advance] of sre). *)
Definition accept (must_advance : bool) (start : nat) (st : mstate)
  : option mstate :=
  if must_advance && (m_pos st =? start) then None else Some st.

(** Leftmost match starting at or after the given state. *)
Fixpoint search_at (fl : flags) (r : regex) (must_advance : bool)
         (pos : nat) (prev : option ascii) (rest : str) {struct rest}
  : option rmatch :=
  match m fl r (MState pos prev rest []) (accept must_advance pos) with
  | Some st => Some (RMatch pos (m_pos st) (m_caps st))
  | None =>
      match rest with
      | [] => None
      | c :: rest' => search_at fl r false (S pos) (Some c) rest'
      end
  end.

(** [re.search(r, s, flags)]. *)
Definition search (fl : flags) (r : regex) (s : str) : option rmatch :=
  search_at fl r false 0 None s.

Definition matches (fl : flags) (r : regex) (s : str) : bool :=
  match search fl r s with Some _ => true | None => false end.

Fixpoint lookup_cap (i : nat) (caps : list (nat * (nat * nat)))
  : option (nat * nat) :=
  match caps with
  | [] => None
  | (j, span) :: caps' => if i =? j then Some span else lookup_cap i caps'
  end.

(** [mt.group(i)]; [None] when the group did not take part. *)
Definition group (s : str) (mt : rmatch) (i : nat) : option str :=
  match i with
  | O => Some (slice (r_start mt) (r_end mt) s)
  | _ => match lookup_cap i (r_caps mt) with
         | Some (a, b) => Some (slice a b s)
         | None => None
         end
  end.

Definition group_or_empty (s : str) (mt : rmatch) (i : nat) : str :=
  match group s mt i with Some g => g | None => [] end.

Definition last_char (s : str) : option ascii := hd_error (rev s).

(** The successive non-overlapping matches that [findall], [sub] and
    [split] iterate over; [limit] is [count] ([None] for no limit). *)
Fixpoint iter_matches (fuel : nat) (fl : flags) (r : regex) (s : str)
         (limit : option nat) (start : nat) (must_advance : bool)
  : list rmatch :=
  match fuel with
  | O => []
  | S fuel' =>
      match limit with
      | Some O => []
      | _ =>
          match search_at fl r must_advance start
                  (last_char (firstn start s)) (skipn start s) with
          | None => []
          | Some mt =>
              mt :: iter_matches fuel' fl r s
                      (match limit with Some n => Some (pred n) | None => None end)
                      (r_end mt) (r_end mt =? r_start mt)
          end
      end
  end.

Definition all_matches (fl : flags) (r : regex) (s : str)
           (limit : option nat) : list rmatch :=
  iter_matches (2 * length s + 2) fl r s limit 0 false.

(** [re.findall] for a pattern with exactly one group, and with none. *)
Definition findall1 (fl : flags) (r : regex) (s : str) : list str :=
  map (fun mt => group_or_empty s mt 1) (all_matches fl r s None).

Definition findall0 (fl : flags) (r : regex) (s : str) : list str :=
  map (fun mt => group_or_empty s mt 0) (all_matches fl r s None).

(** Rebuild the subject with each match replaced by [f mt]. *)
Fixpoint splice (s : str) (from : nat) (ms : list rmatch)
         (f : rmatch -> str) : str :=
  match ms with
  | [] => skipn from s
  | mt :: ms' =>
      slice from (r_start mt) s ++ f mt ++ splice s (r_end mt) ms' f
  end.

(** [re.sub(r, f, s, count, flags)] with a callable replacement. *)
Definition sub_fun (fl : flags) (r : regex) (f : str -> rmatch -> str)
           (s : str) (limit : option nat) : str :=
  splice s 0 (all_matches fl r s limit) (f s).

(** [re.split(r, s)] for a pattern without groups. *)
Fixpoint pieces (s : str) (from : nat) (ms : list rmatch) : list str :=
  match ms with
  | [] => [skipn from s]
  | mt :: ms' => slice from (r_start mt) s :: pieces s (r_end mt) ms'
  end.

Definition split (fl : flags) (r : regex) (s : str) : list str :=
  pieces s 0 (all_matches fl r s None).

(** ** Replacement templates *)

(** Exceptions the modelled calls can raise. *)
Inductive exn :=
| ReError (msg : str)        (* re.error; [msg] is its [msg] attribute *)
| IndexError (msg : str).

Inductive result (A : Type) :=
| Ok (a : A)
| Raise (e : exn).
Arguments Ok {A} a.
Arguments Raise {A} e.

Inductive titem :=
| TLit (c : ascii)
| TGroup (i : nat).

Definition is_octdigit (c : ascii) : bool := in_range 48 55 c.
Definition digit_val (c : ascii) : nat := code c - 48.

Definition is_id_start (c : ascii) : bool :=
  is_ascii_letter c || (code c =? 95)
  || (code c =? 170) || (code c =? 181) || (code c =? 186)
  || in_range 192 214 c || in_range 216 246 c || in_range 248 255 c.

Definition is_id_continue (c : ascii) : bool :=
  is_id_start c || isdigit c || (code c =? 183).

(** [name.isidentifier()]. *)
Definition isidentifier (name : str) : bool :=
  match name with
  | [] => false
  | c :: cs => is_id_start c && forallb is_id_continue cs
  end.

Definition nat_of_digits (s : str) : nat :=
  fold_left (fun acc c => 10 * acc + digit_val c) s 0.

(** Text up to the first token [>]; [None] when there is none.  A
    backslash and the character after it are one token. *)
Fixpoint getuntil_gt (s : str) : option (str * str) :=
  match s with
  | [] => None
  | c :: s' =>
      if eqc c ">"%char then Some ([], s')
      else if eqc c backslash then
        match s' with
        | e :: s'' =>
            match getuntil_gt s'' with
            | Some (name, rest) => Some (c :: e :: name, rest)
            | None => None
            end
        | [] => None
        end
      else match getuntil_gt s' with
           | Some (name, rest) => Some (c :: name, rest)
           | None => None
           end
  end.

Definition escape_code (c : ascii) : option nat :=
  if eqc c "a"%char then Some 7
  else if eqc c "b"%char then Some 8
  else if eqc c "f"%char then Some 12
  else if eqc c "n"%char then Some 10
  else if eqc c "r"%char then Some 13
  else if eqc c "t"%char then Some 9
  else if eqc c "v"%char then Some 11
  else if eqc c backslash then Some 92
  else None.

Definition bind {A B} (x : result A) (f : A -> result B) : result B :=
  match x with Ok a => f a | Raise e => Raise e end.

Definition addgroup (groups i : nat) (rest : result (list titem))
  : result (list titem) :=
  if groups <? i
  then Raise (ReError (lit "invalid group reference " ++ str_of_nat i))
  else bind rest (fun items => Ok (TGroup i :: items)).

(** The template parser of [re] ([parse_template]) for a pattern with
    [groups] numbered groups and no named group, on templates that do
    not end in a lone backslash. *)
Fixpoint parse_template (fuel : nat) (groups : nat) (t : str)
  : result (list titem) :=
  match fuel with
  | O => Ok []
  | S fuel' =>
      let continue := parse_template fuel' groups in
      match t with
      | [] => Ok []
      | c :: t1 =>
          if negb (eqc c backslash)
          then bind (continue t1) (fun items => Ok (TLit c :: items))
          else
            match t1 with
            | [] => Raise (ReError (lit "bad escape (end of pattern)"))
            | e :: t2 =>
                if eqc e "g"%char then
                  match t2 with
                  | lt :: t3 =>
                      if eqc lt "<"%char then
                        match getuntil_gt t3 with
                        | None =>
                            match t3 with
                            | [] => Raise (ReError (lit "missing group name"))
                            | _ => Raise (ReError (lit "missing >, unterminated name"))
                            end
                        | Some ([], _) =>
                            Raise (ReError (lit "missing group name"))
                        | Some (name, t4) =>
                            if isidentifier name then
                              Raise (IndexError (lit "unknown group name '" ++ name ++ lit "'"))
                            else if forallb (fun d => in_range 48 57 d) name then
                              addgroup groups (nat_of_digits name) (continue t4)
                            else
                              Raise (ReError (lit "bad character in group name '" ++ name ++ lit "'"))
                        end
                      else Raise (ReError (lit "missing <"))
                  | [] => Raise (ReError (lit "missing <"))
                  end
                else if eqc e "0"%char then
                  match t2 with
                  | d1 :: t3 =>
                      if is_octdigit d1 then
                        match t3 with
                        | d2 :: t4 =>
                            if is_octdigit d2 then
                              bind (continue t4) (fun items =>
                                Ok (TLit (ascii_of_nat ((8 * digit_val d1 + digit_val d2) mod 256)) :: items))
                            else
                              bind (continue t3) (fun items =>
                                Ok (TLit (ascii_of_nat (digit_val d1)) :: items))
                        | [] => Ok [TLit (ascii_of_nat (digit_val d1))]
                        end
                      else bind (continue t2) (fun items => Ok (TLit (ascii_of_nat 0) :: items))
                  | [] => Ok [TLit (ascii_of_nat 0)]
                  end
                else if isdigit e then
                  match t2 with
                  | d1 :: t3 =>
                      if isdigit d1 then
                        match t3 with
                        | d2 :: t4 =>
                            if is_octdigit e && is_octdigit d1 && is_octdigit d2 then
                              let v := 64 * digit_val e + 8 * digit_val d1 + digit_val d2 in
                              if 255 <? v then
                                Raise (ReError (lit "octal escape value " ++ [backslash; e; d1; d2]
                                                ++ lit " outside of range 0-0o377"))
                              else bind (continue t4) (fun items => Ok (TLit (ascii_of_nat v) :: items))
                            else addgroup groups (10 * digit_val e + digit_val d1) (continue t3)
                        | [] => addgroup groups (10 * digit_val e + digit_val d1) (continue t3)
                        end
                      else addgroup groups (digit_val e) (continue t2)
                  | [] => addgroup groups (digit_val e) (continue t2)
                  end
                else
                  match escape_code e with
                  | Some n => bind (continue t2) (fun items => Ok (TLit (ascii_of_nat n) :: items))
                  | None =>
                      if is_ascii_letter e
                      then Raise (ReError (lit "bad escape " ++ [backslash; e]))
                      else bind (continue t2) (fun items => Ok (TLit c :: TLit e :: items))
                  end
            end
      end
  end.

Definition expand (s : str) (items : list titem) (mt : rmatch) : str :=
  flat_map (fun it => match it with
                      | TLit c => [c]
                      | TGroup i => group_or_empty s mt i
                      end) items.

(** [re.sub(r, template, s, count, flags)] with a string replacement: the
    template is compiled first (and may raise), whether or not the
    pattern matches. *)
Definition sub_template (fl : flags) (r : regex) (groups : nat)
           (template : str) (s : str) (limit : option nat) : result str :=
  bind (parse_template (S (length template)) groups template)
       (fun items => Ok (splice s 0 (all_matches fl r s limit) (expand s items))).

End Re.
Import Re.

(** Truth value of a string or list: non-empty. *)
Definition nonempty {A} (xs : list A) : bool :=
  match xs with [] => false | _ => true end.

(* ===================================================================== *)
(** * utils/latex_parser.py *)
(* ===================================================================== *)

Module LatexParser.

(** [%-+SUMMARY-+.*?\\section\{Summary\}.*?\\begin\{itemize\}] *)
Definition summary_anchor : list regex :=
  [ Chr "%"; Plus Greedy (Chr "-"); lits (lit "SUMMARY"); Plus Greedy (Chr "-");
    Star Lazy Any; lits (lit "\section{Summary}");
    Star Lazy Any; lits (lit "\begin{itemize}") ].

(** The pattern of [extract_summary_section]:
    [anchor(.*?)\\end\{itemize\}] *)
Definition extract_summary_pattern : regex :=
  cats (summary_anchor ++ [ Grp 1 (Star Lazy Any); lits (lit "\end{itemize}") ]).

(** [\\item\s+(.*?)(?=\\item|$)] *)
Definition bullet_pattern : regex :=
  cats [ lits (lit "\item"); Plus Greedy space; Grp 1 (Star Lazy Any);
         Look (Alt (lits (lit "\item")) Eol) ].

Definition extract_summary_section (latex_content : str) : option (list str) :=
  match search DOTALL_I extract_summary_pattern latex_content with
  | None => None
  | Some mt =>
      let itemize_content := group_or_empty latex_content mt 1 in
      let bullets := findall1 DOTALL bullet_pattern itemize_content in
      let cleaned_bullets :=
        map (fun bullet => replace_char nl " "%char (strip bullet))
            (filter (fun bullet => nonempty (strip bullet)) bullets) in
      match cleaned_bullets with
      | [] => None
      | _ => Some cleaned_bullets
      end
  end.

(** The pattern of [replace_summary_section]:
    [(anchor[^\n]*\n)(.*?)(\\end\{itemize\})] *)
Definition replace_summary_pattern : regex :=
  cats [ Grp 1 (cats (summary_anchor ++ [ Star Greedy (Cls true [CChar nl]); Chr nl ]));
         Grp 2 (Star Lazy Any);
         Grp 3 (lits (lit "\end{itemize}")) ].

Definition replace_summary_section (latex_content : str) (new_bullets : list str)
  : result str :=
  (* '\n'.join([f'\\\\item {bullet}' for bullet in new_bullets]) *)
  let formatted_bullets :=
    join [nl] (map (fun bullet => [backslash; backslash] ++ lit "item " ++ bullet)
                   new_bullets) in
  (* r'\1' + formatted_bullets + '\n' + r'\3' *)
  let replacement := lit "\1" ++ formatted_bullets ++ [nl] ++ lit "\3" in
  sub_template DOTALL_I replace_summary_pattern 3 replacement latex_content None.

(** [\\section\{Professional Experience\}.*?\\resumeSubHeadingListStart\s*] *)
Definition experience_head : regex :=
  cats [ lits (lit "\section{Professional Experience}"); Star Lazy Any;
         lits (lit "\resumeSubHeadingListStart"); Star Greedy space ].

(** [\\resumeSubheading.*?\\resumeItemListEnd] *)
Definition experience_entry : regex :=
  cats [ lits (lit "\resumeSubheading"); Star Lazy Any;
         lits (lit "\resumeItemListEnd") ].

Definition extract_first_experience (latex_content : str) : option str :=
  match search DOTALL_I (Cat experience_head (Grp 1 experience_entry)) latex_content with
  | None => None
  | Some mt => Some (strip (group_or_empty latex_content mt 1))
  end.

Definition replace_first_experience (latex_content new_experience : str) : str :=
  let pattern := Cat (Grp 1 experience_head) (Grp 2 experience_entry) in
  let replacement_func := fun s mt => group_or_empty s mt 1 ++ new_experience in
  sub_fun DOTALL_I pattern replacement_func latex_content (Some 1).

(** [\\section\{NAME\}.*?\\begin\{itemize\}.*?\\end\{itemize\}] *)
Definition skills_pattern (name : str) : regex :=
  cats [ lits (lit "\section{" ++ name ++ lit "}"); Star Lazy Any;
         lits (lit "\begin{itemize}"); Star Lazy Any; lits (lit "\end{itemize}") ].

Definition extract_skills_section (latex_content : str) : option str :=
  let mt :=
    match search DOTALL_I (Grp 1 (skills_pattern (lit "SKILLS"))) latex_content with
    | Some mt => Some mt
    | None => search DOTALL_I (Grp 1 (skills_pattern (lit "Technical Skills"))) latex_content
    end in
  match mt with
  | None => None
  | Some mt => Some (strip (group_or_empty latex_content mt 1))
  end.

Definition replace_skills_section (latex_content new_skills : str) : str :=
  if matches DOTALL_I (skills_pattern (lit "SKILLS")) latex_content
  then sub_fun DOTALL_I (skills_pattern (lit "SKILLS")) (fun _ _ => new_skills)
               latex_content (Some 1)
  else sub_fun DOTALL_I (skills_pattern (lit "Technical Skills")) (fun _ _ => new_skills)
               latex_content (Some 1).

Definition required_elements : list regex :=
  [ lits (lit "\documentclass");
    lits (lit "\begin{document}");
    lits (lit "\end{document}") ].

Definition validate_latex_structure (latex_content : str) : bool :=
  forallb (fun element => matches no_flags element latex_content) required_elements.

(** The characters to escape, each with its replacement template, in the
    order of the dictionary. *)
Definition special_chars : list (ascii * str) :=
  [ ("%"%char, lit "\%"); ("$"%char, lit "\$"); ("&"%char, lit "\&");
    ("_"%char, lit "\_"); ("{"%char, lit "\{"); ("}"%char, lit "\}");
    ("#"%char, lit "\#"); ("^"%char, lit "\^{}"); ("~"%char, lit "\~{}") ].

(** [(?<!\\)CHAR] *)
Definition unescaped_char (char : ascii) : regex :=
  Cat (NotBehind [CChar backslash]) (Chr char).

Definition escape_latex_special_chars (text : str) : result str :=
  fold_left (fun result '(char, escaped) =>
               bind result (fun result =>
                 sub_template no_flags (unescaped_char char) 0 escaped result None))
            special_chars (Ok text).

(** The heading part of the pattern of [replace_summary_section]: its
    group 1. *)
Definition summary_heading : regex :=
  cats (summary_anchor ++ [ Star Greedy (Cls true [CChar nl]); Chr nl ]).

End LatexParser.

(* ===================================================================== *)
(** * Python floats (binary64), as far as the scores need them *)
(* ===================================================================== *)

Module PyFloat.

Definition prec : Z := 53.
Definition emax : Z := 1024.

(** [float(z)]. *)
Definition of_int (z : Z) : spec_float := binary_normalize prec emax z 0 false.

(** [a / b] on two ints (true division), for operands below 2^53. *)
Definition truediv (a b : Z) : spec_float := SFdiv prec emax (of_int a) (of_int b).

Definition mul (x y : spec_float) : spec_float := SFmul prec emax x y.

(** [int(x)]: truncation toward zero of a finite float. *)
Definition to_int (x : spec_float) : Z :=
  match x with
  | S754_finite s m e =>
      let a := match e with
               | Z0 => Zpos m
               | Zpos p => Z.shiftl (Zpos m) (Zpos p)
               | Zneg p => Z.shiftr (Zpos m) (Zpos p)
               end in
      if s then Z.opp a else a
  | _ => 0%Z
  end.

End PyFloat.

(* ===================================================================== *)
(** * utils/keyword_analyzer.py *)
(* ===================================================================== *)

Module KeywordAnalyzer.

Definition count_keyword_matches (text : str) (keywords : list str) : nat :=
  let text_lower := lower text in
  fold_left (fun matches keyword =>
               if contains (lower keyword) text_lower then matches + 1 else matches)
            keywords 0.

Definition get_matched_keywords (text : str) (keywords : list str) : list str :=
  let text_lower := lower text in
  fold_left (fun matched keyword =>
               if contains (lower keyword) text_lower then matched ++ [keyword]
               else matched)
            keywords [].

Definition STOP_WORDS : list str :=
  map lit
    [ "the"; "a"; "an"; "and"; "or"; "but"; "in"; "on"; "at"; "to"; "for";
      "of"; "with"; "by"; "from"; "as"; "is"; "was"; "are"; "were"; "be";
      "been"; "being"; "have"; "has"; "had"; "do"; "does"; "did"; "will";
      "would"; "should"; "could"; "may"; "might"; "must"; "can"; "this";
      "that"; "these"; "those"; "i"; "you"; "he"; "she"; "it"; "we"; "they";
      "what"; "which"; "who"; "when"; "where"; "why"; "how"; "all"; "each";
      "every"; "both"; "few"; "more"; "most"; "other"; "some"; "such"; "no";
      "nor"; "not"; "only"; "own"; "same"; "so"; "than"; "too"; "very"; "our";
      "your"; "their" ]%string.

(** [[a-z0-9]] *)
Definition token_class : regex := Cls false [CRange "a" "z"; CRange "0" "9"].

(** [\b[a-z0-9]+(?:-[a-z0-9]+)*\b] *)
Definition token_pattern : regex :=
  cats [ WordB; Plus Greedy token_class;
         Star Greedy (Cat (Chr "-") (Plus Greedy token_class)); WordB ].

Definition tokenize_text (text : str) : list str :=
  let text := lower text in
  let words := findall0 no_flags token_pattern text in
  filter (fun word => negb (existsb (eqs word) STOP_WORDS) && (2 <? length word)) words.

(** [Counter(words)]: the words in the order of their first occurrence,
    each with the number of its occurrences. *)
Fixpoint counter_add (word : str) (counts : list (str * nat)) : list (str * nat) :=
  match counts with
  | [] => [(word, 1)]
  | (w, c) :: counts' =>
      if eqs w word then (w, S c) :: counts' else (w, c) :: counter_add word counts'
  end.

Definition Counter (words : list str) : list (str * nat) :=
  fold_left (fun counts word => counter_add word counts) words [].

(** [most_common(n)]: the [n] first entries in decreasing order of count,
    entries of equal count in the order of the counter. *)
Fixpoint insert_by_count (x : str * nat) (sorted : list (str * nat))
  : list (str * nat) :=
  match sorted with
  | [] => [x]
  | y :: sorted' =>
      if snd x <? snd y then y :: insert_by_count x sorted' else x :: sorted
  end.

Definition most_common (n : nat) (counts : list (str * nat)) : list (str * nat) :=
  firstn n (fold_right insert_by_count [] counts).

Definition extract_keywords (job_description : str) (top_n : nat) : list str :=
  let words := tokenize_text job_description in
  let word_counts := Counter words in
  map fst (most_common top_n word_counts).

End KeywordAnalyzer.
Import KeywordAnalyzer.

(** [enumerate(xs, start)]. *)
Fixpoint enumerate {A} (start : nat) (xs : list A) : list (nat * A) :=
  match xs with
  | [] => []
  | x :: xs' => (start, x) :: enumerate (S start) xs'
  end.

(** [len(xs)] as an [int]. *)
Definition len {A} (xs : list A) : Z := Z.of_nat (length xs).

(** [max(0, min(100, score))]. *)
Definition clamp (score : Z) : Z := Z.max 0 (Z.min 100 score).

(** The replacement template [\1]: one reference to group 1. *)
Definition template_group1 : list titem := [TGroup 1].

(** [re.sub(r, r'\1', s)]. *)
Definition sub_group1 (fl : flags) (r : regex) (s : str) : str :=
  splice s 0 (all_matches fl r s None) (expand s template_group1).

(* ===================================================================== *)
(** * validators/summary_validator.py *)
(* ===================================================================== *)

Module SummaryValidator.

Record SummaryValidationContext := {
  company_names : list str;
  role_level : str;
  max_experience_years : option Z;
  leadership_allowed : bool
}.

(** The three patterns tried for one company name. *)
Definition company_patterns (company_name : str) : list regex :=
  let name := lits (lower company_name) in
  [ cats [WordB; name; WordB];                              (* \bNAME\b *)
    cats [lits (lit "for"); Plus Greedy space; name; WordB]; (* for\s+NAME\b *)
    cats [lits (lit "at"); Plus Greedy space; name; WordB] ]. (* at\s+NAME\b *)

Definition leadership_verbs : list regex :=
  map (fun v => cats [WordB; lits (lit v); WordB])
      [ "led"; "leading"; "lead";
        "managed"; "managing"; "manage";
        "directed"; "directing"; "direct";
        "oversaw"; "overseeing"; "oversee";
        "supervised"; "supervising"; "supervise" ]%string.

(** [(\d+)\+?\s*(?:yrs?|years?)] *)
Definition years_pattern : regex :=
  cats [ Grp 1 (Plus Greedy digit); Opt Greedy (Chr "+"); Star Greedy space;
         Alt (Cat (lits (lit "yr")) (Opt Greedy (Chr "s")))
             (Cat (lits (lit "year")) (Opt Greedy (Chr "s"))) ].

Definition company_message (company_name : str) : str :=
  lit "Company name '" ++ company_name ++ lit "' found in bullet. "
  ++ lit "Never mention the target company as if you work there.".

Definition leadership_message (verb level : str) : str :=
  lit "Leadership verb '" ++ verb ++ lit "' inappropriate for " ++ level
  ++ lit "-level role. "
  ++ lit "Use contributor language: collaborated, contributed, implemented, supported.".

Definition experience_message (years max : Z) (level : str) : str :=
  lit "Experience level '" ++ str_of_Z years ++ lit "+ yrs' exceeds maximum "
  ++ str_of_Z max ++ lit " " ++ lit "for " ++ level
  ++ lit "-level role. Adjust to match job requirements.".

(** First element of [xs] on which [f] answers. *)
Fixpoint first_some {A B} (f : A -> option B) (xs : list A) : option B :=
  match xs with
  | [] => None
  | x :: xs' => match f x with Some y => Some y | None => first_some f xs' end
  end.

(** Check 1 of [check_all_constraints]: the message of the first company
    name one of whose patterns is found. *)
Definition check_company (context : SummaryValidationContext) (content_lower : str)
  : option str :=
  first_some
    (fun company_name =>
       first_some (fun pattern =>
                     if matches no_flags pattern content_lower
                     then Some (company_message company_name) else None)
                  (company_patterns company_name))
    (company_names context).

(** Check 2. *)
Definition check_leadership (context : SummaryValidationContext) (content_lower : str)
  : option str :=
  if negb (leadership_allowed context) then
    first_some
      (fun verb_pattern =>
         match search no_flags verb_pattern content_lower with
         | Some mt =>
             let verb := group_or_empty content_lower mt 0 in
             Some (leadership_message verb (role_level context))
         | None => None
         end)
      leadership_verbs
  else None.

(** Check 3. *)
Definition check_experience (context : SummaryValidationContext) (content_lower : str)
  : option str :=
  match max_experience_years context with
  | Some max =>
      match search no_flags years_pattern content_lower with
      | Some years_match =>
          let years := int_of_digits (group_or_empty content_lower years_match 1) in
          if (max <? years)%Z
          then Some (experience_message years max (role_level context))
          else None
      | None => None
      end
  | None => None
  end.

(** [SummaryBullet.check_all_constraints]: [Some msg] when the validator
    raises [ValueError(msg)], [None] when the bullet is accepted. *)
Definition check_all_constraints (content : str)
           (context : option SummaryValidationContext) : option str :=
  match context with
  | None => None
  | Some context =>
      let content_lower := lower content in
      match check_company context content_lower with
      | Some msg => Some msg
      | None =>
          match check_leadership context content_lower with
          | Some msg => Some msg
          | None => check_experience context content_lower
          end
      end
  end.

Record ValidationResult := {
  passed : bool;
  errors : list str;
  warnings : list str;
  score : Z;
  keywords_matched : nat
}.

(** The validator object: the four settings read at construction. *)
Record SummaryValidator := {
  char_min : Z;
  char_max : Z;
  bullet_count : Z;
  min_keywords : Z
}.

(** The defaults of config/settings.py. *)
Definition default_settings : SummaryValidator :=
  {| char_min := 105; char_max := 109; bullet_count := 4; min_keywords := 5 |}.

Definition _parse_bullets (bullets_text : str) : list str :=
  let lines := split_on nl (strip bullets_text) in
  fold_left (fun bullets line =>
               let line := strip line in
               if startswith (lit "\item") line
               then bullets ++ [strip (skipn 5 line)]
               else bullets)
            lines [].

(** [^[A-Za-z\s]+\s+with\s+\d+\+?\s+(yrs?|years)] *)
Definition first_bullet_pattern : regex :=
  cats [ Bol;
         Plus Greedy (Cls false [CRange "A" "Z"; CRange "a" "z"; CSpace]);
         Plus Greedy space; lits (lit "with"); Plus Greedy space;
         Plus Greedy digit; Opt Greedy (Chr "+"); Plus Greedy space;
         Grp 1 (Alt (Cat (lits (lit "yr")) (Opt Greedy (Chr "s")))
                    (lits (lit "years"))) ].

Definition _check_first_bullet_format (bullet : str) : bool :=
  matches I first_bullet_pattern bullet.

Definition _contains_numbers (text : str) : bool :=
  matches no_flags (Plus Greedy digit) text.

(** [(?<!\\)[%$&#_{}^~]] *)
Definition unescaped_pattern : regex :=
  Cat (NotBehind [CChar backslash])
      (Cls false (map CChar (lit "%$&#_{}^~"))).

Definition _check_latex_escaping (text : str) : bool :=
  negb (matches no_flags unescaped_pattern text).

Definition semantic_terms : list str :=
  [lit "company name"; lit "leadership"; lit "experience level"].

Definition is_semantic (e : str) : bool :=
  existsb (fun term => contains term (lower e)) semantic_terms.

Definition _calculate_score (errors warnings : list str)
           (keywords_matched total_keywords : Z) : Z :=
  let score := 100%Z in
  let semantic_errors := len (filter is_semantic errors) in
  let format_errors := (len errors - semantic_errors)%Z in
  let score := (score - semantic_errors * 20)%Z in
  let score := (score - format_errors * 15)%Z in
  let score := (score - len warnings * 5)%Z in
  let keyword_ratio := PyFloat.truediv keywords_matched (Z.max total_keywords 1) in
  let score := (score + PyFloat.to_int (PyFloat.mul keyword_ratio (PyFloat.of_int 10)))%Z in
  clamp score.

Definition bullet_prefix (i : nat) : str := lit "Bullet " ++ str_of_nat i ++ lit ": ".

Definition count_message (self : SummaryValidator) (found : Z) : str :=
  lit "Must have exactly " ++ str_of_Z (bullet_count self)
  ++ lit " bullets (found " ++ str_of_Z found ++ lit ")".

Definition chars_message (self : SummaryValidator) (i : nat) (char_count : Z) : str :=
  bullet_prefix i ++ str_of_Z char_count ++ lit " chars (must be "
  ++ str_of_Z (char_min self) ++ lit "-" ++ str_of_Z (char_max self) ++ lit ")".

Definition first_format_message : str :=
  lit "Bullet 1 must start with '[Role] with X+ yrs'".

Definition period_message (i : nat) : str :=
  bullet_prefix i ++ lit "Remove trailing period".

Definition impact_message (i : nat) : str :=
  bullet_prefix i ++ lit "Consider adding measurable impact (numbers/percentages)".

Definition keywords_message (self : SummaryValidator) (matched : nat) (total : Z) : str :=
  lit "Only " ++ str_of_nat matched ++ lit "/" ++ str_of_Z total
  ++ lit " keywords found (need " ++ str_of_Z (min_keywords self) ++ lit ")".

Definition escaping_message : str :=
  lit "Some special characters may not be properly escaped".

(** The loop that runs the semantic validation of every bullet and
    appends [Bullet i: msg] for each [ValueError(msg)]. *)
Definition semantic_loop (context : SummaryValidationContext)
           (bullets : list str) (errors : list str) : list str :=
  fold_left (fun errors '(i, bullet) =>
               match check_all_constraints bullet (Some context) with
               | Some error_msg => errors ++ [bullet_prefix i ++ error_msg]
               | None => errors
               end)
            (enumerate 1 bullets) errors.

(** The per-bullet checks 2 to 5, on the pair (errors, warnings). *)
Definition bullet_step (self : SummaryValidator)
           (acc : list str * list str) (ib : nat * str) : list str * list str :=
  let '(errors, warnings) := acc in
  let '(i, bullet) := ib in
  let char_count := len bullet in
  let errors :=
    if (char_count <? char_min self)%Z || (char_max self <? char_count)%Z
    then errors ++ [chars_message self i char_count] else errors in
  let errors :=
    if (i =? 1) && negb (_check_first_bullet_format bullet)
    then errors ++ [first_format_message] else errors in
  let errors :=
    if endswith (lit ".") (rstrip bullet)
    then errors ++ [period_message i] else errors in
  let warnings :=
    if negb (_contains_numbers bullet)
    then warnings ++ [impact_message i] else warnings in
  (errors, warnings).

Definition validate (self : SummaryValidator) (bullets_text : str)
           (keywords : list str) (context : option SummaryValidationContext)
  : ValidationResult :=
  let errors := [] in
  let warnings := [] in
  let bullets := _parse_bullets bullets_text in
  let errors :=
    match context with
    | Some context => semantic_loop context bullets errors
    | None => errors
    end in
  let errors :=
    if negb (len bullets =? bullet_count self)%Z
    then errors ++ [count_message self (len bullets)] else errors in
  let '(errors, warnings) :=
    fold_left (bullet_step self) (enumerate 1 bullets) (errors, warnings) in
  let full_text := join (lit " ") bullets in
  let keywords_matched := count_keyword_matches full_text keywords in
  let errors :=
    if (Z.of_nat keywords_matched <? min_keywords self)%Z
    then errors ++ [keywords_message self keywords_matched (len keywords)]
    else errors in
  let warnings :=
    if negb (_check_latex_escaping bullets_text)
    then warnings ++ [escaping_message] else warnings in
  let score := _calculate_score errors warnings (Z.of_nat keywords_matched) (len keywords) in
  let passed := (length errors =? 0) in
  {| passed := passed; errors := errors; warnings := warnings;
     score := score; keywords_matched := keywords_matched |}.

End SummaryValidator.

(* ===================================================================== *)
(** * validators/experience_validator.py *)
(* ===================================================================== *)

Module ExperienceValidator.

Record ExperienceValidationResult := {
  passed : bool;
  errors : list str;
  warnings : list str;
  score : Z;
  keywords_matched : nat
}.

Definition min_bullets : Z := 4.
Definition max_bullets : Z := 6.
Definition min_keywords : Z := 3.

Definition action_verbs : list str :=
  map lit
    [ "led"; "developed"; "implemented"; "designed"; "built"; "created";
      "managed"; "delivered"; "launched"; "optimized"; "improved"; "reduced";
      "increased"; "achieved"; "established"; "drove"; "spearheaded"; "facilitated";
      "deployed"; "architected"; "engineered"; "collaborated"; "coordinated" ]%string.

(** [\\NAME\{(.*?)\}] *)
Definition wrapper_pattern (name : string) : regex :=
  cats [ Chr backslash; lits (lit name); Chr "{"; Grp 1 (Star Lazy Any); Chr "}" ].

(** [\\textcolor\{.*?\}\{(.*?)\}] *)
Definition textcolor_pattern : regex :=
  cats [ lits (lit "\textcolor{"); Star Lazy Any; lits (lit "}{");
         Grp 1 (Star Lazy Any); Chr "}" ].

Definition _parse_bullets (experience_text : str) : list str :=
  let found := findall1 DOTALL (wrapper_pattern "resumeItem") experience_text in
  fold_left (fun bullets mtext =>
               let content := strip mtext in
               let content := sub_group1 no_flags (wrapper_pattern "textit") content in
               let content := sub_group1 no_flags (wrapper_pattern "textbf") content in
               let content := sub_group1 no_flags textcolor_pattern content in
               bullets ++ [content])
            found [].

Definition _starts_with_action_verb (bullet : str) : bool :=
  let first_word := match split_ws bullet with
                    | w :: _ => lower w
                    | [] => []
                    end in
  existsb (eqs first_word) action_verbs.

Definition metric_patterns : list regex :=
  [ Cat (Plus Greedy digit) (Chr "%");                          (* \d+% *)
    Cat (Plus Greedy digit) (Chr "+");                          (* \d+\+ *)
    Cat (Plus Greedy digit) (Cls false (map CChar (lit "KMB"))); (* \d+[KMB] *)
    Cat (Chr "$") (Plus Greedy digit);                          (* \$\d+ *)
    Cat (Plus Greedy digit) (Chr "x");                          (* \d+x *)
    Plus Greedy digit ].                                        (* \d+ *)

Definition _contains_metrics (text : str) : bool :=
  existsb (fun pattern => matches no_flags pattern text) metric_patterns.

Definition _check_latex_format (text : str) : bool :=
  let has_subheading := contains (lit "\resumeSubheading") text in
  let has_items := contains (lit "\resumeItem") text in
  has_subheading && has_items.

Definition _calculate_score (errors warnings : list str)
           (keywords_matched total_keywords bullet_count : Z) : Z :=
  let score := 100%Z in
  let score := (score - len errors * 15)%Z in
  let score := (score - len warnings * 5)%Z in
  let keyword_ratio := PyFloat.truediv keywords_matched (Z.max total_keywords 1) in
  let score := (score + PyFloat.to_int (PyFloat.mul keyword_ratio (PyFloat.of_int 15)))%Z in
  let score := if (bullet_count =? 5)%Z then (score + 5)%Z else score in
  clamp score.

Definition bullet_prefix (i : nat) : str := lit "Bullet " ++ str_of_nat i ++ lit ": ".

Definition need_message (found : Z) : str :=
  lit "Need at least " ++ str_of_Z min_bullets ++ lit " bullets (found "
  ++ str_of_Z found ++ lit ")".

Definition reduce_message (found : Z) : str :=
  lit "Consider reducing to " ++ str_of_Z max_bullets ++ lit " bullets (found "
  ++ str_of_Z found ++ lit ")".

Definition verb_message (i : nat) : str :=
  bullet_prefix i ++ lit "Consider starting with strong action verb".

Definition metrics_message (i : nat) : str :=
  bullet_prefix i ++ lit "Add quantifiable metrics (%, numbers, scale)".

Definition period_message (i : nat) : str :=
  bullet_prefix i ++ lit "Remove trailing period".

Definition keywords_message (matched : nat) (total : Z) : str :=
  lit "Only " ++ str_of_nat matched ++ lit "/" ++ str_of_Z total
  ++ lit " keywords found (need " ++ str_of_Z min_keywords ++ lit ")".

Definition format_message : str :=
  lit "Invalid LaTeX format - must use \resumeItem structure".

(** The per-bullet checks 2 to 4, on the pair (errors, warnings). *)
Definition bullet_step (acc : list str * list str) (ib : nat * str)
  : list str * list str :=
  let '(errors, warnings) := acc in
  let '(i, bullet) := ib in
  let warnings :=
    if negb (_starts_with_action_verb bullet)
    then warnings ++ [verb_message i] else warnings in
  let warnings :=
    if negb (_contains_metrics bullet)
    then warnings ++ [metrics_message i] else warnings in
  let errors :=
    if endswith (lit ".") (rstrip bullet)
    then errors ++ [period_message i] else errors in
  (errors, warnings).

Definition validate (experience_text : str) (keywords : list str)
  : ExperienceValidationResult :=
  let errors := [] in
  let warnings := [] in
  let bullets := _parse_bullets experience_text in
  let '(errors, warnings) :=
    if (len bullets <? min_bullets)%Z
    then (errors ++ [need_message (len bullets)], warnings)
    else if (max_bullets <? len bullets)%Z
         then (errors, warnings ++ [reduce_message (len bullets)])
         else (errors, warnings) in
  let '(errors, warnings) :=
    fold_left bullet_step (enumerate 1 bullets) (errors, warnings) in
  let full_text := join (lit " ") bullets in
  let keywords_matched := count_keyword_matches full_text keywords in
  let errors :=
    if (Z.of_nat keywords_matched <? min_keywords)%Z
    then errors ++ [keywords_message keywords_matched (len keywords)]
    else errors in
  let errors :=
    if negb (_check_latex_format experience_text)
    then errors ++ [format_message] else errors in
  let score := _calculate_score errors warnings (Z.of_nat keywords_matched)
                                (len keywords) (len bullets) in
  let passed := (length errors =? 0) in
  {| passed := passed; errors := errors; warnings := warnings;
     score := score; keywords_matched := keywords_matched |}.

End ExperienceValidator.

(* ===================================================================== *)
(** * validators/skills_validator.py *)
(* ===================================================================== *)

Module SkillsValidator.

Record SkillsValidationResult := {
  passed : bool;
  errors : list str;
  warnings : list str;
  score : Z;
  keywords_matched : nat
}.

Definition min_skills : Z := 8.
Definition max_skills : Z := 20.
Definition min_keywords : Z := 3.

(** [[,;|]] *)
Definition delimiter_pattern : regex := Cls false (map CChar (lit ",;|")).

Definition _parse_skills (skills_text : str) : list str :=
  let lines := split_on nl skills_text in
  fold_left
    (fun skills line =>
       let line := strip line in
       if startswith (lit "\item") line then
         let content := strip (skipn 5 line) in
         let parts := Re.split no_flags delimiter_pattern content in
         fold_left
           (fun skills part =>
              let skill := strip part in
              let skill :=
                sub_group1 no_flags (ExperienceValidator.wrapper_pattern "textbf") skill in
              let skill :=
                sub_group1 no_flags (ExperienceValidator.wrapper_pattern "textit") skill in
              if nonempty skill && negb (eqs skill (lit ":"))
              then skills ++ [skill] else skills)
           parts skills
       else skills)
    lines [].

Definition category_patterns : list regex :=
  [ cats [ lits (lit "\textbf{"); Star Lazy Any; Chr ":" ];   (* \\textbf\{.*?: *)
    lits (lit "Languages:");
    lits (lit "Frameworks:");
    lits (lit "Tools:");
    lits (lit "Technologies:") ].

Definition _has_categories (text : str) : bool :=
  existsb (fun pattern => matches I pattern text) category_patterns.

Definition _check_latex_format (text : str) : bool :=
  let has_items := contains (lit "\item") text in
  let has_section :=
    contains (lit "\section") text || contains (lit "\begin{itemize}") text in
  has_items && has_section.

Definition _find_duplicates (skills : list str) : list str :=
  snd (fold_left
         (fun '(seen, duplicates) skill =>
            let skill_lower := lower skill in
            if existsb (eqs skill_lower) seen
            then (seen, duplicates ++ [skill])
            else (skill_lower :: seen, duplicates))
         skills ([], [])).

Definition _calculate_score (errors warnings : list str)
           (keywords_matched total_keywords skill_count : Z) : Z :=
  let score := 100%Z in
  let score := (score - len errors * 15)%Z in
  let score := (score - len warnings * 5)%Z in
  let keyword_ratio := PyFloat.truediv keywords_matched (Z.max total_keywords 1) in
  let score := (score + PyFloat.to_int (PyFloat.mul keyword_ratio (PyFloat.of_int 20)))%Z in
  let score :=
    if (12 <=? skill_count)%Z && (skill_count <=? 15)%Z then (score + 5)%Z else score in
  clamp score.

Definition more_message (found : Z) : str :=
  lit "Consider adding more skills (found " ++ str_of_Z found
  ++ lit ", recommended " ++ str_of_Z min_skills ++ lit "+)".

Definition fewer_message (found : Z) : str :=
  lit "Consider reducing skills (found " ++ str_of_Z found
  ++ lit ", recommended max " ++ str_of_Z max_skills ++ lit ")".

Definition keywords_message (matched : nat) (total : Z) : str :=
  lit "Only " ++ str_of_nat matched ++ lit "/" ++ str_of_Z total
  ++ lit " keywords found (need " ++ str_of_Z min_keywords ++ lit ")".

Definition categories_message : str :=
  lit "Consider organizing skills into categories (Languages, Frameworks, Tools, etc.)".

Definition format_message : str :=
  lit "Invalid LaTeX format - must use \item structure".

Definition duplicates_message (duplicates : list str) : str :=
  lit "Duplicate skills found: " ++ join (lit ", ") duplicates.

Definition validate (skills_text : str) (keywords : list str)
  : SkillsValidationResult :=
  let errors := [] in
  let warnings := [] in
  let skills := _parse_skills skills_text in
  let warnings :=
    if (len skills <? min_skills)%Z
    then warnings ++ [more_message (len skills)]
    else if (max_skills <? len skills)%Z
         then warnings ++ [fewer_message (len skills)]
         else warnings in
  let full_text := join (lit " ") skills in
  let keywords_matched := count_keyword_matches full_text keywords in
  let errors :=
    if (Z.of_nat keywords_matched <? min_keywords)%Z
    then errors ++ [keywords_message keywords_matched (len keywords)]
    else errors in
  let warnings :=
    if negb (_has_categories skills_text)
    then warnings ++ [categories_message] else warnings in
  let errors :=
    if negb (_check_latex_format skills_text)
    then errors ++ [format_message] else errors in
  let duplicates := _find_duplicates skills in
  let warnings :=
    if nonempty duplicates
    then warnings ++ [duplicates_message duplicates] else warnings in
  let score := _calculate_score errors warnings (Z.of_nat keywords_matched)
                                (len keywords) (len skills) in
  let passed := (length errors =? 0) in
  {| passed := passed; errors := errors; warnings := warnings;
     score := score; keywords_matched := keywords_matched |}.

End SkillsValidator.

(* ===================================================================== *)
(** * utils/jd_analyzer.py: the fallback heuristics *)
(* ===================================================================== *)

Module JDAnalyzer.

Record JobDescriptionMetadata := {
  company_names : list str;
  role_level : str;
  experience_years_min : option Z;
  experience_years_max : option Z;
  key_responsibilities : list str;
  leadership_required : bool
}.

Definition any_in (terms : list string) (text : str) : bool :=
  existsb (fun term => contains (lit term) text) terms.

(** The field validator that runs when the metadata is constructed. *)
Definition validate_role_level (v : str) : str :=
  if existsb (eqs v) (map lit ["Junior"; "Mid"; "Senior"; "Staff"; "Lead"]%string)
  then v
  else
    let v_lower := lower v in
    if any_in ["junior"; "entry"]%string v_lower || eqs (lit "i") v_lower
    then lit "Junior"
    else if any_in ["senior"; "sr"; "iii"]%string v_lower then lit "Senior"
    else if any_in ["staff"; "principal"; "iv"]%string v_lower then lit "Staff"
    else if any_in ["lead"; "manager"]%string v_lower then lit "Lead"
    else lit "Mid".

Definition alnum_class : list cls_item :=
  [CRange "A" "Z"; CRange "a" "z"; CRange "0" "9"].

(** [([A-Z][A-Za-z0-9]+)] *)
Definition capitalized : regex :=
  Grp 1 (Cat (Cls false [CRange "A" "Z"]) (Plus Greedy (Cls false alnum_class))).

Definition company_patterns : list regex :=
  [ (* (?:at|join|for)\s+([A-Z][A-Za-z0-9]+) *)
    cats [ alts (lits (lit "at")) [lits (lit "join"); lits (lit "for")];
           Plus Greedy space; capitalized ];
    (* ([A-Z][A-Za-z0-9]+)\s+(?:is|are|seeks) *)
    cats [ capitalized; Plus Greedy space;
           alts (lits (lit "is")) [lits (lit "are"); lits (lit "seeks")] ] ].

(** [(\d+)[\s-]+(?:to|-)?\s*(\d+)?\s*(?:\+)?\s*years?] *)
Definition experience_pattern : regex :=
  cats [ Grp 1 (Plus Greedy digit);
         Plus Greedy (Cls false [CSpace; CChar "-"]);
         Opt Greedy (Alt (lits (lit "to")) (Chr "-"));
         Star Greedy space;
         Opt Greedy (Grp 2 (Plus Greedy digit));
         Star Greedy space;
         Opt Greedy (Chr "+");
         Star Greedy space;
         lits (lit "year"); Opt Greedy (Chr "s") ].

Section Fallback.

(** [list(set(xs))]: the elements of [xs] without repetition, in the
    iteration order of the set, which the program does not fix. *)
Variable list_of_set : list str -> list str.

Definition _get_default_metadata (job_description : str) : JobDescriptionMetadata :=
  let company_names :=
    fold_left (fun company_names pattern =>
                 company_names ++ findall1 no_flags pattern job_description)
              company_patterns [] in
  let company_names := firstn 3 (list_of_set company_names) in
  let jd_lower := lower job_description in
  let role_level :=
    if any_in ["engineer ii"; "ii "; " ii,"; "level ii"; "level 2"]%string jd_lower
    then lit "Mid"
    else if any_in ["engineer iii"; "iii "; " iii,"; "level iii"; "level 3"]%string jd_lower
    then lit "Senior"
    else if any_in ["engineer i "; " i "; " i,"; "level i"; "level 1"; "junior"; "entry"]%string
                   jd_lower
    then lit "Junior"
    else if any_in ["engineer iv"; "iv "; " iv,"; "staff"; "principal"]%string jd_lower
    then lit "Staff"
    else if any_in ["lead"; "manager"]%string jd_lower
    then lit "Lead"
    else if any_in ["senior"; "sr."]%string jd_lower
    then lit "Senior"
    else lit "Mid" in
  let exp_match := search no_flags experience_pattern jd_lower in
  let '(exp_min, exp_max) :=
    match exp_match with
    | Some mt =>
        (Some (int_of_digits (group_or_empty jd_lower mt 1)),
         match group jd_lower mt 2 with
         | Some (c :: g) => Some (int_of_digits (c :: g))
         | _ => None
         end)
    | None => (None, None)
    end in
  let leadership_required :=
    any_in ["lead team"; "manage team"; "direct report"; "people management"]%string
           jd_lower in
  {| company_names := company_names;
     role_level := validate_role_level role_level;
     experience_years_min := exp_min;
     experience_years_max := exp_max;
     key_responsibilities := [];
     leadership_required := leadership_required |}.

End Fallback.

(** Truth value of an optional [int]: present and not zero. *)
Definition truthy (o : option Z) : bool :=
  match o with Some z => negb (z =? 0)%Z | None => false end.

Definition experience_defaults : list (str * str) :=
  [ (lit "Junior", lit "2+"); (lit "Mid", lit "4+"); (lit "Senior", lit "7+");
    (lit "Staff", lit "10+"); (lit "Lead", lit "12+") ].

(** [d.get(key, default)]. *)
Fixpoint dict_get (d : list (str * str)) (key default : str) : str :=
  match d with
  | [] => default
  | (k, v) :: d' => if eqs key k then v else dict_get d' key default
  end.

Definition get_suggested_experience_years (self : JDAnalyzer.JobDescriptionMetadata) : str :=
  if truthy (JDAnalyzer.experience_years_min self) && truthy (JDAnalyzer.experience_years_max self) then
    match JDAnalyzer.experience_years_min self, JDAnalyzer.experience_years_max self with
    | Some mn, Some mx =>
        let midpoint := ((mn + mx) / 2)%Z in
        str_of_Z midpoint ++ lit "+"
    | _, _ => []
    end
  else if truthy (JDAnalyzer.experience_years_min self) then
    match JDAnalyzer.experience_years_min self with
    | Some mn => str_of_Z mn ++ lit "+"
    | None => []
    end
  else dict_get experience_defaults (JDAnalyzer.role_level self) (lit "5+").

Definition get_leadership_guidance (self : JDAnalyzer.JobDescriptionMetadata) : str :=
  if JDAnalyzer.leadership_required self
     || existsb (eqs (JDAnalyzer.role_level self)) [lit "Staff"; lit "Lead"]
  then lit "Leadership language encouraged (led, managed, directed)"
  else if eqs (JDAnalyzer.role_level self) (lit "Senior")
  then lit "Moderate leadership language acceptable (led small teams, mentored)"
  else lit "Use contributor language (collaborated, contributed, implemented, supported)".

End JDAnalyzer.

(* ===================================================================== *)
(** * api/claude_client.py *)
(* ===================================================================== *)

Module ClaudeClient.

(** [```(?:latex)?\n?(.*?)\n?```] *)
Definition fence_pattern : regex :=
  cats [ lits (lit "```"); Opt Greedy (lits (lit "latex")); Opt Greedy (Chr nl);
         Grp 1 (Star Lazy Any); Opt Greedy (Chr nl); lits (lit "```") ].

(** The test of the loop of [_clean_response] on one line. *)
Definition is_latex_line (line : str) : bool :=
  contains (lit "\item") line || contains (lit "\section") line
  || contains (lit "\begin") line || contains (lit "\resumeSubheading") line.

(** One turn of the loop: the flag [in_latex] and the list [latex_lines]. *)
Definition collect_line (state : bool * list str) (line : str) : bool * list str :=
  let '(in_latex, latex_lines) := state in
  let in_latex := if is_latex_line line then true else in_latex in
  if in_latex then (in_latex, latex_lines ++ [line]) else (in_latex, latex_lines).

Definition _clean_response (response : str) : result str :=
  bind (sub_template DOTALL fence_pattern 1 (lit "\1") response None)
       (fun response =>
          let lines := split_on nl (strip response) in
          let latex_lines := snd (fold_left collect_line lines (false, [])) in
          if nonempty latex_lines
          then Ok (strip (join [nl] latex_lines))
          else Ok (strip response)).

End ClaudeClient.

(* ===================================================================== *)
(** * Vocabulary of the statements *)
(* ===================================================================== *)

(** The lines of a document, each one ended by a newline. *)
Definition text_of_lines (ls : list string) : str :=
  concat (map (fun l => lit l ++ [nl]) ls).

(** A resume whose Summary bullet uses a LaTeX command. *)
Definition summary_doc : str :=
  text_of_lines
    [ "%-----------SUMMARY-----------";
      "\section{Summary}";
      "\begin{itemize}";
      "\item Engineer with 5+ yrs in \textbf{Python}";
      "\end{itemize}" ]%string.

Definition summary_doc_bullets : list str :=
  [ lit "Engineer with 5+ yrs in \textbf{Python}" ].

(** [summary_doc] with the command of its bullet turned into a tab followed
    by [extbf]. *)
Definition summary_doc_damaged : str :=
  text_of_lines
    [ "%-----------SUMMARY-----------";
      "\section{Summary}";
      "\begin{itemize}" ]%string
  ++ lit "\item Engineer with 5+ yrs in " ++ [tab] ++ lit "extbf{Python}" ++ [nl]
  ++ text_of_lines [ "\end{itemize}" ]%string.

(** Division of [a] by a positive [b], rounded to the nearest integer. *)
Definition round_div (a b : Z) : Z := ((2 * a + b) / (2 * b))%Z.

(** The summary score as the scoring sentence words it: the keyword bonus
    is ten times the match ratio, rounded to the nearest integer. *)
Definition stated_summary_score (semantic other warnings matched total : Z) : Z :=
  clamp (100 - 20 * semantic - 15 * other - 5 * warnings
         + round_div (10 * matched) (Z.max total 1))%Z.

(** The keyword bonus as the validators compute it: the float product
    truncated toward zero. *)
Definition keyword_bonus (weight matched total : Z) : Z :=
  PyFloat.to_int (PyFloat.mul (PyFloat.truediv matched (Z.max total 1))
                              (PyFloat.of_int weight)).

(** A bullet is not blank when it has a character that is not whitespace. *)
Definition non_blank (s : str) : bool := existsb (fun c => negb (isspace c)) s.

(** A message that starts with the character [c]. *)
Definition starts_with_char (c : ascii) (s : str) : Prop :=
  exists rest, s = c :: rest.

(** Characters of a printed integer. *)
Definition digit_or_minus (c : ascii) : bool := isdigit c || eqc c "-"%char.

(** No character of [s] is [c] once lowered. *)
Definition lower_avoids (c : ascii) (s : str) : bool :=
  forallb (fun x => negb (eqc (lower_char x) c)) s.

(** The longest prefix of digits and minus signs, and what follows it. *)
Fixpoint span_number (s : str) : str * str :=
  match s with
  | [] => ([], [])
  | c :: s' =>
      if digit_or_minus c
      then let '(a, b) := span_number s' in (c :: a, b)
      else ([], s)
  end.

(** What the semantic stage of the summary validator appends for one
    numbered bullet. *)
Definition semantic_errors_of (context : SummaryValidator.SummaryValidationContext)
           (ib : nat * str) : list str :=
  match SummaryValidator.check_all_constraints (snd ib) (Some context) with
  | Some error_msg => [SummaryValidator.bullet_prefix (fst ib) ++ error_msg]
  | None => []
  end.

(** What checks 2 to 4 append to the errors for one numbered bullet, and
    check 5 to the warnings. *)
Definition format_errors_of (self : SummaryValidator.SummaryValidator)
           (ib : nat * str) : list str :=
  let '(i, bullet) := ib in
  (if (len bullet <? SummaryValidator.char_min self)%Z
      || (SummaryValidator.char_max self <? len bullet)%Z
   then [SummaryValidator.chars_message self i (len bullet)] else [])
  ++ (if (i =? 1) && negb (SummaryValidator._check_first_bullet_format bullet)
      then [SummaryValidator.first_format_message] else [])
  ++ (if endswith (lit ".") (rstrip bullet)
      then [SummaryValidator.period_message i] else []).

Definition impact_warnings_of (ib : nat * str) : list str :=
  if negb (SummaryValidator._contains_numbers (snd ib))
  then [SummaryValidator.impact_message (fst ib)] else [].

(** The three kinds of semantic error of the summary validator. *)
Inductive semantic_error : str -> Prop :=
| SE_company (i : nat) (company_name : str) :
    semantic_error (SummaryValidator.bullet_prefix i
                    ++ SummaryValidator.company_message company_name)
| SE_leadership (i : nat) (verb level : str) :
    semantic_error (SummaryValidator.bullet_prefix i
                    ++ SummaryValidator.leadership_message verb level)
| SE_experience (i : nat) (years max : Z) (level : str) :
    semantic_error (SummaryValidator.bullet_prefix i
                    ++ SummaryValidator.experience_message years max level).

(** Its structural and lexical errors. *)
Inductive format_error (self : SummaryValidator.SummaryValidator) : str -> Prop :=
| FE_count (found : Z) :
    format_error self (SummaryValidator.count_message self found)
| FE_chars (i : nat) (char_count : Z) :
    format_error self (SummaryValidator.chars_message self i char_count)
| FE_first :
    format_error self SummaryValidator.first_format_message
| FE_period (i : nat) :
    format_error self (SummaryValidator.period_message i)
| FE_keywords (matched : nat) (total : Z) :
    format_error self (SummaryValidator.keywords_message self matched total).

(** The matcher state between the part [a] of the subject already read
    and the part [b] still to read, no group being closed. *)
Definition at_split (a b : str) : mstate :=
  MState (length a) (last_char a) b [].

(** A word boundary lies between [a] and [b]: exactly one of the two
    characters next to the cut is a word character. *)
Definition boundary_between (a b : str) : bool :=
  xorb (opt_word (last_char a)) (opt_word (hd_error b)).

(** [name] occurs in [text] as a whole word: some occurrence starts and
    ends at a word boundary. *)
Definition occurs_as_whole_word (name text : str) : Prop :=
  exists pre post,
    text = pre ++ name ++ post
    /\ boundary_between pre (name ++ post) = true
    /\ boundary_between (pre ++ name) post = true.

(** The occurrence of [name] between [pre] and [post] is only a part of a
    larger word: a word character of the text continues the first or the
    last character of [name]. *)
Definition inside_larger_word (name pre post : str) : bool :=
  (opt_word (last_char pre) && opt_word (hd_error name))
  || (opt_word (last_char name) && opt_word (hd_error post)).

Definition only_inside_larger_words (name text : str) : Prop :=
  forall pre post, text = pre ++ name ++ post -> inside_larger_word name pre post = true.

(** The keyword bonus agrees with the floor of [weight * k / max n 1] for
    every [k <= n <= bound]. *)
Definition bonus_table_ok (weight : Z) (bound : nat) : bool :=
  forallb (fun n =>
             forallb (fun k =>
                        (keyword_bonus weight (Z.of_nat k) (Z.of_nat n)
                         =? weight * Z.of_nat k / Z.max (Z.of_nat n) 1)%Z)
                     (seq 0 (S n)))
          (seq 0 (S bound)).

(** Decides [only_inside_larger_words] by trying every position; [seen]
    is the part of the text already passed, last character first. *)
Fixpoint every_occurrence_inside (name seen rest : str) : bool :=
  (if startswith name rest
   then inside_larger_word name (rev seen) (skipn (length name) rest)
   else true)
  && match rest with
     | [] => true
     | c :: rest' => every_occurrence_inside name (c :: seen) rest'
     end.

(** A context that bans the company name R37. *)
Definition r37_context : SummaryValidator.SummaryValidationContext :=
  {| SummaryValidator.company_names := [lit "R37"];
     SummaryValidator.role_level := lit "Mid";
     SummaryValidator.max_experience_years := None;
     SummaryValidator.leadership_allowed := true |}.

(** Experience blocks with three and with seven items. *)
Definition three_item_block : str :=
  lit "\resumeSubheading{Acme}{2020}\resumeItem{Built a 1}\resumeItem{Led b 2}\resumeItem{Created c 3}".

Definition seven_item_block : str :=
  lit "\resumeSubheading{Acme}{2020}\resumeItem{Built 1}\resumeItem{Built 2}\resumeItem{Built 3}\resumeItem{Built 4}\resumeItem{Built 5}\resumeItem{Built 6}\resumeItem{Built 7}".

(** ** Vocabulary for the matcher *)

(** [s1] is a state the matcher can be in after reading the text [w] from
    the state [st], on the same subject. *)
Definition reaches (st : mstate) (w : str) (s1 : mstate) : Prop :=
  m_rest st = w ++ m_rest s1
  /\ m_pos s1 = m_pos st + length w
  /\ m_prev s1 = match last_char w with Some c => Some c | None => m_prev st end.

(** The pattern has no capturing group. *)
Fixpoint no_groups (r : regex) : bool :=
  match r with
  | Cat r1 r2 | Alt r1 r2 => no_groups r1 && no_groups r2
  | Star _ r1 | Opt _ r1 | Look r1 => no_groups r1
  | Grp _ _ => false
  | _ => true
  end.

(** Two states at the same point of the same subject. *)
Definition same_point (s s' : mstate) : Prop :=
  m_pos s = m_pos s' /\ m_prev s = m_prev s' /\ m_rest s = m_rest s'.

Definition caps := list (nat * (nat * nat)).

(** Two outcomes of the matcher that agree up to the relation [Rel] on
    their group spans. *)
Definition orel (Rel : caps -> caps -> Prop) (o o' : option mstate) : Prop :=
  match o, o' with
  | Some x, Some x' => same_point x x' /\ Rel (m_caps x) (m_caps x')
  | None, None => True
  | _, _ => False
  end.

(** Two patterns that differ in their capturing groups only, the spans of
    which stay related by [Rel]. *)
Inductive corr (Rel : caps -> caps -> Prop) : regex -> regex -> Prop :=
| corr_eps : corr Rel Eps Eps
| corr_chr c : corr Rel (Chr c) (Chr c)
| corr_any : corr Rel Any Any
| corr_cls neg items : corr Rel (Cls neg items) (Cls neg items)
| corr_cat r1 r1' r2 r2' :
    corr Rel r1 r1' -> corr Rel r2 r2' -> corr Rel (Cat r1 r2) (Cat r1' r2')
| corr_alt r1 r1' r2 r2' :
    corr Rel r1 r1' -> corr Rel r2 r2' -> corr Rel (Alt r1 r2) (Alt r1' r2')
| corr_star g r r' : corr Rel r r' -> corr Rel (Star g r) (Star g r')
| corr_opt g r r' : corr Rel r r' -> corr Rel (Opt g r) (Opt g r')
| corr_look r r' : corr Rel r r' -> corr Rel (Look r) (Look r')
| corr_notbehind items : corr Rel (NotBehind items) (NotBehind items)
| corr_wordb : corr Rel WordB WordB
| corr_bol : corr Rel Bol Bol
| corr_eol : corr Rel Eol Eol
| corr_grp i j r r' :
    corr Rel r r' ->
    (forall sp c c', Rel c c' -> Rel ((i, sp) :: c) ((j, sp) :: c')) ->
    corr Rel (Grp i r) (Grp j r')
| corr_grp_left i r r' :
    corr Rel r r' ->
    (forall sp c c', Rel c c' -> Rel ((i, sp) :: c) c') ->
    corr Rel (Grp i r) r'
| corr_grp_right j r r' :
    corr Rel r r' ->
    (forall sp c c', Rel c c' -> Rel c ((j, sp) :: c')) ->
    corr Rel r (Grp j r').

(** Two search results with the same span and related group spans. *)
Definition rmatch_rel (Rel : caps -> caps -> Prop) (o o' : option rmatch) : Prop :=
  match o, o' with
  | Some mt, Some mt' =>
      r_start mt = r_start mt' /\ r_end mt = r_end mt'
      /\ Rel (r_caps mt) (r_caps mt')
  | None, None => True
  | _, _ => False
  end.

(** The words of a pattern, with its assertions and groups left out:
    every match of the pattern consumes one of them. *)
Fixpoint in_lang (fl : flags) (r : regex) (w : str) : Prop :=
  match r with
  | Eps => w = []
  | Chr p => exists c, w = [c] /\ chr_match fl p c = true
  | Any => exists c, w = [c] /\ dotall fl || negb (eqc c nl) = true
  | Cls neg items => exists c, w = [c] /\ xorb neg (cls_mem fl items c) = true
  | Cat r1 r2 =>
      exists w1 w2, w = w1 ++ w2 /\ in_lang fl r1 w1 /\ in_lang fl r2 w2
  | Alt r1 r2 => in_lang fl r1 w \/ in_lang fl r2 w
  | Star _ r1 => exists ws, w = concat ws /\ Forall (in_lang fl r1) ws
  | Opt _ r1 => w = [] \/ in_lang fl r1 w
  | Grp _ r1 => in_lang fl r1 w
  | Look _ | NotBehind _ | WordB | Bol | Eol => w = []
  end.

(** A word whose first and last characters match the given pattern
    characters. *)
Definition edges (fl : flags) (p q : ascii) (w : str) : Prop :=
  exists c d, hd_error w = Some c /\ chr_match fl p c = true
              /\ last_char w = Some d /\ chr_match fl q d = true.

(** Group 1 of the extracting pattern is group 2 of the replacing one. *)
Definition experience_rel (c c' : caps) : Prop := lookup_cap 1 c = lookup_cap 2 c'.

(** A text with each backslash doubled, as a replacement template needs it. *)
Definition escape_template (u : str) : str :=
  flat_map (fun c => if eqc c backslash then [backslash; backslash] else [c]) u.

(** The item lines that a replaced Summary block is meant to hold. *)
Definition summary_lines (new_bullets : list str) : str :=
  join [nl] (map (fun bullet => lit "\item " ++ bullet) new_bullets).

(** A text that a replacement template reproduces as it is: each backslash
    is followed by a character that is neither an ASCII letter, nor a
    digit, nor a backslash (as in [\%], [\&], [\$], [\#], [\_]). *)
Fixpoint template_safe (u : str) : bool :=
  match u with
  | [] => true
  | c :: u' =>
      if eqc c backslash then
        match u' with
        | e :: u'' =>
            negb (is_ascii_letter e) && negb (isdigit e) && negb (eqc e backslash)
            && template_safe u''
        | [] => false
        end
      else template_safe u'
  end.

(** The requirements on one bullet of the summary that do not depend on
    its place: its length and its last character. *)
Definition summary_bullet_ok (self : SummaryValidator.SummaryValidator) (bullet : str)
  : Prop :=
  (SummaryValidator.char_min self <= len bullet <= SummaryValidator.char_max self)%Z
  /\ endswith (lit ".") (rstrip bullet) = false.

(** What the loop of the experience validator appends to the errors for
    one numbered bullet. *)
Definition period_errors_of (ib : nat * str) : list str :=
  if endswith (lit ".") (rstrip (snd ib))
  then [ExperienceValidator.period_message (fst ib)] else [].

(** The skills that repeat, ignoring case, one already in [seen] or an
    earlier one of the list. *)
Fixpoint repeated_skills (seen : list str) (skills : list str) : list str :=
  match skills with
  | [] => []
  | skill :: skills' =>
      if existsb (eqs (lower skill)) seen
      then skill :: repeated_skills seen skills'
      else repeated_skills (lower skill :: seen) skills'
  end.

(** The five role levels of the metadata. *)
Definition valid_levels : list str :=
  map lit ["Junior"; "Mid"; "Senior"; "Staff"; "Lead"]%string.

(* ===================================================================== *)
(** * app.py: what the page does with the generated sections *)
(* ===================================================================== *)

Module App.

(** The validation context that [generate_all_sections] builds from the
    metadata of the job description. *)
Definition validation_context (jd_metadata : JDAnalyzer.JobDescriptionMetadata)
  : SummaryValidator.SummaryValidationContext :=
  {| SummaryValidator.company_names := JDAnalyzer.company_names jd_metadata;
     SummaryValidator.role_level := JDAnalyzer.role_level jd_metadata;
     SummaryValidator.max_experience_years := JDAnalyzer.experience_years_max jd_metadata;
     SummaryValidator.leadership_allowed := JDAnalyzer.leadership_required jd_metadata |}.

(** [^\\+item\s*] *)
Definition item_prefix_pattern : regex :=
  cats [ Bol; Plus Greedy (Chr backslash); lits (lit "item"); Star Greedy space ].

(** [re.sub(r, '', s)]: the empty template has no item. *)
Definition sub_empty (fl : flags) (r : regex) (s : str) : str :=
  splice s 0 (all_matches fl r s None) (expand s []).

Definition parse_item_bullets (text : str) : list str :=
  if negb (nonempty text) then []
  else
    let lines := split_on nl (strip text) in
    fold_left (fun bullets line =>
                 let line := strip line in
                 if startswith (lit "\item") line || startswith (lit "\item") line then
                   let bullet := sub_empty no_flags item_prefix_pattern line in
                   if nonempty bullet then bullets ++ [bullet] else bullets
                 else bullets)
              lines [].

End App.

(** The characters that [_check_latex_escaping] looks for. *)
Definition is_special (c : ascii) : bool :=
  existsb (eqc c) (lit "%$&#_{}^~").

(** Some special character of [s] does not follow a backslash; [prev] is
    the character before [s]. *)
Fixpoint has_unescaped (prev : option ascii) (s : str) : bool :=
  match s with
  | [] => false
  | c :: s' =>
      is_special c
      && negb (match prev with Some p => eqc p backslash | None => false end)
      || has_unescaped (Some c) s'
  end.

(** The character before the current one is a backslash. *)
Definition after_backslash (prev : option ascii) : bool :=
  match prev with Some p => eqc p backslash | None => false end.

(** The replacement that [rules] has for [c]. *)
Fixpoint rule_for (rules : list (ascii * str)) (c : ascii) : option str :=
  match rules with
  | [] => None
  | (k, rep) :: rules' => if eqc k c then Some rep else rule_for rules' c
  end.

(** One pass over [s] that replaces each character that has a rule and
    does not follow a backslash; [prev] is the character before [s]. *)
Fixpoint escape_scan (rules : list (ascii * str)) (prev : option ascii) (s : str) : str :=
  match s with
  | [] => []
  | c :: s' =>
      match rule_for rules c with
      | Some rep => if after_backslash prev then [c] else rep
      | None => [c]
      end ++ escape_scan rules (Some c) s'
  end.

(** The rules can be applied one after the other: no key is a backslash or
    occurs twice, no replacement ends with a backslash, and no replacement
    holds the key of a later rule. *)
Fixpoint rules_ok (rules : list (ascii * str)) : bool :=
  match rules with
  | [] => true
  | (k, rep) :: rules' =>
      negb (eqc k backslash)
      && negb (after_backslash (last_char rep))
      && nonempty rep
      && forallb (fun kr => negb (eqc (fst kr) k)
                            && negb (existsb (eqc (fst kr)) rep)) rules'
      && rules_ok rules'
  end.

(** The first occurrence of [c] in [b] that does not follow a backslash:
    what stands before it and after it. *)
Fixpoint first_unescaped (c : ascii) (prev : option ascii) (b : str)
  : option (str * str) :=
  match b with
  | [] => None
  | x :: b' =>
      if eqc c x && negb (after_backslash prev) then Some ([], b')
      else match first_unescaped c (Some x) b' with
           | Some (pre, post) => Some (x :: pre, post)
           | None => None
           end
  end.

(** What a further rule for [c] needs of a rule applied before it. *)
Definition rule_before (c : ascii) (kr : ascii * str) : Prop :=
  eqc (fst kr) backslash = false
  /\ after_backslash (last_char (snd kr)) = false
  /\ nonempty (snd kr) = true
  /\ existsb (eqc c) (snd kr) = false.

(** The match [mt] covers the part [w] of the subject [s]. *)
Definition covers (s : str) (mt : rmatch) (w : str) : Prop :=
  exists a b, s = a ++ w ++ b
              /\ r_start mt = length a /\ r_end mt = length a + length w.

(** The characters of a token: lower-case ASCII letters, digits, hyphen. *)
Definition is_token_char (c : ascii) : bool :=
  in_range 97 122 c || in_range 48 57 c || eqc c "-"%char.

(** The count that [counts] has for the word [w] (0 when it has none), and
    the number of times [w] stands in [words]. *)
Fixpoint count_of (w : str) (counts : list (str * nat)) : nat :=
  match counts with
  | [] => 0
  | (k, c) :: counts' => if eqs k w then c else count_of w counts'
  end.

Definition occurrences (w : str) (words : list str) : nat :=
  length (filter (eqs w) words).

(** [x] does not come after [y] in decreasing order of count. *)
Definition count_ge (x y : str * nat) : Prop := snd y <= snd x.

(** The match [mt] of [r] in [s] is the result of a run of the matcher
    that starts after [a]: [s = a ++ b]. *)
Definition run_of (fl : flags) (r : regex) (s : str) (mt : rmatch) : Prop :=
  exists a b must_advance x,
    s = a ++ b
    /\ r_start mt = length a
    /\ m fl r (MState (length a) (last_char a) b []) (accept must_advance (length a))
       = Some x
    /\ r_end mt = m_pos x /\ r_caps mt = m_caps x.

(** The state that a repetition of single characters reaches from [st]
    after the characters [w], with [rest] still to read. *)
Definition state_after (st : mstate) (w rest : str) : mstate :=
  MState (m_pos st + length w)
         (match last_char w with Some c => Some c | None => m_prev st end)
         rest (m_caps st).

(** [w] is the text of an item of [text]: what stands between some
    [\resumeItem{] and the first closing brace after it. *)
Definition item_text (text w : str) : Prop :=
  exists a b,
    text = a ++ lit "\resumeItem{" ++ w ++ "}"%char :: b
    /\ existsb (eqc "}"%char) w = false.

(** A pattern that looks at the remaining text only: no [^], [\b] or
    look-behind. *)
Fixpoint position_free (r : regex) : bool :=
  match r with
  | Eps | Chr _ | Any | Cls _ _ | Eol => true
  | Cat r1 r2 | Alt r1 r2 => position_free r1 && position_free r2
  | Star _ r1 | Opt _ r1 | Grp _ r1 | Look r1 => position_free r1
  | NotBehind _ | WordB | Bol => false
  end.

(** Two states on the same remaining text whose offsets differ by a fixed
    amount. *)
Definition shifted (d d' : nat) (st st' : mstate) : Prop :=
  m_rest st' = m_rest st /\ m_pos st + d = m_pos st' + d'.

(** A context that bans the company name Yahoo!, which ends in a character
    that is not a word character. *)
Definition yahoo_context : SummaryValidator.SummaryValidationContext :=
  {| SummaryValidator.company_names := [lit "Yahoo!"];
     SummaryValidator.role_level := lit "Mid";
     SummaryValidator.max_experience_years := None;
     SummaryValidator.leadership_allowed := true |}.

(** The lines from the first one that satisfies [p] on. *)
Fixpoint from_first {A} (p : A -> bool) (lines : list A) : list A :=
  match lines with
  | [] => []
  | l :: ls => if p l then l :: ls else from_first p ls
  end.

(** The commands that [_clean_response] looks for. *)
Definition latex_markers : list str :=
  [ lit "\item"; lit "\section"; lit "\begin"; lit "\resumeSubheading" ].

(* ===================================================================== *)
(** * Properties *)
(* ===================================================================== *)

(** ** Lists and loops *)

Lemma clamp_bounds (z : Z) : (0 <= clamp z <= 100)%Z.
Proof. unfold clamp. lia. Qed.

Lemma length_zero_iff {A} (xs : list A) : (length xs =? 0) = true <-> xs = [].
Proof.
  destruct xs as [|x xs]; simpl; split; intro H; try reflexivity; discriminate.
Qed.

(** ** C2: the score is clamped *)

(** C2. For every input, the score returned by each of the three validators
    lies between 0 and 100, whatever the deductions and the bonuses are. *)
Theorem score_within_0_100 :
  (forall self text keywords context,
      (0 <= SummaryValidator.score
              (SummaryValidator.validate self text keywords context) <= 100)%Z)
  /\ (forall text keywords,
      (0 <= ExperienceValidator.score
              (ExperienceValidator.validate text keywords) <= 100)%Z)
  /\ (forall text keywords,
      (0 <= SkillsValidator.score
              (SkillsValidator.validate text keywords) <= 100)%Z).
Proof.
  split; [|split].
  - intros self text keywords context.
    unfold SummaryValidator.validate.
    destruct (fold_left _ _ _) as [errs warns]. cbn [SummaryValidator.score].
    unfold SummaryValidator._calculate_score. apply clamp_bounds.
  - intros text keywords.
    unfold ExperienceValidator.validate.
    destruct (if (len _ <? _)%Z then _ else _) as [e0 w0].
    destruct (fold_left _ _ _) as [errs warns]. cbn [ExperienceValidator.score].
    unfold ExperienceValidator._calculate_score. apply clamp_bounds.
  - intros text keywords.
    unfold SkillsValidator.validate. cbn [SkillsValidator.score].
    unfold SkillsValidator._calculate_score. apply clamp_bounds.
Qed.

(** ** C3: passed means no errors *)

(** C3. For every input, each validator reports [passed = true] exactly
    when its list of errors is empty; warnings play no part. *)
Theorem passed_iff_no_errors :
  (forall self text keywords context,
      let r := SummaryValidator.validate self text keywords context in
      SummaryValidator.passed r = true <-> SummaryValidator.errors r = [])
  /\ (forall text keywords,
      let r := ExperienceValidator.validate text keywords in
      ExperienceValidator.passed r = true <-> ExperienceValidator.errors r = [])
  /\ (forall text keywords,
      let r := SkillsValidator.validate text keywords in
      SkillsValidator.passed r = true <-> SkillsValidator.errors r = []).
Proof.
  split; [|split].
  - intros self text keywords context.
    unfold SummaryValidator.validate.
    destruct (fold_left _ _ _) as [errs warns].
    cbn [SummaryValidator.passed SummaryValidator.errors].
    apply length_zero_iff.
  - intros text keywords.
    unfold ExperienceValidator.validate.
    destruct (if (len _ <? _)%Z then _ else _) as [e0 w0].
    destruct (fold_left _ _ _) as [errs warns].
    cbn [ExperienceValidator.passed ExperienceValidator.errors].
    apply length_zero_iff.
  - intros text keywords.
    unfold SkillsValidator.validate.
    cbn [SkillsValidator.passed SkillsValidator.errors].
    apply length_zero_iff.
Qed.

(** ** Evaluations at concrete inputs *)

(** C1. Extracting the bullets of [summary_doc] and writing the same
    bullets back does not give the document back: the replacement text is
    read as a template, so the [\t] of [\textbf] becomes a tab. The document
    was already in the rebuilt one-item-per-line form. *)
Theorem summary_round_trip_damages_commands :
  LatexParser.extract_summary_section summary_doc = Some summary_doc_bullets
  /\ LatexParser.replace_summary_section summary_doc summary_doc_bullets
     = Ok summary_doc_damaged
  /\ summary_doc_damaged <> summary_doc
  /\ LatexParser.extract_summary_section summary_doc_damaged
     <> Some summary_doc_bullets.
Proof.
  repeat split; try (vm_compute; reflexivity); vm_compute; discriminate.
Qed.

(** C6. Whatever the document is, replacing the summary by a bullet that
    names [\LaTeX] raises [re.error]: the template compiler rejects the
    escape [\L] before any matching takes place. *)
Theorem replace_summary_raises_on_bad_escape :
  forall latex_content,
    LatexParser.replace_summary_section latex_content [lit "Expert in \LaTeX"]
    = Raise (ReError (lit "bad escape \L")).
Proof.
  intro latex_content.
  unfold LatexParser.replace_summary_section, sub_template.
  match goal with
  | |- bind ?p _ = _ =>
      replace p with (@Raise (list titem) (ReError (lit "bad escape \L")))
        by (vm_compute; reflexivity)
  end.
  reflexivity.
Qed.

(** C7. A description titled "Software Engineer III" is given the level
    Mid by the fallback heuristics, not Senior: its lowercase text contains
    "engineer ii", which the first test looks for. *)
Theorem engineer_iii_resolves_to_mid :
  forall list_of_set,
    JDAnalyzer.role_level
      (JDAnalyzer._get_default_metadata list_of_set (lit "Software Engineer III"))
    = lit "Mid".
Proof. intro list_of_set. vm_compute. reflexivity. Qed.

(** C8. A description whose only years phrase is "5+ years" gets no
    experience years from the fallback heuristics: the pattern wants a
    space or a hyphen right after the first number. *)
Theorem five_plus_years_not_extracted :
  forall list_of_set,
    let md := JDAnalyzer._get_default_metadata list_of_set
                (lit "5+ years of experience") in
    JDAnalyzer.experience_years_min md = None
    /\ JDAnalyzer.experience_years_max md = None.
Proof. intro list_of_set. split; vm_compute; reflexivity. Qed.

(** C4, as worded. With two of three keywords matched the validator adds
    6 (the truncation of 6.66...), while rounding to nearest adds 7. *)
Lemma stated_summary_score_counterexample :
  let keywords := [lit "python"; lit "java"; lit "rust"] in
  let r := SummaryValidator.validate SummaryValidator.default_settings
             (lit "\item python java") keywords None in
  SummaryValidator.score r = 41%Z
  /\ stated_summary_score 0 (len (SummaryValidator.errors r))
       (len (SummaryValidator.warnings r))
       (Z.of_nat (SummaryValidator.keywords_matched r)) (len keywords) = 42%Z
  /\ SummaryValidator.score r
     <> stated_summary_score 0 (len (SummaryValidator.errors r))
          (len (SummaryValidator.warnings r))
          (Z.of_nat (SummaryValidator.keywords_matched r)) (len keywords).
Proof.
  repeat split; try (vm_compute; reflexivity); vm_compute; discriminate.
Qed.

(** ** C10: what the summary extraction returns *)

Lemma lstrip_head (s : str) (c : ascii) (rest : str) :
  lstrip s = c :: rest -> isspace c = false.
Proof.
  induction s as [|x s IH]; simpl; [discriminate|].
  destruct (isspace x) eqn:Hx; [exact IH|].
  intros [= <- _]. exact Hx.
Qed.

Lemma strip_has_non_space (s : str) :
  nonempty (strip s) = true ->
  exists c, In c (strip s) /\ isspace c = false.
Proof.
  unfold strip, rstrip.
  destruct (lstrip (rev (lstrip s))) as [|c rest] eqn:Hl; [discriminate|].
  intros _. exists c. split.
  - apply in_rev. rewrite rev_involutive. left. reflexivity.
  - exact (lstrip_head _ _ _ Hl).
Qed.

Lemma cleaned_bullet_non_blank (bullet : str) :
  nonempty (strip bullet) = true ->
  non_blank (replace_char nl " "%char (strip bullet)) = true.
Proof.
  intro H. destruct (strip_has_non_space _ H) as (c & Hin & Hc).
  unfold non_blank. apply existsb_exists.
  exists c. split.
  - unfold replace_char. apply in_map_iff. exists c. split; [|exact Hin].
    destruct (eqc c nl) eqn:E; [|reflexivity].
    apply Ascii.eqb_eq in E. subst c. discriminate Hc.
  - rewrite Hc. reflexivity.
Qed.

(** C10. [extract_summary_section] returns either [None] or a non-empty
    list of bullets none of which is blank; when the anchor matches and
    every [\item] entry of the body is blank, it returns [None]. *)
Theorem extract_summary_none_or_bullets :
  forall latex_content,
    (LatexParser.extract_summary_section latex_content = None
     \/ exists bullets,
         LatexParser.extract_summary_section latex_content = Some bullets
         /\ bullets <> []
         /\ Forall (fun b => non_blank b = true) bullets)
    /\ (forall mt,
          search DOTALL_I LatexParser.extract_summary_pattern latex_content = Some mt ->
          Forall (fun b => strip b = [])
                 (findall1 DOTALL LatexParser.bullet_pattern
                           (group_or_empty latex_content mt 1)) ->
          LatexParser.extract_summary_section latex_content = None).
Proof.
  intro latex_content. unfold LatexParser.extract_summary_section. split.
  - destruct (search _ _ _) as [mt|]; [|left; reflexivity].
    cbv zeta.
    destruct (map _ (filter _ _)) as [|b bs] eqn:Hm; [left; reflexivity|].
    right. exists (b :: bs). split; [reflexivity|]. split; [discriminate|].
    rewrite <- Hm. apply Forall_forall. intros x Hx.
    apply in_map_iff in Hx. destruct Hx as (raw & <- & Hraw).
    apply filter_In in Hraw. destruct Hraw as [_ Hne].
    apply cleaned_bullet_non_blank. exact Hne.
  - intros mt Hs Hall. rewrite Hs. cbv zeta.
    replace (filter _ _) with (@nil str); [reflexivity|].
    symmetry. induction Hall as [|x l Hx _ IH]; [reflexivity|].
    simpl. rewrite Hx. simpl. exact IH.
Qed.

(** The anchor alone, with an empty list body, is a found anchor without
    bullets. *)
Lemma extract_summary_none_or_bullets_witness :
  LatexParser.extract_summary_section
    (lit "%--SUMMARY--\section{Summary}\begin{itemize}\item  \end{itemize}") = None.
Proof.
  apply (proj2 (extract_summary_none_or_bullets
                  (lit "%--SUMMARY--\section{Summary}\begin{itemize}\item  \end{itemize}"))
               (RMatch 0 64 [(1, (44, 51))])).
  - vm_compute. reflexivity.
  - vm_compute. repeat constructor.
Defined.

(** ** C9: the bullet-count rule of the experience validator *)

Lemma experience_loop_shape (l : list (nat * str)) :
  forall errors warnings,
  exists E W,
    fold_left ExperienceValidator.bullet_step l (errors, warnings)
    = (errors ++ E, warnings ++ W)
    /\ Forall (starts_with_char "B") E
    /\ Forall (starts_with_char "B") W.
Proof.
  induction l as [|[i bullet] l IH]; intros errors warnings.
  - exists [], []. simpl. rewrite !app_nil_r. repeat split; constructor.
  - cbn [fold_left]. unfold ExperienceValidator.bullet_step at 2.
    set (W1 := if negb (ExperienceValidator._starts_with_action_verb bullet)
               then [ExperienceValidator.verb_message i] else []).
    set (W2 := if negb (ExperienceValidator._contains_metrics bullet)
               then [ExperienceValidator.metrics_message i] else []).
    set (E1 := if endswith (lit ".") (rstrip bullet)
               then [ExperienceValidator.period_message i] else []).
    destruct (IH (errors ++ E1) (warnings ++ W1 ++ W2)) as (E & W & Heq & HE & HW).
    exists (E1 ++ E), ((W1 ++ W2) ++ W).
    split; [|split].
    + rewrite (app_assoc errors E1 E), (app_assoc warnings (W1 ++ W2) W).
      rewrite <- Heq. f_equal. subst W1 W2 E1.
      destruct (negb (ExperienceValidator._starts_with_action_verb bullet));
        destruct (negb (ExperienceValidator._contains_metrics bullet));
        destruct (endswith (lit ".") (rstrip bullet));
        simpl; rewrite ?app_nil_r, <- ?app_assoc; reflexivity.
    + apply Forall_app. split; [|exact HE]. subst E1.
      destruct (endswith _ _); repeat constructor. eexists. reflexivity.
    + apply Forall_app. split; [|exact HW]. apply Forall_app. subst W1 W2.
      split; [destruct (negb (ExperienceValidator._starts_with_action_verb bullet))
             |destruct (negb (ExperienceValidator._contains_metrics bullet))];
        repeat constructor; eexists; reflexivity.
Qed.

(** The errors and warnings of [validate], in the order they are appended. *)
Lemma experience_validate_lists (experience_text : str) (keywords : list str) :
  let r := ExperienceValidator.validate experience_text keywords in
  let n := len (ExperienceValidator._parse_bullets experience_text) in
  exists E W T,
    ExperienceValidator.errors r
    = (if (n <? 4)%Z then [ExperienceValidator.need_message n] else []) ++ E ++ T
    /\ ExperienceValidator.warnings r
       = (if (n <? 4)%Z then []
          else if (6 <? n)%Z then [ExperienceValidator.reduce_message n] else []) ++ W
    /\ Forall (starts_with_char "B") E
    /\ Forall (starts_with_char "B") W
    /\ Forall (fun e => starts_with_char "O" e \/ starts_with_char "I" e) T.
Proof.
  cbv zeta. unfold ExperienceValidator.validate.
  set (bullets := ExperienceValidator._parse_bullets experience_text).
  set (n := len bullets).
  change ExperienceValidator.min_bullets with 4%Z.
  change ExperienceValidator.max_bullets with 6%Z.
  set (start := if (n <? 4)%Z then _ else _).
  assert (Hstart : start =
            ((if (n <? 4)%Z then [ExperienceValidator.need_message n] else []),
             (if (n <? 4)%Z then []
              else if (6 <? n)%Z then [ExperienceValidator.reduce_message n] else []))).
  { subst start. destruct (n <? 4)%Z; [reflexivity|]. destruct (6 <? n)%Z; reflexivity. }
  rewrite Hstart. clear Hstart start.
  destruct (experience_loop_shape (enumerate 1 bullets)
              (if (n <? 4)%Z then [ExperienceValidator.need_message n] else [])
              (if (n <? 4)%Z then []
               else if (6 <? n)%Z then [ExperienceValidator.reduce_message n] else []))
    as (E & W & Heq & HE & HW).
  rewrite Heq.
  cbn [ExperienceValidator.errors ExperienceValidator.warnings].
  set (km := count_keyword_matches _ _).
  exists E, W.
  exists ((if (Z.of_nat km <? ExperienceValidator.min_keywords)%Z
           then [ExperienceValidator.keywords_message km (len keywords)] else [])
          ++ (if negb (ExperienceValidator._check_latex_format experience_text)
              then [ExperienceValidator.format_message] else [])).
  split; [|split; [reflexivity|split; [exact HE|split; [exact HW|]]]].
  - destruct (Z.of_nat km <? _)%Z;
      destruct (negb (ExperienceValidator._check_latex_format experience_text));
      rewrite ?app_nil_r, <- ?app_assoc; reflexivity.
  - apply Forall_app. split.
    + destruct (Z.of_nat km <? _)%Z; [|constructor].
      apply Forall_cons; [|constructor]. left. eexists. reflexivity.
    + destruct (negb _); [|constructor].
      apply Forall_cons; [|constructor]. right. eexists. reflexivity.
Qed.

Lemma head_char_differs (c d : ascii) (rest : str) (l : list str) :
  c <> d -> Forall (starts_with_char c) l -> ~ In (d :: rest) l.
Proof.
  intros Hcd Hall Hin. rewrite Forall_forall in Hall.
  destruct (Hall _ Hin) as [t Ht]. injection Ht as Hd _. congruence.
Qed.

(** C9. The experience validator records the error "Need at least 4
    bullets" exactly when fewer than 4 bullets are parsed, and the warning
    "Consider reducing to 6 bullets" exactly when more than 6 are; the
    latter is never put among the errors. *)
Theorem experience_bullet_count_rule :
  forall experience_text keywords,
    let r := ExperienceValidator.validate experience_text keywords in
    let n := len (ExperienceValidator._parse_bullets experience_text) in
    ((exists k, In (ExperienceValidator.need_message k) (ExperienceValidator.errors r))
       <-> (n < 4)%Z)
    /\ ((n < 4)%Z ->
        In (ExperienceValidator.need_message n) (ExperienceValidator.errors r))
    /\ ((exists k, In (ExperienceValidator.reduce_message k) (ExperienceValidator.warnings r))
       <-> (6 < n)%Z)
    /\ ((6 < n)%Z ->
        In (ExperienceValidator.reduce_message n) (ExperienceValidator.warnings r))
    /\ (forall k, ~ In (ExperienceValidator.reduce_message k) (ExperienceValidator.errors r))
    /\ (forall k, ~ In (ExperienceValidator.need_message k) (ExperienceValidator.warnings r)).
Proof.
  intros experience_text keywords r n.
  destruct (experience_validate_lists experience_text keywords)
    as (E & W & T & He & Hw & HE & HW & HT).
  fold r in He, Hw. fold n in He, Hw.
  assert (HnE : forall k, ~ In (ExperienceValidator.need_message k) (E ++ T)).
  { intros k Hin. apply in_app_or in Hin. destruct Hin as [Hin|Hin].
    - revert Hin. apply head_char_differs with (c := "B"%char); [discriminate|exact HE].
    - rewrite Forall_forall in HT. destruct (HT _ Hin) as [[t Ht]|[t Ht]];
        discriminate Ht. }
  assert (HrE : forall k, ~ In (ExperienceValidator.reduce_message k) (E ++ T)).
  { intros k Hin. apply in_app_or in Hin. destruct Hin as [Hin|Hin].
    - revert Hin. apply head_char_differs with (c := "B"%char); [discriminate|exact HE].
    - rewrite Forall_forall in HT. destruct (HT _ Hin) as [[t Ht]|[t Ht]];
        discriminate Ht. }
  assert (HnW : forall k, ~ In (ExperienceValidator.need_message k) W).
  { intros k. apply head_char_differs with (c := "B"%char); [discriminate|exact HW]. }
  assert (HrW : forall k, ~ In (ExperienceValidator.reduce_message k) W).
  { intros k. apply head_char_differs with (c := "B"%char); [discriminate|exact HW]. }
  rewrite He, Hw.
  destruct (Z.ltb_spec n 4) as [Hlt|Hge].
  - repeat split.
    + intros _. exact Hlt.
    + intros _. exists n. left. reflexivity.
    + intros _. left. reflexivity.
    + intros [k Hin]. simpl in Hin. exfalso. exact (HrW k Hin).
    + lia.
    + lia.
    + intros k [Hin|Hin]; [discriminate Hin|exact (HrE k Hin)].
    + intros k Hin. simpl in Hin. exact (HnW k Hin).
  - destruct (Z.ltb_spec 6 n) as [Hgt|Hle].
    + repeat split.
      * intros [k Hin]. simpl in Hin. exfalso. exact (HnE k Hin).
      * lia.
      * lia.
      * intros _. exact Hgt.
      * intros _. exists n. left. reflexivity.
      * intros _. left. reflexivity.
      * intros k Hin. simpl in Hin. exact (HrE k Hin).
      * intros k [Hin|Hin]; [discriminate Hin|exact (HnW k Hin)].
    + repeat split.
      * intros [k Hin]. simpl in Hin. exfalso. exact (HnE k Hin).
      * lia.
      * lia.
      * intros [k Hin]. simpl in Hin. exfalso. exact (HrW k Hin).
      * lia.
      * lia.
      * intros k Hin. simpl in Hin. exact (HrE k Hin).
      * intros k Hin. simpl in Hin. exact (HnW k Hin).
Qed.

(** ** Strings: prefixes, substrings and printed numbers *)

Lemma eqc_refl (c : ascii) : eqc c c = true.
Proof. apply Ascii.eqb_refl. Qed.

Lemma startswith_app (p b : str) : startswith p (p ++ b) = true.
Proof.
  induction p as [|c p IH]; simpl; [reflexivity|].
  rewrite eqc_refl. exact IH.
Qed.

Lemma startswith_split (p s : str) :
  startswith p s = true -> exists b, s = p ++ b.
Proof.
  revert s. induction p as [|c p IH]; intros s H.
  - exists s. reflexivity.
  - destruct s as [|x s]; simpl in H; [discriminate|].
    apply andb_true_iff in H. destruct H as [Hc Hp].
    apply Ascii.eqb_eq in Hc. subst x.
    destruct (IH _ Hp) as [b ->]. exists b. reflexivity.
Qed.

Lemma contains_unfold (p s : str) :
  contains p s = startswith p s
                 || match s with [] => false | _ :: s' => contains p s' end.
Proof. destruct s; reflexivity. Qed.

Lemma contains_app_mid (p a b : str) : contains p (a ++ p ++ b) = true.
Proof.
  induction a as [|x a IH].
  - simpl app. rewrite contains_unfold, startswith_app. reflexivity.
  - simpl app. rewrite contains_unfold, IH. apply orb_true_r.
Qed.

Lemma contains_split (p s : str) :
  contains p s = true -> exists a b, s = a ++ p ++ b.
Proof.
  induction s as [|x s IH]; rewrite contains_unfold; intro H;
    apply orb_true_iff in H; destruct H as [H|H]; try discriminate.
  - destruct (startswith_split _ _ H) as [b Hb]. exists [], b. exact Hb.
  - destruct (startswith_split _ _ H) as [b Hb]. exists [], b. exact Hb.
  - destruct (IH H) as (a & b & ->). exists (x :: a), b. reflexivity.
Qed.

(** A text that lacks one character of [p] does not contain [p]. *)
Lemma contains_absent_char (c : ascii) (p s : str) :
  In c p -> forallb (fun x => negb (eqc x c)) s = true -> contains p s = false.
Proof.
  intros Hc Hs. destruct (contains p s) eqn:E; [|reflexivity].
  destruct (contains_split _ _ E) as (a & b & ->).
  rewrite forallb_forall in Hs.
  assert (Hin : In c (a ++ p ++ b)) by (apply in_or_app; right; apply in_or_app; left; exact Hc).
  specialize (Hs _ Hin). rewrite eqc_refl in Hs. discriminate Hs.
Qed.

Lemma lower_app (a b : str) : lower (a ++ b) = lower a ++ lower b.
Proof. apply map_app. Qed.

Lemma lower_avoids_app (c : ascii) (a b : str) :
  lower_avoids c (a ++ b) = lower_avoids c a && lower_avoids c b.
Proof. apply forallb_app. Qed.

Lemma lower_avoids_spec (c : ascii) (s : str) :
  lower_avoids c s = true -> forallb (fun x => negb (eqc x c)) (lower s) = true.
Proof.
  unfold lower_avoids, lower. intro H.
  induction s as [|x s IH]; simpl in *; [reflexivity|].
  apply andb_true_iff in H. destruct H as [H1 H2].
  rewrite H1. exact (IH H2).
Qed.

Lemma uint_digits (d : Decimal.uint) :
  forallb digit_or_minus (list_ascii_of_string (NilEmpty.string_of_uint d)) = true.
Proof. induction d; simpl; try reflexivity; exact IHd. Qed.

Lemma str_of_Z_digits (z : Z) : forallb digit_or_minus (str_of_Z z) = true.
Proof.
  unfold str_of_Z. destruct (Z.to_int z) as [d|d]; simpl.
  - apply uint_digits.
  - apply uint_digits.
Qed.

Lemma str_of_nat_digits (n : nat) : forallb digit_or_minus (str_of_nat n) = true.
Proof. apply str_of_Z_digits. Qed.

Lemma digit_or_minus_lower (x : ascii) :
  digit_or_minus x = true -> lower_char x = x.
Proof.
  destruct x as [[] [] [] [] [] [] [] []]; intro H;
    try reflexivity; discriminate H.
Qed.

(** A printed integer has no letter, so it avoids every character that is
    neither a digit nor the minus sign. *)
Lemma lower_avoids_number (c : ascii) (z : Z) :
  digit_or_minus c = false -> lower_avoids c (str_of_Z z) = true.
Proof.
  intro Hc. unfold lower_avoids. apply forallb_forall. intros x Hx.
  pose proof (str_of_Z_digits z) as Hd. rewrite forallb_forall in Hd.
  specialize (Hd _ Hx). rewrite (digit_or_minus_lower _ Hd).
  destruct (eqc x c) eqn:E; [|reflexivity].
  apply Ascii.eqb_eq in E. subst x. congruence.
Qed.

Lemma str_of_Z_inj (a b : Z) : str_of_Z a = str_of_Z b -> a = b.
Proof.
  unfold str_of_Z. intro H.
  apply (f_equal string_of_list_ascii) in H.
  rewrite !string_of_list_ascii_of_string in H.
  apply (f_equal NilEmpty.int_of_string) in H.
  rewrite !NilEmpty.isi in H. injection H as H.
  apply DecimalZ.to_int_inj. exact H.
Qed.

Lemma str_of_nat_inj (a b : nat) : str_of_nat a = str_of_nat b -> a = b.
Proof. unfold str_of_nat. intro H. apply str_of_Z_inj in H. lia. Qed.

Lemma span_number_app (a rest : str) (c : ascii) :
  forallb digit_or_minus a = true -> digit_or_minus c = false ->
  span_number (a ++ c :: rest) = (a, c :: rest).
Proof.
  intros Ha Hc. induction a as [|x a IH]; simpl.
  - rewrite Hc. reflexivity.
  - simpl in Ha. apply andb_true_iff in Ha. destruct Ha as [Hx Ha].
    rewrite Hx, (IH Ha). reflexivity.
Qed.

(** Two texts that agree after printed numbers and a same separator have
    the same number and the same remainder. *)
Lemma number_then_separator (a b x y : str) (c : ascii) :
  forallb digit_or_minus a = true -> forallb digit_or_minus b = true ->
  digit_or_minus c = false ->
  a ++ c :: x = b ++ c :: y -> a = b /\ x = y.
Proof.
  intros Ha Hb Hc H. apply (f_equal span_number) in H.
  rewrite (span_number_app a x c Ha Hc), (span_number_app b y c Hb Hc) in H.
  injection H as H1 H2. split; assumption.
Qed.

(** ** The summary validator: what [validate] appends, in order *)

Lemma semantic_loop_spec (context : SummaryValidator.SummaryValidationContext)
      (l : list (nat * str)) :
  forall errors,
    fold_left (fun errors '(i, bullet) =>
                 match SummaryValidator.check_all_constraints bullet (Some context) with
                 | Some error_msg =>
                     errors ++ [SummaryValidator.bullet_prefix i ++ error_msg]
                 | None => errors
                 end) l errors
    = errors ++ flat_map (semantic_errors_of context) l.
Proof.
  induction l as [|[i bullet] l IH]; intro errors.
  - simpl. rewrite app_nil_r. reflexivity.
  - cbn [fold_left flat_map]. rewrite IH. unfold semantic_errors_of at 2.
    cbn [fst snd].
    destruct (SummaryValidator.check_all_constraints bullet (Some context));
      simpl; rewrite <- ?app_assoc; reflexivity.
Qed.

Lemma summary_loop_spec (self : SummaryValidator.SummaryValidator)
      (l : list (nat * str)) :
  forall errors warnings,
    fold_left (SummaryValidator.bullet_step self) l (errors, warnings)
    = (errors ++ flat_map (format_errors_of self) l,
       warnings ++ flat_map impact_warnings_of l).
Proof.
  induction l as [|[i bullet] l IH]; intros errors warnings.
  - simpl. rewrite !app_nil_r. reflexivity.
  - cbn [fold_left flat_map].
    unfold SummaryValidator.bullet_step at 2. rewrite IH.
    unfold format_errors_of at 2. unfold impact_warnings_of at 2. cbn [fst snd].
    destruct ((len bullet <? SummaryValidator.char_min self)%Z
              || (SummaryValidator.char_max self <? len bullet)%Z);
      destruct ((i =? 1) && negb (SummaryValidator._check_first_bullet_format bullet));
      destruct (endswith (lit ".") (rstrip bullet));
      destruct (negb (SummaryValidator._contains_numbers bullet));
      simpl; rewrite <- ?app_assoc; reflexivity.
Qed.

(** The errors of [validate]: the semantic ones first, then the count
    error, the per-bullet format errors and the keyword error. *)
Lemma summary_validate_errors (self : SummaryValidator.SummaryValidator)
      (bullets_text : str) (keywords : list str)
      (context : option SummaryValidator.SummaryValidationContext) :
  let r := SummaryValidator.validate self bullets_text keywords context in
  let bullets := SummaryValidator._parse_bullets bullets_text in
  SummaryValidator.errors r
  = match context with
    | Some context => flat_map (semantic_errors_of context) (enumerate 1 bullets)
    | None => []
    end
    ++ ((if negb (len bullets =? SummaryValidator.bullet_count self)%Z
         then [SummaryValidator.count_message self (len bullets)] else [])
        ++ flat_map (format_errors_of self) (enumerate 1 bullets)
        ++ (if (Z.of_nat (SummaryValidator.keywords_matched r)
                <? SummaryValidator.min_keywords self)%Z
            then [SummaryValidator.keywords_message self
                    (SummaryValidator.keywords_matched r) (len keywords)]
            else [])).
Proof.
  cbv zeta. unfold SummaryValidator.validate.
  set (bullets := SummaryValidator._parse_bullets bullets_text).
  rewrite summary_loop_spec.
  cbn [SummaryValidator.errors SummaryValidator.keywords_matched].
  set (km := count_keyword_matches _ _).
  assert (Hsem : match context with
                 | Some context => SummaryValidator.semantic_loop context bullets []
                 | None => []
                 end
                 = match context with
                   | Some context => flat_map (semantic_errors_of context) (enumerate 1 bullets)
                   | None => []
                   end).
  { destruct context as [context|]; [|reflexivity].
    unfold SummaryValidator.semantic_loop. rewrite semantic_loop_spec. reflexivity. }
  rewrite Hsem.
  destruct (negb (len bullets =? SummaryValidator.bullet_count self)%Z);
    destruct (Z.of_nat km <? SummaryValidator.min_keywords self)%Z;
    rewrite ?app_nil_r, <- ?app_assoc; reflexivity.
Qed.

(** ** C4: the summary score *)

Lemma contains_lower_mid (t rest x m y : str) :
  lower m = t ++ rest -> contains t (lower (x ++ m ++ y)) = true.
Proof.
  intro Hm. rewrite !lower_app, Hm, <- app_assoc. apply contains_app_mid.
Qed.

(** Every semantic error carries one of the three terms that the score
    looks for. *)
Lemma semantic_error_is_semantic (e : str) :
  semantic_error e -> SummaryValidator.is_semantic e = true.
Proof.
  intros [i name | i verb level | i years max level];
    unfold SummaryValidator.is_semantic, SummaryValidator.semantic_terms;
    cbn [existsb].
  - unfold SummaryValidator.company_message.
    rewrite (contains_lower_mid (lit "company name") (lit " '")); reflexivity.
  - unfold SummaryValidator.leadership_message.
    rewrite (contains_lower_mid (lit "leadership") (lit " verb '")) by reflexivity.
    apply orb_true_r.
  - unfold SummaryValidator.experience_message.
    rewrite (contains_lower_mid (lit "experience level") (lit " '")) by reflexivity.
    rewrite !orb_true_r. reflexivity.
Qed.

Lemma not_semantic_without_p (e : str) :
  lower_avoids "p" e = true -> SummaryValidator.is_semantic e = false.
Proof.
  intro H. apply lower_avoids_spec in H.
  unfold SummaryValidator.is_semantic, SummaryValidator.semantic_terms.
  cbn [existsb].
  rewrite !(contains_absent_char "p" _ (lower e)); try exact H; try reflexivity;
    vm_compute; tauto.
Qed.

Lemma not_semantic_without_c_h (e : str) :
  lower_avoids "c" e = true -> lower_avoids "h" e = true ->
  SummaryValidator.is_semantic e = false.
Proof.
  intros Hc Hh. apply lower_avoids_spec in Hc. apply lower_avoids_spec in Hh.
  unfold SummaryValidator.is_semantic, SummaryValidator.semantic_terms.
  cbn [existsb].
  rewrite (contains_absent_char "c" (lit "company name") (lower e)); try exact Hc;
    [|vm_compute; tauto].
  rewrite (contains_absent_char "h" (lit "leadership") (lower e)); try exact Hh;
    [|vm_compute; tauto].
  rewrite (contains_absent_char "c" (lit "experience level") (lower e)); try exact Hc;
    [|vm_compute; tauto].
  reflexivity.
Qed.

Ltac avoid_chars :=
  unfold str_of_nat;
  rewrite ?lower_avoids_app;
  rewrite ?lower_avoids_number by reflexivity;
  reflexivity.

(** No structural or lexical error carries one of the three terms. *)
Lemma format_error_not_semantic (self : SummaryValidator.SummaryValidator) (e : str) :
  format_error self e -> SummaryValidator.is_semantic e = false.
Proof.
  intros [found | i char_count | | i | matched total].
  - apply not_semantic_without_p.
    unfold SummaryValidator.count_message. avoid_chars.
  - apply not_semantic_without_p.
    unfold SummaryValidator.chars_message, SummaryValidator.bullet_prefix. avoid_chars.
  - vm_compute. reflexivity.
  - apply not_semantic_without_c_h;
      unfold SummaryValidator.period_message, SummaryValidator.bullet_prefix; avoid_chars.
  - apply not_semantic_without_p.
    unfold SummaryValidator.keywords_message. avoid_chars.
Qed.

Lemma format_error_not_semantic_error (self : SummaryValidator.SummaryValidator) (e : str) :
  format_error self e -> ~ semantic_error e.
Proof.
  intros Hf Hs. apply semantic_error_is_semantic in Hs.
  rewrite (format_error_not_semantic self e Hf) in Hs. discriminate Hs.
Qed.

Lemma first_some_inv {A B} (f : A -> option B) (xs : list A) (y : B) :
  SummaryValidator.first_some f xs = Some y -> exists x, In x xs /\ f x = Some y.
Proof.
  induction xs as [|x xs IH]; simpl; [discriminate|].
  destruct (f x) as [y'|] eqn:Hx.
  - intros [= <-]. exists x. split; [left; reflexivity|exact Hx].
  - intro H. destruct (IH H) as (x' & Hin & Hx').
    exists x'. split; [right; exact Hin|exact Hx'].
Qed.

(** What [check_all_constraints] can raise. *)
Lemma check_all_constraints_kinds (context : SummaryValidator.SummaryValidationContext)
      (content msg : str) :
  SummaryValidator.check_all_constraints content (Some context) = Some msg ->
  (exists company_name,
      In company_name (SummaryValidator.company_names context)
      /\ msg = SummaryValidator.company_message company_name
      /\ exists pattern,
          In pattern (SummaryValidator.company_patterns company_name)
          /\ matches no_flags pattern (lower content) = true)
  \/ (exists verb,
        msg = SummaryValidator.leadership_message verb
                (SummaryValidator.role_level context))
  \/ (exists years max,
        msg = SummaryValidator.experience_message years max
                (SummaryValidator.role_level context)).
Proof.
  unfold SummaryValidator.check_all_constraints.
  destruct (SummaryValidator.check_company context (lower content)) as [m1|] eqn:H1.
  - intros [= <-]. left. unfold SummaryValidator.check_company in H1.
    apply first_some_inv in H1. destruct H1 as (name & Hname & H1).
    apply first_some_inv in H1. destruct H1 as (pat & Hpat & H1).
    destruct (matches no_flags pat (lower content)) eqn:Hm; [|discriminate H1].
    injection H1 as <-.
    exists name. split; [exact Hname|]. split; [reflexivity|].
    exists pat. split; [exact Hpat|exact Hm].
  - destruct (SummaryValidator.check_leadership context (lower content)) as [m2|] eqn:H2.
    + intros [= <-]. right. left. unfold SummaryValidator.check_leadership in H2.
      destruct (negb (SummaryValidator.leadership_allowed context)); [|discriminate H2].
      apply first_some_inv in H2. destruct H2 as (v & _ & H2).
      destruct (search no_flags v (lower content)) as [mt|]; [|discriminate H2].
      injection H2 as <-. eexists. reflexivity.
    + intro H3. right. right. unfold SummaryValidator.check_experience in H3.
      destruct (SummaryValidator.max_experience_years context) as [max|]; [|discriminate H3].
      destruct (search no_flags SummaryValidator.years_pattern (lower content)) as [mt|];
        [|discriminate H3].
      destruct (max <? _)%Z; [|discriminate H3].
      injection H3 as <-. eexists. eexists. reflexivity.
Qed.

Lemma semantic_errors_are_semantic (context : SummaryValidator.SummaryValidationContext)
      (l : list (nat * str)) :
  Forall semantic_error (flat_map (semantic_errors_of context) l).
Proof.
  apply Forall_forall. intros e He. apply in_flat_map in He.
  destruct He as ([i bullet] & _ & He). unfold semantic_errors_of in He.
  cbn [fst snd] in He.
  destruct (SummaryValidator.check_all_constraints bullet (Some context)) as [msg|] eqn:Hc;
    [|destruct He].
  destruct He as [<-|[]].
  destruct (check_all_constraints_kinds context bullet msg Hc)
    as [(name & _ & -> & _) | [(verb & ->) | (years & max & ->)]]; constructor.
Qed.

Lemma format_errors_are_format (self : SummaryValidator.SummaryValidator)
      (l : list (nat * str)) :
  Forall (format_error self) (flat_map (format_errors_of self) l).
Proof.
  apply Forall_forall. intros e He. apply in_flat_map in He.
  destruct He as ([i bullet] & _ & He). unfold format_errors_of in He.
  apply in_app_or in He. destruct He as [He|He].
  - destruct (_ || _); [|destruct He]. destruct He as [<-|[]]. constructor.
  - apply in_app_or in He. destruct He as [He|He].
    + destruct (_ && _); [|destruct He]. destruct He as [<-|[]]. constructor.
    + destruct (endswith _ _); [|destruct He]. destruct He as [<-|[]]. constructor.
Qed.

Lemma filter_split_by (f : str -> bool) (yes no : list str) :
  Forall (fun e => f e = true) yes -> Forall (fun e => f e = false) no ->
  filter f (yes ++ no) = yes.
Proof.
  intros Hy Hn. rewrite filter_app.
  replace (filter f no) with (@nil str).
  - rewrite app_nil_r. induction Hy as [|e l He _ IH]; [reflexivity|].
    simpl. rewrite He, IH. reflexivity.
  - symmetry. induction Hn as [|e l He _ IH]; [reflexivity|].
    simpl. rewrite He. exact IH.
Qed.

(** C4, amended. The summary score is the clamp to [0,100] of 100 minus 20
    per semantic error, minus 15 per other error, minus 5 per warning, plus
    the keyword bonus, which is [int(matched / max(len(K), 1) * 10)]: the
    float product truncated toward zero, not rounded. *)
Theorem summary_score_formula :
  forall self bullets_text keywords context,
    let r := SummaryValidator.validate self bullets_text keywords context in
    exists semantic other,
      SummaryValidator.errors r = semantic ++ other
      /\ Forall semantic_error semantic
      /\ Forall (fun e => format_error self e /\ ~ semantic_error e) other
      /\ SummaryValidator.score r
         = clamp (100 - 20 * len semantic - 15 * len other
                  - 5 * len (SummaryValidator.warnings r)
                  + keyword_bonus 10 (Z.of_nat (SummaryValidator.keywords_matched r))
                                  (len keywords))%Z.
Proof.
  intros self bullets_text keywords context r.
  pose proof (summary_validate_errors self bullets_text keywords context) as He.
  cbv zeta in He. fold r in He.
  set (bullets := SummaryValidator._parse_bullets bullets_text) in He.
  set (semantic := match context with
                   | Some context => flat_map (semantic_errors_of context) (enumerate 1 bullets)
                   | None => []
                   end) in He.
  set (other := (if negb _ then _ else _) ++ _) in He.
  assert (Hsem : Forall semantic_error semantic).
  { subst semantic. destruct context as [context|]; [|constructor].
    apply semantic_errors_are_semantic. }
  assert (Hfmt : Forall (format_error self) other).
  { subst other. apply Forall_app. split; [|apply Forall_app; split].
    - destruct (negb _); repeat constructor.
    - apply format_errors_are_format.
    - destruct (_ <? _)%Z; repeat constructor. }
  exists semantic, other. split; [exact He|]. split; [exact Hsem|]. split.
  - apply Forall_forall. intros e Hin. rewrite Forall_forall in Hfmt.
    split; [exact (Hfmt e Hin)|].
    exact (format_error_not_semantic_error self e (Hfmt e Hin)).
  - assert (Hscore : SummaryValidator.score r
                     = SummaryValidator._calculate_score
                         (SummaryValidator.errors r) (SummaryValidator.warnings r)
                         (Z.of_nat (SummaryValidator.keywords_matched r)) (len keywords)).
    { subst r. unfold SummaryValidator.validate.
      destruct (fold_left _ _ _) as [errs warns]. reflexivity. }
    rewrite Hscore, He. unfold SummaryValidator._calculate_score.
    rewrite (filter_split_by SummaryValidator.is_semantic semantic other).
    + unfold keyword_bonus, len. rewrite length_app. f_equal. lia.
    + apply Forall_forall. intros e Hin. rewrite Forall_forall in Hsem.
      apply semantic_error_is_semantic. exact (Hsem e Hin).
    + apply Forall_forall. intros e Hin. rewrite Forall_forall in Hfmt.
      exact (format_error_not_semantic self e (Hfmt e Hin)).
Qed.

Lemma forallb_upto (f : nat -> bool) (n : nat) :
  forallb f (seq 0 (S n)) = true -> forall k, k <= n -> f k = true.
Proof.
  intros H k Hk. rewrite forallb_forall in H. apply H. apply in_seq. lia.
Qed.

Lemma bonus_table_ok_spec (weight : Z) (bound : nat) :
  bonus_table_ok weight bound = true ->
  forall k n, k <= n -> n <= bound ->
    keyword_bonus weight (Z.of_nat k) (Z.of_nat n)
    = (weight * Z.of_nat k / Z.max (Z.of_nat n) 1)%Z.
Proof.
  unfold bonus_table_ok. intros Htable k n Hk Hn.
  pose proof (forallb_upto _ _ Htable n Hn) as H1. cbv beta in H1.
  pose proof (forallb_upto _ _ H1 k Hk) as H2. cbv beta in H2.
  apply Z.eqb_eq in H2. exact H2.
Qed.

Lemma bonus_table_10 : bonus_table_ok 10 100 = true.
Proof. vm_compute. reflexivity. Qed.

(** On lists of up to 100 keywords the bonus is the floor of ten times the
    match ratio. *)
Lemma keyword_bonus_is_floor (k n : nat) :
  k <= n -> n <= 100 ->
  keyword_bonus 10 (Z.of_nat k) (Z.of_nat n)
  = (10 * Z.of_nat k / Z.max (Z.of_nat n) 1)%Z.
Proof. exact (bonus_table_ok_spec 10 100 bonus_table_10 k n). Qed.

Lemma count_keyword_matches_le (text : str) (keywords : list str) :
  count_keyword_matches text keywords <= length keywords.
Proof.
  unfold count_keyword_matches.
  assert (H : forall acc,
             fold_left (fun matches keyword =>
                          if contains (lower keyword) (lower text)
                          then matches + 1 else matches) keywords acc
             <= acc + length keywords).
  { induction keywords as [|kw kws IH]; intro acc; simpl; [lia|].
    destruct (contains (lower kw) (lower text)).
    - specialize (IH (acc + 1)). lia.
    - specialize (IH acc). lia. }
  specialize (H 0). lia.
Qed.

(** ** The matcher on the patterns of the company-name check *)

Lemma last_char_snoc (a : str) (c : ascii) : last_char (a ++ [c]) = Some c.
Proof. unfold last_char. rewrite rev_app_distr. reflexivity. Qed.

Lemma last_char_app (a b : str) : b <> [] -> last_char (a ++ b) = last_char b.
Proof.
  intro Hb. unfold last_char. rewrite rev_app_distr.
  destruct (rev b) as [|x r] eqn:Hr; [|reflexivity].
  exfalso. apply Hb. rewrite <- (rev_involutive b), Hr. reflexivity.
Qed.

Lemma hd_error_app (a b : str) : a <> [] -> hd_error (a ++ b) = hd_error a.
Proof. destruct a; [congruence|reflexivity]. Qed.

Lemma advance_at_split (a b : str) (c : ascii) :
  advance (at_split a (c :: b)) c b = at_split (a ++ [c]) b.
Proof.
  unfold advance, at_split. cbn [m_pos m_caps].
  rewrite last_char_snoc, length_app. cbn [length].
  rewrite Nat.add_1_r. reflexivity.
Qed.

Lemma m_chr (p : ascii) (a b : str) (k : mstate -> option mstate) :
  m no_flags (Chr p) (at_split a b) k
  = match b with
    | c :: b' => if eqc p c then k (at_split (a ++ [c]) b') else None
    | [] => None
    end.
Proof.
  destruct b as [|c b']; [reflexivity|].
  cbn [m m_rest at_split]. unfold chr_match. cbn [ignorecase no_flags].
  destruct (eqc p c); [|reflexivity].
  change (MState (length a) (last_char a) (c :: b') []) with (at_split a (c :: b')).
  rewrite advance_at_split. reflexivity.
Qed.

(** A literal text matches exactly when the rest of the subject starts
    with it. *)
Lemma m_lits (p : str) :
  forall (a b : str) (k : mstate -> option mstate),
    m no_flags (lits p) (at_split a b) k
    = if startswith p b then k (at_split (a ++ p) (skipn (length p) b)) else None.
Proof.
  induction p as [|c p IH]; intros a b k.
  - cbn. rewrite app_nil_r. reflexivity.
  - change (m no_flags (lits (c :: p)) (at_split a b) k)
      with (m no_flags (Chr c) (at_split a b) (fun st1 => m no_flags (lits p) st1 k)).
    rewrite m_chr.
    destruct b as [|x b']; [reflexivity|].
    cbn [startswith length skipn].
    destruct (eqc c x) eqn:E; [|reflexivity].
    apply Ascii.eqb_eq in E. subst x.
    rewrite IH. cbn [andb]. rewrite <- app_assoc. reflexivity.
Qed.

Lemma m_space (a b : str) (k : mstate -> option mstate) :
  m no_flags space (at_split a b) k
  = match b with
    | c :: b' => if isspace c then k (at_split (a ++ [c]) b') else None
    | [] => None
    end.
Proof.
  destruct b as [|c b']; [reflexivity|].
  unfold space. cbn [m m_rest at_split]. unfold cls_mem. cbn [ignorecase no_flags].
  unfold items_mem. cbn [existsb item_mem xorb]. rewrite orb_false_r.
  destruct (isspace c); [|reflexivity].
  change (MState (length a) (last_char a) (c :: b') []) with (at_split a (c :: b')).
  rewrite advance_at_split. reflexivity.
Qed.

(** A successful run of whitespace repetitions has read whitespace only. *)
Lemma star_space_sound (k : mstate -> option mstate) (n : nat) :
  forall (a b : str) (x : mstate),
    star_loop (m no_flags space) Greedy k n (at_split a b) = Some x ->
    exists ws b', b = ws ++ b' /\ forallb isspace ws = true
                  /\ k (at_split (a ++ ws) b') = Some x.
Proof.
  induction n as [|n IH]; intros a b x H.
  - cbn in H. exists [], b. rewrite (app_nil_r a). repeat split. exact H.
  - cbn [star_loop] in H. rewrite m_space in H.
    destruct b as [|c b'].
    + cbn in H. exists [], []. rewrite (app_nil_r a). repeat split. exact H.
    + destruct (isspace c) eqn:Hc.
      * destruct (if m_pos (at_split (a ++ [c]) b') =? m_pos (at_split a (c :: b'))
                  then None
                  else star_loop (m no_flags space) Greedy k n (at_split (a ++ [c]) b'))
          as [y|] eqn:Hloop.
        -- cbn [orelse] in H. injection H as <-.
           destruct (m_pos (at_split (a ++ [c]) b') =? m_pos (at_split a (c :: b')));
             [discriminate Hloop|].
           destruct (IH _ _ _ Hloop) as (ws & b2 & -> & Hws & Hk).
           exists (c :: ws), b2. split; [reflexivity|]. split.
           ++ cbn. rewrite Hc. exact Hws.
           ++ rewrite <- app_assoc in Hk. exact Hk.
        -- cbn [orelse] in H. exists [], (c :: b'). rewrite (app_nil_r a).
           repeat split. exact H.
      * cbn [orelse] in H. exists [], (c :: b'). rewrite (app_nil_r a).
        repeat split. exact H.
Qed.

(** [\s+] reads a non-empty run of whitespace. *)
Lemma plus_space_sound (a b : str) (k : mstate -> option mstate) (x : mstate) :
  m no_flags (Plus Greedy space) (at_split a b) k = Some x ->
  exists c ws b', b = c :: ws ++ b' /\ isspace c = true
                  /\ forallb isspace ws = true
                  /\ k (at_split (a ++ c :: ws) b') = Some x.
Proof.
  change (m no_flags (Plus Greedy space) (at_split a b) k)
    with (m no_flags space (at_split a b)
            (fun st1 => star_loop (m no_flags space) Greedy k
                                  (S (length (m_rest st1))) st1)).
  rewrite m_space.
  destruct b as [|c b1]; [discriminate|].
  destruct (isspace c) eqn:Hc; [|discriminate].
  intro H. cbn [m_rest at_split] in H.
  change (MState (length (a ++ [c])) (last_char (a ++ [c])) b1 [])
    with (at_split (a ++ [c]) b1) in H.
  destruct (star_space_sound _ _ _ _ _ H) as (ws & b2 & -> & Hws & Hk).
  exists c, ws, b2. split; [reflexivity|]. split; [exact Hc|]. split; [exact Hws|].
  rewrite <- app_assoc in Hk. exact Hk.
Qed.

(** [re.search] succeeds exactly when the pattern matches at some cut of
    the subject. *)
Lemma search_at_complete (fl : flags) (r : regex) (b : str) :
  forall a a' b',
    b = a' ++ b' ->
    m fl r (at_split (a ++ a') b') (fun st => Some st) <> None ->
    search_at fl r false (length a) (last_char a) b <> None.
Proof.
  induction b as [|c b IH]; intros a a' b' Hb Hm.
  - destruct a'; [|discriminate Hb]. destruct b'; [|discriminate Hb].
    rewrite app_nil_r in Hm. cbn [search_at].
    change (MState (length a) (last_char a) [] []) with (at_split a []).
    change (accept false (length a)) with (fun st : mstate => Some st).
    destruct (m fl r (at_split a []) (fun st => Some st)); [discriminate|congruence].
  - cbn [search_at].
    change (MState (length a) (last_char a) (c :: b) []) with (at_split a (c :: b)).
    change (accept false (length a)) with (fun st : mstate => Some st).
    destruct (m fl r (at_split a (c :: b)) (fun st => Some st)) eqn:E; [discriminate|].
    destruct a' as [|x a'].
    + cbn in Hb. subst b'. rewrite app_nil_r in Hm. congruence.
    + cbn in Hb. injection Hb as <- ->.
      replace (S (length a)) with (length (a ++ [c]))
        by (rewrite length_app; cbn; lia).
      rewrite <- (last_char_snoc a c).
      apply (IH (a ++ [c]) a' b' eq_refl).
      rewrite <- app_assoc. exact Hm.
Qed.

Lemma search_at_sound (fl : flags) (r : regex) (b : str) :
  forall a mt,
    search_at fl r false (length a) (last_char a) b = Some mt ->
    exists a' b',
      b = a' ++ b'
      /\ m fl r (at_split (a ++ a') b') (fun st => Some st) <> None.
Proof.
  induction b as [|c b IH]; intros a mt H; cbn [search_at] in H.
  - change (MState (length a) (last_char a) [] []) with (at_split a []) in H.
    change (accept false (length a)) with (fun st : mstate => Some st) in H.
    destruct (m fl r (at_split a []) (fun st => Some st)) eqn:E; [|discriminate H].
    exists [], []. split; [reflexivity|]. rewrite app_nil_r. congruence.
  - change (MState (length a) (last_char a) (c :: b) []) with (at_split a (c :: b)) in H.
    change (accept false (length a)) with (fun st : mstate => Some st) in H.
    destruct (m fl r (at_split a (c :: b)) (fun st => Some st)) eqn:E.
    + exists [], (c :: b). split; [reflexivity|]. rewrite app_nil_r. congruence.
    + replace (S (length a)) with (length (a ++ [c])) in H
        by (rewrite length_app; cbn; lia).
      rewrite <- (last_char_snoc a c) in H.
      destruct (IH _ _ H) as (a' & b' & -> & Hm).
      exists (c :: a'), b'. split; [reflexivity|].
      rewrite <- app_assoc in Hm. exact Hm.
Qed.

Lemma matches_iff (fl : flags) (r : regex) (s : str) :
  matches fl r s = true
  <-> exists a b, s = a ++ b /\ m fl r (at_split a b) (fun st => Some st) <> None.
Proof.
  unfold matches, search. split.
  - destruct (search_at fl r false 0 None s) as [mt|] eqn:E; [|discriminate].
    intros _. exact (search_at_sound fl r s [] mt E).
  - intros (a & b & Hs & Hm).
    pose proof (search_at_complete fl r s [] a b Hs Hm) as H.
    cbn [length last_char rev hd_error] in H.
    destruct (search_at fl r false 0 None s); [reflexivity|congruence].
Qed.

Lemma skipn_length_app (a b : str) : skipn (length a) (a ++ b) = b.
Proof. induction a as [|x a IH]; [reflexivity|exact IH]. Qed.

Lemma startswith_skipn (p s : str) :
  startswith p s = true -> s = p ++ skipn (length p) s.
Proof.
  intro H. destruct (startswith_split p s H) as [b ->].
  rewrite skipn_length_app. reflexivity.
Qed.

(** [\bNAME\b] at a cut of the subject. *)
Lemma m_word_pattern (n a b : str) (k : mstate -> option mstate) :
  m no_flags (cats [WordB; lits n; WordB]) (at_split a b) k
  = if boundary_between a b && startswith n b
       && boundary_between (a ++ n) (skipn (length n) b)
    then k (at_split (a ++ n) (skipn (length n) b)) else None.
Proof.
  unfold cats. cbn [fold_right m].
  change (at_boundary (at_split a b)) with (boundary_between a b).
  destruct (boundary_between a b); [|reflexivity].
  rewrite m_lits. destruct (startswith n b); [|reflexivity].
  change (at_boundary (at_split (a ++ n) (skipn (length n) b)))
    with (boundary_between (a ++ n) (skipn (length n) b)).
  reflexivity.
Qed.

(** A name that occurs as a whole word is found by the first pattern. *)
Lemma whole_word_is_matched (n text : str) :
  occurs_as_whole_word n text ->
  matches no_flags (cats [WordB; lits n; WordB]) text = true.
Proof.
  intros (pre & post & -> & Hl & Hr). apply matches_iff.
  exists pre, (n ++ post). split; [reflexivity|].
  rewrite m_word_pattern, Hl, startswith_app, skipn_length_app, Hr.
  discriminate.
Qed.

(** [PREFIX\s+NAME\b] at a cut of the subject. *)
Lemma prefixed_pattern_sound (w n a b : str) :
  m no_flags (cats [lits w; Plus Greedy space; lits n; WordB]) (at_split a b)
    (fun st => Some st) <> None ->
  exists c ws post,
    b = w ++ (c :: ws) ++ n ++ post
    /\ isspace c = true /\ forallb isspace ws = true
    /\ boundary_between ((a ++ w ++ c :: ws) ++ n) post = true.
Proof.
  unfold cats. cbn [fold_right m]. rewrite m_lits.
  destruct (startswith w b) eqn:Hw; [|congruence].
  apply startswith_skipn in Hw. set (b1 := skipn (length w) b) in *.
  destruct (m no_flags (Plus Greedy space) (at_split (a ++ w) b1) _) as [x|] eqn:H;
    [|congruence].
  intros _. apply plus_space_sound in H.
  destruct H as (c & ws & b2 & Hb1 & Hc & Hws & H).
  rewrite m_lits in H.
  destruct (startswith n b2) eqn:Hn; [|discriminate H].
  apply startswith_skipn in Hn. set (post := skipn (length n) b2) in *.
  change (at_boundary (at_split (((a ++ w) ++ c :: ws) ++ n) post))
    with (boundary_between (((a ++ w) ++ c :: ws) ++ n) post) in H.
  destruct (boundary_between (((a ++ w) ++ c :: ws) ++ n) post) eqn:Hb; [|discriminate H].
  exists c, ws, post. split; [|split; [exact Hc|split; [exact Hws|]]].
  - rewrite Hw, Hb1, Hn. cbn [app]. reflexivity.
  - rewrite <- (app_assoc a w) in Hb. exact Hb.
Qed.

Lemma isspace_not_word (c : ascii) : isspace c = true -> is_word c = false.
Proof.
  destruct c as [[] [] [] [] [] [] [] []]; intro H;
    try reflexivity; discriminate H.
Qed.

(** Whichever of the three patterns of a company name is found, the
    lowered name stands in the text with a word boundary after it, and
    with a word boundary or a whitespace character before it. *)
Lemma company_pattern_sound (company_name text : str) (pattern : regex) :
  In pattern (SummaryValidator.company_patterns company_name) ->
  matches no_flags pattern text = true ->
  exists pre post,
    text = pre ++ lower company_name ++ post
    /\ boundary_between (pre ++ lower company_name) post = true
    /\ (boundary_between pre (lower company_name ++ post) = true
        \/ opt_word (last_char pre) = false).
Proof.
  intros Hin Hm. apply matches_iff in Hm. destruct Hm as (a & b & -> & Hm).
  set (n := lower company_name) in *.
  unfold SummaryValidator.company_patterns in Hin. fold n in Hin.
  destruct Hin as [<-|[<-|[<-|[]]]].
  - rewrite m_word_pattern in Hm.
    destruct (boundary_between a b) eqn:Hl; [|cbn in Hm; congruence].
    destruct (startswith n b) eqn:Hn; [|cbn in Hm; congruence].
    destruct (boundary_between (a ++ n) (skipn (length n) b)) eqn:Hr;
      [|cbn in Hm; congruence].
    apply startswith_skipn in Hn.
    exists a, (skipn (length n) b). split; [rewrite <- Hn; reflexivity|].
    split; [exact Hr|]. left. rewrite <- Hn. exact Hl.
  - apply prefixed_pattern_sound in Hm.
    destruct Hm as (c & ws & post & -> & Hc & Hws & Hb).
    exists (a ++ lit "for" ++ c :: ws), post. split; [|split; [exact Hb|right]].
    + rewrite <- !app_assoc. reflexivity.
    + rewrite app_assoc. rewrite last_char_app by discriminate.
      clear Hb. revert c Hc. induction ws as [|y ws IH]; intros c Hc.
      * cbn. rewrite (isspace_not_word c Hc). reflexivity.
      * cbn in Hws. apply andb_true_iff in Hws. destruct Hws as [Hy Hws].
        change (c :: y :: ws) with ([c] ++ y :: ws).
        rewrite last_char_app by discriminate. exact (IH Hws y Hy).
  - apply prefixed_pattern_sound in Hm.
    destruct Hm as (c & ws & post & -> & Hc & Hws & Hb).
    exists (a ++ lit "at" ++ c :: ws), post. split; [|split; [exact Hb|right]].
    + rewrite <- !app_assoc. reflexivity.
    + rewrite app_assoc. rewrite last_char_app by discriminate.
      clear Hb. revert c Hc. induction ws as [|y ws IH]; intros c Hc.
      * cbn. rewrite (isspace_not_word c Hc). reflexivity.
      * cbn in Hws. apply andb_true_iff in Hws. destruct Hws as [Hy Hws].
        change (c :: y :: ws) with ([c] ++ y :: ws).
        rewrite last_char_app by discriminate. exact (IH Hws y Hy).
Qed.

(** A name that only occurs inside larger words is found by none of its
    three patterns. *)
Lemma inside_larger_words_not_matched (company_name text : str) (pattern : regex) :
  only_inside_larger_words (lower company_name) text ->
  In pattern (SummaryValidator.company_patterns company_name) ->
  matches no_flags pattern text = false.
Proof.
  intros Hinside Hin.
  destruct (matches no_flags pattern text) eqn:Hm; [|reflexivity].
  exfalso.
  destruct (company_pattern_sound company_name text pattern Hin Hm)
    as (pre & post & Htext & Hr & Hl).
  specialize (Hinside pre post Htext). set (n := lower company_name) in *.
  unfold inside_larger_word in Hinside. apply orb_true_iff in Hinside.
  unfold boundary_between in Hr, Hl.
  destruct Hinside as [H|H]; apply andb_true_iff in H; destruct H as [H1 H2].
  - assert (Hn : n <> []) by (intro E; rewrite E in H2; discriminate H2).
    rewrite (hd_error_app n post Hn), H1, H2 in Hl.
    destruct Hl as [Hl|Hl]; discriminate Hl.
  - assert (Hn : n <> []) by (intro E; rewrite E in H1; discriminate H1).
    rewrite (last_char_app pre n Hn), H1, H2 in Hr. discriminate Hr.
Qed.

(** ** C5: the company-name check *)

Lemma enumerate_nth {A} (l : list A) :
  forall start i x, nth_error l i = Some x -> In (start + i, x) (enumerate start l).
Proof.
  induction l as [|y l IH]; intros start i x H.
  - destruct i; discriminate H.
  - destruct i as [|i]; cbn in H.
    + injection H as <-. left. rewrite Nat.add_0_r. reflexivity.
    + right. rewrite <- Nat.add_succ_comm. exact (IH (S start) i x H).
Qed.

Lemma enumerate_In {A} (l : list A) :
  forall start j x,
    In (j, x) (enumerate start l) ->
    exists i, j = start + i /\ nth_error l i = Some x.
Proof.
  induction l as [|y l IH]; intros start j x H; [destruct H|].
  destruct H as [H|H].
  - injection H as <- <-. exists 0. rewrite Nat.add_0_r. split; reflexivity.
  - destruct (IH _ _ _ H) as (i & -> & Hi).
    exists (S i). rewrite <- Nat.add_succ_comm. split; [reflexivity|exact Hi].
Qed.

(** The prefix [Bullet i: ] determines [i] and what follows it. *)
Lemma bullet_prefix_inj (i j : nat) (x y : str) :
  SummaryValidator.bullet_prefix i ++ x = SummaryValidator.bullet_prefix j ++ y ->
  i = j /\ x = y.
Proof.
  unfold SummaryValidator.bullet_prefix. rewrite <- !app_assoc.
  intro H. apply app_inv_head in H. cbn [lit list_ascii_of_string app] in H.
  apply number_then_separator in H;
    [|apply str_of_nat_digits|apply str_of_nat_digits|reflexivity].
  destruct H as [Hn Hx]. split; [exact (str_of_nat_inj i j Hn)|].
  injection Hx as Hx. exact Hx.
Qed.

Lemma company_message_inj (a b : str) :
  SummaryValidator.company_message a = SummaryValidator.company_message b -> a = b.
Proof.
  unfold SummaryValidator.company_message. intro H.
  apply app_inv_head in H. apply app_inv_tail in H. exact H.
Qed.

Lemma first_some_found {A B} (f : A -> option B) (xs : list A) (x : A) :
  In x xs -> f x <> None -> SummaryValidator.first_some f xs <> None.
Proof.
  induction xs as [|y xs IH]; intros Hin Hx; [destruct Hin|].
  cbn. destruct (f y) eqn:Hy; [discriminate|].
  destruct Hin as [->|Hin]; [congruence|]. exact (IH Hin Hx).
Qed.

(** When a pattern of some configured name is found, the check raises the
    company-name error of a configured name. *)
Lemma check_company_raises (context : SummaryValidator.SummaryValidationContext)
      (content_lower company_name : str) (pattern : regex) :
  In company_name (SummaryValidator.company_names context) ->
  In pattern (SummaryValidator.company_patterns company_name) ->
  matches no_flags pattern content_lower = true ->
  exists named,
    In named (SummaryValidator.company_names context)
    /\ SummaryValidator.check_company context content_lower
       = Some (SummaryValidator.company_message named).
Proof.
  intros Hname Hpat Hm. unfold SummaryValidator.check_company.
  set (inner := fun name : str =>
         SummaryValidator.first_some
           (fun pat : regex =>
              if matches no_flags pat content_lower
              then Some (SummaryValidator.company_message name) else None)
           (SummaryValidator.company_patterns name)).
  assert (Hfound : SummaryValidator.first_some inner
                     (SummaryValidator.company_names context) <> None).
  { apply (first_some_found inner _ company_name Hname).
    subst inner. cbv beta.
    apply (first_some_found _ _ pattern Hpat). rewrite Hm. discriminate. }
  destruct (SummaryValidator.first_some inner (SummaryValidator.company_names context))
    as [msg|] eqn:E; [|congruence].
  apply first_some_inv in E. destruct E as (named & Hnamed & E).
  subst inner. cbv beta in E.
  apply first_some_inv in E. destruct E as (pat & _ & E).
  destruct (matches no_flags pat content_lower); [|discriminate E].
  injection E as <-. exists named. split; [exact Hnamed|reflexivity].
Qed.

Lemma every_occurrence_inside_unfold (name seen rest : str) :
  every_occurrence_inside name seen rest
  = (if startswith name rest
     then inside_larger_word name (rev seen) (skipn (length name) rest)
     else true)
    && match rest with
       | [] => true
       | c :: rest' => every_occurrence_inside name (c :: seen) rest'
       end.
Proof. destruct rest; reflexivity. Qed.

Lemma every_occurrence_inside_sound (name : str) :
  forall a seen rest post,
    every_occurrence_inside name seen rest = true ->
    rest = a ++ name ++ post ->
    inside_larger_word name (rev seen ++ a) post = true.
Proof.
  induction a as [|x a IH]; intros seen rest post H Hrest;
    rewrite every_occurrence_inside_unfold in H;
    apply andb_true_iff in H; destruct H as [H1 H2].
  - cbn in Hrest. subst rest. rewrite app_nil_r.
    rewrite startswith_app, skipn_length_app in H1. exact H1.
  - cbn in Hrest. subst rest.
    specialize (IH (x :: seen) _ post H2 eq_refl).
    cbn [rev] in IH. rewrite <- app_assoc in IH. exact IH.
Qed.

Lemma every_occurrence_inside_spec (name text : str) :
  every_occurrence_inside name [] text = true ->
  only_inside_larger_words name text.
Proof.
  intros H pre post Htext.
  exact (every_occurrence_inside_sound name pre [] text post H Htext).
Qed.

(** For a name that begins and ends with word characters, occurring as a
    whole word is being delimited, on each side, by a character that is
    not a word character or by an end of the text. *)
Lemma whole_word_delimited (name text : str) :
  opt_word (hd_error name) = true -> opt_word (last_char name) = true ->
  (occurs_as_whole_word name text
   <-> exists pre post,
         text = pre ++ name ++ post
         /\ opt_word (last_char pre) = false
         /\ opt_word (hd_error post) = false).
Proof.
  intros Hh Hl.
  assert (Hn : name <> []) by (intro E; rewrite E in Hh; discriminate Hh).
  unfold occurs_as_whole_word, boundary_between.
  split; intros (pre & post & Htext & H1 & H2); exists pre, post;
    (split; [exact Htext|]);
    rewrite (hd_error_app name post Hn), (last_char_app pre name Hn), Hh, Hl in *.
  - split.
    + destruct (opt_word (last_char pre)); [discriminate H1|reflexivity].
    + destruct (opt_word (hd_error post)); [discriminate H2|reflexivity].
  - rewrite H1, H2. split; reflexivity.
Qed.

(** The company-name rule in terms of word boundaries: with a context
    supplied, a bullet in which a configured company name occurs between
    two word boundaries (case-insensitively) gets a company-name error; a
    name that occurs in the bullet only inside larger words gets no
    company-name error for that bullet.  For a name that begins and ends
    with word characters the first condition is being delimited by
    characters that are not word characters ([whole_word_delimited]). *)
Theorem company_name_whole_word_rule :
  forall self bullets_text keywords context i bullet company_name,
    nth_error (SummaryValidator._parse_bullets bullets_text) i = Some bullet ->
    let r := SummaryValidator.validate self bullets_text keywords (Some context) in
    (In company_name (SummaryValidator.company_names context) ->
     occurs_as_whole_word (lower company_name) (lower bullet) ->
     exists named,
       In named (SummaryValidator.company_names context)
       /\ In (SummaryValidator.bullet_prefix (S i)
              ++ SummaryValidator.company_message named)
             (SummaryValidator.errors r))
    /\ (only_inside_larger_words (lower company_name) (lower bullet) ->
        ~ In (SummaryValidator.bullet_prefix (S i)
              ++ SummaryValidator.company_message company_name)
             (SummaryValidator.errors r)).
Proof.
  intros self bullets_text keywords context i bullet company_name Hnth r.
  pose proof (summary_validate_errors self bullets_text keywords (Some context)) as He.
  cbv zeta in He. fold r in He.
  set (bullets := SummaryValidator._parse_bullets bullets_text) in *.
  set (other := (if negb _ then _ else _) ++ _) in He.
  split.
  - intros Hname Hword.
    pose proof (whole_word_is_matched _ _ Hword) as Hm.
    destruct (check_company_raises context (lower bullet) company_name
                (cats [WordB; lits (lower company_name); WordB]) Hname
                (or_introl eq_refl) Hm) as (named & Hnamed & Hcheck).
    exists named. split; [exact Hnamed|].
    rewrite He. apply in_or_app. left. apply in_flat_map.
    exists (S i, bullet). split; [exact (enumerate_nth bullets 1 i bullet Hnth)|].
    unfold semantic_errors_of, SummaryValidator.check_all_constraints. cbn [fst snd].
    rewrite Hcheck. left. reflexivity.
  - intros Hinside Hin. rewrite He in Hin. apply in_app_or in Hin.
    destruct Hin as [Hin|Hin].
    + apply in_flat_map in Hin. destruct Hin as ([j bj] & Hj & Hin).
      unfold semantic_errors_of in Hin. cbn [fst snd] in Hin.
      destruct (SummaryValidator.check_all_constraints bj (Some context))
        as [msg|] eqn:Hc; [|destruct Hin].
      destruct Hin as [Heq|[]].
      apply bullet_prefix_inj in Heq. destruct Heq as [-> ->].
      destruct (enumerate_In bullets 1 (S i) bj Hj) as (i' & Hi' & Hnth').
      assert (i' = i) by lia. subst i'.
      assert (bj = bullet) by congruence. subst bj.
      destruct (check_all_constraints_kinds context bullet _ Hc)
        as [(named & _ & Hmsg & pat & Hpat & Hm) | [(verb & Hmsg) | (years & max & Hmsg)]].
      * apply company_message_inj in Hmsg. subst named.
        rewrite (inside_larger_words_not_matched company_name (lower bullet) pat Hinside Hpat)
          in Hm.
        discriminate Hm.
      * discriminate Hmsg.
      * discriminate Hmsg.
    + assert (Hfmt : Forall (format_error self) other).
      { subst other. apply Forall_app. split; [|apply Forall_app; split].
        - destruct (negb _); repeat constructor.
        - apply format_errors_are_format.
        - destruct (_ <? _)%Z; repeat constructor. }
      rewrite Forall_forall in Hfmt.
      apply (format_error_not_semantic_error self _ (Hfmt _ Hin)).
      constructor.
Qed.

(** R37 is reported in "Built tools for R37 teams" and is not in
    "Built R37x tools". *)
Lemma company_name_whole_word_rule_witness :
  (exists named,
      In named [lit "R37"]
      /\ In (SummaryValidator.bullet_prefix 1 ++ SummaryValidator.company_message named)
            (SummaryValidator.errors
               (SummaryValidator.validate SummaryValidator.default_settings
                  (lit "\item Built tools for R37 teams") [] (Some r37_context))))
  /\ ~ In (SummaryValidator.bullet_prefix 1 ++ SummaryValidator.company_message (lit "R37"))
          (SummaryValidator.errors
             (SummaryValidator.validate SummaryValidator.default_settings
                (lit "\item Built R37x tools") [] (Some r37_context))).
Proof.
  split.
  - apply (proj1 (company_name_whole_word_rule SummaryValidator.default_settings
                    (lit "\item Built tools for R37 teams") [] r37_context
                    0 (lit "Built tools for R37 teams") (lit "R37") eq_refl)).
    + left. reflexivity.
    + exists (lit "built tools for "), (lit " teams").
      split; [reflexivity|]. split; reflexivity.
  - apply (proj2 (company_name_whole_word_rule SummaryValidator.default_settings
                    (lit "\item Built R37x tools") [] r37_context
                    0 (lit "Built R37x tools") (lit "R37") eq_refl)).
    apply every_occurrence_inside_spec. vm_compute. reflexivity.
Defined.

(** C5. A configured company name that ends in a character that is not a
    word character is not reported where it stands as a word of its own:
    with the name Yahoo! configured, the bullet "Built tools for Yahoo!
    teams", in which the name stands between two spaces, gets no
    company-name error (nor any other semantic error), while "Built Yahoo!x
    tools", in which the name is continued by a letter, gets one. *)
Theorem company_name_with_mark_not_reported :
  let r := SummaryValidator.validate SummaryValidator.default_settings
             (lit "\item Built tools for Yahoo! teams") [] (Some yahoo_context) in
  let r' := SummaryValidator.validate SummaryValidator.default_settings
              (lit "\item Built Yahoo!x tools") [] (Some yahoo_context) in
  SummaryValidator._parse_bullets (lit "\item Built tools for Yahoo! teams")
  = [lit "Built tools for " ++ lit "Yahoo!" ++ lit " teams"]
  /\ In (lit "Yahoo!") (SummaryValidator.company_names yahoo_context)
  /\ (forall e, In e (SummaryValidator.errors r) -> ~ semantic_error e)
  /\ (forall i company_name,
         ~ In (SummaryValidator.bullet_prefix i
               ++ SummaryValidator.company_message company_name)
              (SummaryValidator.errors r))
  /\ In (SummaryValidator.bullet_prefix 1 ++ SummaryValidator.company_message (lit "Yahoo!"))
        (SummaryValidator.errors r').
Proof.
  intros r r'.
  assert (Hsem : forall e, In e (SummaryValidator.errors r) -> ~ semantic_error e).
  { intros e Hin.
    pose proof (summary_validate_errors SummaryValidator.default_settings
                  (lit "\item Built tools for Yahoo! teams") [] (Some yahoo_context)) as He.
    cbv zeta in He. fold r in He. rewrite He in Hin. apply in_app_or in Hin.
    destruct Hin as [Hin|Hin].
    - exfalso. vm_compute in Hin. exact Hin.
    - set (other := (if negb _ then _ else _) ++ _) in Hin.
      assert (Hfmt : Forall (format_error SummaryValidator.default_settings) other).
      { subst other. apply Forall_app. split; [|apply Forall_app; split].
        - destruct (negb _); repeat constructor.
        - apply format_errors_are_format.
        - destruct (_ <? _)%Z; repeat constructor. }
      rewrite Forall_forall in Hfmt.
      exact (format_error_not_semantic_error _ _ (Hfmt _ Hin)). }
  split; [vm_compute; reflexivity|]. split; [left; reflexivity|].
  split; [exact Hsem|]. split.
  - intros i company_name Hin. apply (Hsem _ Hin). constructor.
  - vm_compute. left. reflexivity.
Qed.

(** ** More on C7 and C9 *)

(** Three items give the count error, seven give the count warning. *)
Lemma experience_bullet_count_rule_witness :
  In (ExperienceValidator.need_message
        (len (ExperienceValidator._parse_bullets three_item_block)))
     (ExperienceValidator.errors (ExperienceValidator.validate three_item_block []))
  /\ In (ExperienceValidator.reduce_message
           (len (ExperienceValidator._parse_bullets seven_item_block)))
        (ExperienceValidator.warnings (ExperienceValidator.validate seven_item_block [])).
Proof.
  split.
  - apply (proj1 (proj2 (experience_bullet_count_rule three_item_block []))).
    vm_compute. reflexivity.
  - apply (proj1 (proj2 (proj2 (proj2 (experience_bullet_count_rule seven_item_block []))))).
    vm_compute. reflexivity.
Defined.

Lemma any_in_head (term : string) (terms : list string) (text : str) :
  contains (lit term) text = true -> JDAnalyzer.any_in (term :: terms) text = true.
Proof. intro H. unfold JDAnalyzer.any_in. cbn [existsb]. rewrite H. reflexivity. Qed.

(** Every description whose lowercase text contains "engineer iii" is
    resolved to Mid: it also contains "engineer ii", which is tested first. *)
Lemma engineer_iii_always_mid (list_of_set : list str -> list str) (job_description : str) :
  contains (lit "engineer iii") (lower job_description) = true ->
  JDAnalyzer.role_level (JDAnalyzer._get_default_metadata list_of_set job_description)
  = lit "Mid".
Proof.
  intro H. apply contains_split in H. destruct H as (a & b & Hjd).
  assert (Hii : contains (lit "engineer ii") (lower job_description) = true).
  { rewrite Hjd.
    change (lit "engineer iii") with (lit "engineer ii" ++ lit "i").
    rewrite <- app_assoc. apply contains_app_mid. }
  unfold JDAnalyzer._get_default_metadata.
  rewrite (any_in_head "engineer ii" _ _ Hii).
  destruct (search no_flags JDAnalyzer.experience_pattern (lower job_description));
    reflexivity.
Qed.

(** A description whose lowercase text contains "engineer ii" is resolved
    to Mid, and so is one in which none of the markers occurs. *)
Lemma engineer_ii_is_mid (list_of_set : list str -> list str) (job_description : str) :
  contains (lit "engineer ii") (lower job_description) = true ->
  JDAnalyzer.role_level (JDAnalyzer._get_default_metadata list_of_set job_description)
  = lit "Mid".
Proof.
  intro Hii. unfold JDAnalyzer._get_default_metadata.
  rewrite (any_in_head "engineer ii" _ _ Hii).
  destruct (search no_flags JDAnalyzer.experience_pattern (lower job_description));
    reflexivity.
Qed.

Lemma no_marker_is_mid (list_of_set : list str -> list str) (job_description : str) :
  JDAnalyzer.any_in
    [ "engineer ii"; "ii "; " ii,"; "level ii"; "level 2";
      "engineer iii"; "iii "; " iii,"; "level iii"; "level 3";
      "engineer i "; " i "; " i,"; "level i"; "level 1"; "junior"; "entry";
      "engineer iv"; "iv "; " iv,"; "staff"; "principal";
      "lead"; "manager"; "senior"; "sr." ]%string (lower job_description) = false ->
  JDAnalyzer.role_level (JDAnalyzer._get_default_metadata list_of_set job_description)
  = lit "Mid".
Proof.
  intro H. unfold JDAnalyzer.any_in in H. cbn [existsb] in H.
  repeat (apply orb_false_iff in H; let H1 := fresh "H" in destruct H as [H1 H]).
  unfold JDAnalyzer._get_default_metadata, JDAnalyzer.any_in. cbn [existsb].
  repeat match goal with
         | Hc : contains ?t ?s = false |- context [contains ?t ?s] => rewrite Hc
         end.
  cbn [orb].
  destruct (search no_flags JDAnalyzer.experience_pattern (lower job_description));
    reflexivity.
Qed.

(** "3-5 years" gives the range 3 to 5. *)
Lemma three_to_five_years_extracted (list_of_set : list str -> list str) :
  let md := JDAnalyzer._get_default_metadata list_of_set (lit "3-5 years of experience") in
  JDAnalyzer.experience_years_min md = Some 3%Z
  /\ JDAnalyzer.experience_years_max md = Some 5%Z.
Proof. split; vm_compute; reflexivity. Qed.

(** The two replacement functions that pass a function to [re.sub] leave a
    document without their anchor unchanged. *)
Lemma replace_without_match_is_identity (fl : flags) (r : regex)
      (f : str -> rmatch -> str) (s : str) (limit : option nat) :
  all_matches fl r s limit = [] -> sub_fun fl r f s limit = s.
Proof. intro H. unfold sub_fun. rewrite H. reflexivity. Qed.


(* ===================================================================== *)
(** * Further properties of the matcher *)
(* ===================================================================== *)

(** The matcher only looks at what its continuation answers. *)
Lemma star_loop_ext (body : mstate -> (mstate -> option mstate) -> option mstate)
      (g : greed) (k k' : mstate -> option mstate) :
  (forall st k1 k2, (forall s, k1 s = k2 s) -> body st k1 = body st k2) ->
  (forall s, k s = k' s) ->
  forall n st, star_loop body g k n st = star_loop body g k' n st.
Proof.
  intros Hbody Hk. induction n as [|n IH]; intro st; cbn [star_loop].
  - apply Hk.
  - rewrite (Hk st).
    rewrite (Hbody st
               (fun st1 => if m_pos st1 =? m_pos st then None else star_loop body g k n st1)
               (fun st1 => if m_pos st1 =? m_pos st then None else star_loop body g k' n st1)).
    + reflexivity.
    + intro s1. destruct (m_pos s1 =? m_pos st); [reflexivity|apply IH].
Qed.

Lemma m_ext (fl : flags) (r : regex) :
  forall st k k', (forall s, k s = k' s) -> m fl r st k = m fl r st k'.
Proof.
  induction r as [| c | | neg items | r1 IH1 r2 IH2 | r1 IH1 r2 IH2 | g r1 IH1
                 | g r1 IH1 | i r1 IH1 | r1 IH1 | items | | | ];
    intros st k k' Hk; cbn [m]; rewrite ?(Hk st); try reflexivity.
  - destruct (m_rest st) as [|c0 rest]; [reflexivity|]. rewrite Hk. reflexivity.
  - destruct (m_rest st) as [|c0 rest]; [reflexivity|]. rewrite Hk. reflexivity.
  - destruct (m_rest st) as [|c0 rest]; [reflexivity|]. rewrite Hk. reflexivity.
  - apply IH1. intro s. apply IH2. exact Hk.
  - rewrite (IH1 st k k' Hk), (IH2 st k k' Hk). reflexivity.
  - apply star_loop_ext; [|exact Hk]. intros st0 k1 k2 H. apply IH1. exact H.
  - rewrite (IH1 st k k' Hk). reflexivity.
  - apply IH1. intro s. apply Hk.
Qed.

Lemma reaches_refl (st : mstate) : reaches st [] st.
Proof. unfold reaches. cbn. rewrite Nat.add_0_r. repeat split. Qed.

Lemma last_char_app_or (a b : str) :
  last_char (a ++ b)
  = match last_char b with Some c => Some c | None => last_char a end.
Proof.
  destruct b as [|x b].
  - rewrite app_nil_r. reflexivity.
  - rewrite (last_char_app a (x :: b)) by discriminate.
    destruct (last_char (x :: b)) eqn:E; [reflexivity|].
    unfold last_char in E. destruct (rev (x :: b)) eqn:Hr; [|discriminate E].
    apply (f_equal (@rev ascii)) in Hr. rewrite rev_involutive in Hr. discriminate Hr.
Qed.

Lemma reaches_trans (a b c : mstate) (w1 w2 : str) :
  reaches a w1 b -> reaches b w2 c -> reaches a (w1 ++ w2) c.
Proof.
  intros (Hr1 & Hp1 & Hv1) (Hr2 & Hp2 & Hv2). unfold reaches.
  rewrite Hr1, Hr2, Hp2, Hp1, Hv2, Hv1, length_app, last_char_app_or, <- app_assoc.
  repeat split; [lia|].
  destruct (last_char w2); reflexivity.
Qed.

Lemma reaches_advance (st : mstate) (c : ascii) (rest : str) :
  m_rest st = c :: rest -> reaches st [c] (advance st c rest).
Proof.
  intro H. unfold reaches, advance. cbn. rewrite H. repeat split. lia.
Qed.

Lemma reaches_set_cap (st s1 : mstate) (w : str) (i : nat) (sp : nat * nat) :
  reaches st w s1 -> reaches st w (set_cap i sp s1).
Proof. intro H. exact H. Qed.

Lemma star_loop_factor (body : mstate -> (mstate -> option mstate) -> option mstate)
      (g : greed) (k : mstate -> option mstate) (keep : bool) (L : str -> Prop) :
  (forall st k1 x, body st k1 = Some x ->
     exists w s1, reaches st w s1
                  /\ (keep = true -> m_caps s1 = m_caps st)
                  /\ L w
                  /\ k1 s1 = Some x) ->
  forall n st x,
    star_loop body g k n st = Some x ->
    exists w s1, reaches st w s1
                 /\ (keep = true -> m_caps s1 = m_caps st)
                 /\ (exists ws, w = concat ws /\ Forall L ws)
                 /\ k s1 = Some x.
Proof.
  intros Hbody.
  assert (Hstop : forall st y, k st = Some y ->
             exists w s1, reaches st w s1
                          /\ (keep = true -> m_caps s1 = m_caps st)
                          /\ (exists ws, w = concat ws /\ Forall L ws)
                          /\ k s1 = Some y).
  { intros st y Hy. exists [], st. split; [apply reaches_refl|].
    split; [reflexivity|]. split; [|exact Hy].
    exists []. split; [reflexivity|constructor]. }
  induction n as [|n IH]; intros st x H; cbn [star_loop] in H.
  - exact (Hstop st x H).
  - assert (Hagain : forall y,
               body st (fun st1 => if m_pos st1 =? m_pos st then None
                                   else star_loop body g k n st1) = Some y ->
               exists w s1, reaches st w s1
                            /\ (keep = true -> m_caps s1 = m_caps st)
                            /\ (exists ws, w = concat ws /\ Forall L ws)
                            /\ k s1 = Some y).
    { intros y Hy. apply Hbody in Hy. destruct Hy as (w1 & s1 & Hr1 & Hc1 & HL & Hy).
      destruct (m_pos s1 =? m_pos st); [discriminate Hy|].
      apply IH in Hy. destruct Hy as (w2 & s2 & Hr2 & Hc2 & (ws & Hw & Hws) & Hy).
      exists (w1 ++ w2), s2. split; [exact (reaches_trans st s1 s2 w1 w2 Hr1 Hr2)|].
      split; [intro Hk; rewrite (Hc2 Hk); exact (Hc1 Hk)|]. split; [|exact Hy].
      exists (w1 :: ws). split; [cbn [concat]; rewrite Hw; reflexivity|].
      constructor; assumption. }
    destruct g; unfold orelse in H.
    + destruct (body st _) as [y|] eqn:E.
      * injection H as <-. exact (Hagain y eq_refl).
      * exact (Hstop st x H).
    + destruct (k st) as [y|] eqn:E.
      * injection H as <-. exact (Hstop st y E).
      * exact (Hagain x H).
Qed.

(** A successful match is a call of the continuation at a state further on
    in the subject, past a word of the pattern; a pattern without groups
    leaves the group spans alone. *)
Lemma m_factor (fl : flags) (r : regex) :
  forall st k x,
    m fl r st k = Some x ->
    exists w s1, reaches st w s1
                 /\ (no_groups r = true -> m_caps s1 = m_caps st)
                 /\ in_lang fl r w
                 /\ k s1 = Some x.
Proof.
  induction r as [| c | | neg items | r1 IH1 r2 IH2 | r1 IH1 r2 IH2 | g r1 IH1
                 | g r1 IH1 | i r1 IH1 | r1 IH1 | items | | | ];
    intros st k x H; cbn [m] in H; cbn [no_groups in_lang].
  - exists [], st. split; [apply reaches_refl|]. split; [reflexivity|].
    split; [reflexivity|exact H].
  - destruct (m_rest st) as [|c0 rest] eqn:Hrest; [discriminate H|].
    destruct (chr_match fl c c0) eqn:Hm; [|discriminate H].
    exists [c0], (advance st c0 rest).
    split; [exact (reaches_advance st c0 rest Hrest)|]. split; [reflexivity|].
    split; [exists c0; split; [reflexivity|exact Hm]|exact H].
  - destruct (m_rest st) as [|c0 rest] eqn:Hrest; [discriminate H|].
    destruct (dotall fl || negb (eqc c0 nl)) eqn:Hm; [|discriminate H].
    exists [c0], (advance st c0 rest).
    split; [exact (reaches_advance st c0 rest Hrest)|]. split; [reflexivity|].
    split; [exists c0; split; [reflexivity|exact Hm]|exact H].
  - destruct (m_rest st) as [|c0 rest] eqn:Hrest; [discriminate H|].
    destruct (xorb neg (cls_mem fl items c0)) eqn:Hm; [|discriminate H].
    exists [c0], (advance st c0 rest).
    split; [exact (reaches_advance st c0 rest Hrest)|]. split; [reflexivity|].
    split; [exists c0; split; [reflexivity|exact Hm]|exact H].
  - apply IH1 in H. destruct H as (w1 & s1 & Hr1 & Hc1 & HL1 & H).
    apply IH2 in H. destruct H as (w2 & s2 & Hr2 & Hc2 & HL2 & H).
    exists (w1 ++ w2), s2. split; [exact (reaches_trans st s1 s2 w1 w2 Hr1 Hr2)|].
    split; [|split; [exists w1, w2; repeat split; assumption|exact H]].
    intro Hg. apply andb_true_iff in Hg. destruct Hg as [Hg1 Hg2].
    rewrite (Hc2 Hg2). exact (Hc1 Hg1).
  - unfold orelse in H. destruct (m fl r1 st k) as [y|] eqn:E.
    + injection H as <-. apply IH1 in E. destruct E as (w & s1 & Hr & Hc & HL & E).
      exists w, s1. split; [exact Hr|]. split; [|split; [left; exact HL|exact E]].
      intro Hg. apply andb_true_iff in Hg. exact (Hc (proj1 Hg)).
    + apply IH2 in H. destruct H as (w & s1 & Hr & Hc & HL & H).
      exists w, s1. split; [exact Hr|]. split; [|split; [right; exact HL|exact H]].
      intro Hg. apply andb_true_iff in Hg. exact (Hc (proj2 Hg)).
  - destruct (no_groups r1) eqn:Hg.
    + apply (star_loop_factor (m fl r1) g k true (in_lang fl r1)) in H; [exact H|].
      intros st0 k1 y Hy. apply IH1 in Hy. destruct Hy as (w & s1 & Hr & Hc & HL & Hy).
      exists w, s1. split; [exact Hr|]. split; [intros _; exact (Hc eq_refl)|].
      split; assumption.
    + apply (star_loop_factor (m fl r1) g k false (in_lang fl r1)) in H.
      * destruct H as (w & s1 & Hr & _ & HL & H). exists w, s1.
        split; [exact Hr|]. split; [discriminate|]. split; assumption.
      * intros st0 k1 y Hy. apply IH1 in Hy. destruct Hy as (w & s1 & Hr & _ & HL & Hy).
        exists w, s1. split; [exact Hr|]. split; [discriminate|]. split; assumption.
  - assert (Hstop : forall y, k st = Some y ->
               exists w s1, reaches st w s1
                            /\ (no_groups r1 = true -> m_caps s1 = m_caps st)
                            /\ (w = [] \/ in_lang fl r1 w)
                            /\ k s1 = Some y).
    { intros y Hy. exists [], st. split; [apply reaches_refl|].
      split; [reflexivity|]. split; [left; reflexivity|exact Hy]. }
    assert (Hone : forall y, m fl r1 st k = Some y ->
               exists w s1, reaches st w s1
                            /\ (no_groups r1 = true -> m_caps s1 = m_caps st)
                            /\ (w = [] \/ in_lang fl r1 w)
                            /\ k s1 = Some y).
    { intros y Hy. apply IH1 in Hy. destruct Hy as (w & s1 & Hr & Hc & HL & Hy).
      exists w, s1. split; [exact Hr|]. split; [exact Hc|].
      split; [right; exact HL|exact Hy]. }
    destruct g; unfold orelse in H.
    + destruct (m fl r1 st k) as [y|] eqn:E.
      * injection H as <-. exact (Hone y eq_refl).
      * exact (Hstop x H).
    + destruct (k st) as [y|] eqn:E.
      * injection H as <-. exact (Hstop y eq_refl).
      * exact (Hone x H).
  - apply IH1 in H. destruct H as (w & s1 & Hr & _ & HL & H).
    exists w, (set_cap i (m_pos st, m_pos s1) s1).
    split; [exact Hr|]. split; [discriminate|]. split; assumption.
  - destruct (m fl r1 st (fun st1 => Some st1)); [|discriminate H].
    exists [], st. split; [apply reaches_refl|]. split; [reflexivity|].
    split; [reflexivity|exact H].
  - exists [], st. split; [apply reaches_refl|]. split; [reflexivity|].
    split; [reflexivity|].
    destruct (m_prev st) as [c|]; [|exact H].
    destruct (items_mem items c); [discriminate H|exact H].
  - destruct (at_boundary st); [|discriminate H].
    exists [], st. split; [apply reaches_refl|]. split; [reflexivity|].
    split; [reflexivity|exact H].
  - destruct (m_pos st =? 0); [|discriminate H].
    exists [], st. split; [apply reaches_refl|]. split; [reflexivity|].
    split; [reflexivity|exact H].
  - exists [], st. split; [apply reaches_refl|]. split; [reflexivity|].
    split; [reflexivity|].
    destruct (m_rest st) as [|c [|c' rest]]; try exact H; try discriminate H.
    destruct (eqc c nl); [exact H|discriminate H].
Qed.

(** ** Patterns that differ in their groups match alike *)

Lemma same_point_refl (s : mstate) : same_point s s.
Proof. repeat split. Qed.

Lemma orel_orelse (Rel : caps -> caps -> Prop) (a a' b b' : option mstate) :
  orel Rel a a' -> orel Rel b b' -> orel Rel (orelse a b) (orelse a' b').
Proof.
  intros Ha Hb. destruct a, a'; cbn in *; try exact Ha; try exact Hb; destruct Ha.
Qed.

Lemma star_loop_corr (Rel : caps -> caps -> Prop)
      (body body' : mstate -> (mstate -> option mstate) -> option mstate)
      (g : greed) (k k' : mstate -> option mstate) :
  (forall st st' k1 k1',
      same_point st st' -> Rel (m_caps st) (m_caps st') ->
      (forall s s', same_point s s' -> Rel (m_caps s) (m_caps s') ->
                    orel Rel (k1 s) (k1' s')) ->
      orel Rel (body st k1) (body' st' k1')) ->
  (forall s s', same_point s s' -> Rel (m_caps s) (m_caps s') ->
                orel Rel (k s) (k' s')) ->
  forall n st st',
    same_point st st' -> Rel (m_caps st) (m_caps st') ->
    orel Rel (star_loop body g k n st) (star_loop body' g k' n st').
Proof.
  intros Hbody Hk. induction n as [|n IH]; intros st st' Hp Hc; cbn [star_loop].
  - exact (Hk st st' Hp Hc).
  - assert (Hagain :
      orel Rel
        (body st (fun st1 => if m_pos st1 =? m_pos st then None
                             else star_loop body g k n st1))
        (body' st' (fun st1 => if m_pos st1 =? m_pos st' then None
                               else star_loop body' g k' n st1))).
    { apply Hbody; [exact Hp|exact Hc|].
      intros s s' Hsp Hsc.
      destruct Hp as (Hpos & _), Hsp as (Hspos & Hsprev & Hsrest).
      rewrite <- Hpos, <- Hspos.
      destruct (m_pos s =? m_pos st); [exact Logic.I|].
      apply IH; [repeat split; assumption|exact Hsc]. }
    destruct g; apply orel_orelse; try exact Hagain; exact (Hk st st' Hp Hc).
Qed.

(** Matching two corresponding patterns from the same point gives
    corresponding outcomes. *)
Lemma m_corr (fl : flags) (Rel : caps -> caps -> Prop) (r r' : regex) :
  corr Rel r r' ->
  forall st st' k k',
    same_point st st' -> Rel (m_caps st) (m_caps st') ->
    (forall s s', same_point s s' -> Rel (m_caps s) (m_caps s') ->
                  orel Rel (k s) (k' s')) ->
    orel Rel (m fl r st k) (m fl r' st' k').
Proof.
  induction 1 as [ | c | | neg items | r1 r1' r2 r2' _ IH1 _ IH2
                 | r1 r1' r2 r2' _ IH1 _ IH2 | g r r' _ IH | g r r' _ IH
                 | r r' _ IH | items | | | | i j r r' _ IH Hcap
                 | i r r' _ IH Hcap | j r r' _ IH Hcap ];
    intros st st' k k' Hp Hc Hk; cbn [m].
  - exact (Hk st st' Hp Hc).
  - destruct Hp as (Hpos & Hprev & Hrest). rewrite <- Hrest.
    destruct (m_rest st) as [|c0 rest]; [exact Logic.I|].
    destruct (chr_match fl c c0); [|exact Logic.I].
    apply Hk; [unfold same_point, advance; cbn; repeat split; congruence|exact Hc].
  - destruct Hp as (Hpos & Hprev & Hrest). rewrite <- Hrest.
    destruct (m_rest st) as [|c0 rest]; [exact Logic.I|].
    destruct (dotall fl || negb (eqc c0 nl)); [|exact Logic.I].
    apply Hk; [unfold same_point, advance; cbn; repeat split; congruence|exact Hc].
  - destruct Hp as (Hpos & Hprev & Hrest). rewrite <- Hrest.
    destruct (m_rest st) as [|c0 rest]; [exact Logic.I|].
    destruct (xorb neg (cls_mem fl items c0)); [|exact Logic.I].
    apply Hk; [unfold same_point, advance; cbn; repeat split; congruence|exact Hc].
  - apply IH1; [exact Hp|exact Hc|]. intros s s' Hsp Hsc.
    apply IH2; [exact Hsp|exact Hsc|exact Hk].
  - apply orel_orelse; [apply IH1|apply IH2]; assumption.
  - pose proof Hp as (_ & _ & Hrest). rewrite <- Hrest.
    apply star_loop_corr; assumption.
  - destruct g; apply orel_orelse; try (apply IH; assumption); exact (Hk st st' Hp Hc).
  - assert (Hin : orel Rel (m fl r st (fun st1 => Some st1))
                           (m fl r' st' (fun st1 => Some st1))).
    { apply IH; [exact Hp|exact Hc|]. intros s s' Hsp Hsc. split; assumption. }
    destruct (m fl r st (fun st1 => Some st1)), (m fl r' st' (fun st1 => Some st1));
      try destruct Hin; try exact Logic.I.
    exact (Hk st st' Hp Hc).
  - pose proof Hp as (Hpos & Hprev & Hrest). rewrite <- Hprev.
    destruct (m_prev st) as [c|].
    + destruct (items_mem items c); [exact Logic.I|].
      apply Hk; [exact Hp|exact Hc].
    + apply Hk; [exact Hp|exact Hc].
  - pose proof Hp as (Hpos & Hprev & Hrest). unfold at_boundary.
    rewrite <- Hprev, <- Hrest.
    destruct (xorb _ _); [|exact Logic.I].
    apply Hk; [exact Hp|exact Hc].
  - pose proof Hp as (Hpos & Hprev & Hrest). rewrite <- Hpos.
    destruct (m_pos st =? 0); [|exact Logic.I].
    apply Hk; [exact Hp|exact Hc].
  - pose proof Hp as (Hpos & Hprev & Hrest). rewrite <- Hrest.
    destruct (m_rest st) as [|c [|c' rest]]; try exact Logic.I.
    + apply Hk; [exact Hp|exact Hc].
    + destruct (eqc c nl); [|exact Logic.I].
      apply Hk; [exact Hp|exact Hc].
  - apply IH; [exact Hp|exact Hc|]. intros s s' Hsp Hsc.
    destruct Hp as (Hpos & _), Hsp as (Hspos & Hsprev & Hsrest).
    rewrite <- Hpos, <- Hspos.
    apply Hk; [repeat split; assumption|]. cbn. apply Hcap. exact Hsc.
  - apply IH; [exact Hp|exact Hc|]. intros s s' Hsp Hsc.
    apply Hk; [exact Hsp|]. cbn. apply Hcap. exact Hsc.
  - apply IH; [exact Hp|exact Hc|]. intros s s' Hsp Hsc.
    apply Hk; [exact Hsp|]. cbn. apply Hcap. exact Hsc.
Qed.

Lemma corr_no_groups (Rel : caps -> caps -> Prop) (r : regex) :
  no_groups r = true -> corr Rel r r.
Proof.
  induction r; cbn [no_groups]; intro H; try constructor;
    try (apply andb_true_iff in H; destruct H as [H1 H2]); auto; discriminate H.
Qed.

Lemma no_groups_lits (p : str) : no_groups (lits p) = true.
Proof. induction p as [|c p IH]; [reflexivity|exact IH]. Qed.

Lemma search_at_corr (fl : flags) (Rel : caps -> caps -> Prop) (r r' : regex) :
  corr Rel r r' -> Rel [] [] ->
  forall rest must_advance pos prev,
    rmatch_rel Rel (search_at fl r must_advance pos prev rest)
                   (search_at fl r' must_advance pos prev rest).
Proof.
  intros Hcorr Hnil. induction rest as [|c rest IH]; intros ma pos prev;
    cbn [search_at].
  - assert (H : orel Rel (m fl r (MState pos prev [] []) (accept ma pos))
                         (m fl r' (MState pos prev [] []) (accept ma pos))).
    { apply (m_corr fl Rel r r' Hcorr); [apply same_point_refl|exact Hnil|].
      intros s s' Hsp Hsc. unfold accept. destruct Hsp as (Hpos & Hprev & Hrest).
      rewrite <- Hpos. destruct (ma && (m_pos s =? pos)); [exact Logic.I|].
      split; [repeat split; assumption|exact Hsc]. }
    destruct (m fl r _ _) as [x|], (m fl r' _ _) as [x'|]; try destruct H;
      try exact Logic.I.
    cbn. destruct H as (Hpos & _). repeat split; assumption.
  - assert (H : orel Rel (m fl r (MState pos prev (c :: rest) []) (accept ma pos))
                         (m fl r' (MState pos prev (c :: rest) []) (accept ma pos))).
    { apply (m_corr fl Rel r r' Hcorr); [apply same_point_refl|exact Hnil|].
      intros s s' Hsp Hsc. unfold accept. destruct Hsp as (Hpos & Hprev & Hrest).
      rewrite <- Hpos. destruct (ma && (m_pos s =? pos)); [exact Logic.I|].
      split; [repeat split; assumption|exact Hsc]. }
    destruct (m fl r _ _) as [x|], (m fl r' _ _) as [x'|]; try destruct H.
    + cbn. destruct H as (Hpos & _). repeat split; assumption.
    + apply IH.
Qed.

(** What a successful [re.search] says about the subject. *)
Lemma search_at_result (fl : flags) (r : regex) (b : str) :
  forall a mt,
    search_at fl r false (length a) (last_char a) b = Some mt ->
    exists a' b' x,
      b = a' ++ b'
      /\ r_start mt = length (a ++ a')
      /\ m fl r (MState (length (a ++ a')) (last_char (a ++ a')) b' [])
                (fun st => Some st) = Some x
      /\ r_end mt = m_pos x /\ r_caps mt = m_caps x.
Proof.
  induction b as [|c b IH]; intros a mt H; cbn [search_at] in H.
  - change (accept false (length a)) with (fun st : mstate => Some st) in H.
    destruct (m fl r (MState (length a) (last_char a) [] []) (fun st => Some st))
      as [x|] eqn:E; [|discriminate H].
    injection H as <-. exists [], [], x. rewrite (app_nil_r a). cbn.
    repeat split. exact E.
  - change (accept false (length a)) with (fun st : mstate => Some st) in H.
    destruct (m fl r (MState (length a) (last_char a) (c :: b) []) (fun st => Some st))
      as [x|] eqn:E.
    + injection H as <-. exists [], (c :: b), x. rewrite (app_nil_r a). cbn.
      repeat split. exact E.
    + replace (S (length a)) with (length (a ++ [c])) in H
        by (rewrite length_app; cbn; lia).
      rewrite <- (last_char_snoc a c) in H.
      destruct (IH _ _ H) as (a' & b' & x & -> & Hs & Hm & He & Hc).
      exists (c :: a'), b', x. rewrite <- app_assoc in Hs, Hm.
      repeat split; assumption.
Qed.

Lemma search_result (fl : flags) (r : regex) (s : str) (mt : rmatch) :
  search fl r s = Some mt ->
  exists a b x,
    s = a ++ b
    /\ r_start mt = length a
    /\ m fl r (MState (length a) (last_char a) b []) (fun st => Some st) = Some x
    /\ r_end mt = m_pos x /\ r_caps mt = m_caps x.
Proof.
  intro H. exact (search_at_result fl r s [] mt H).
Qed.

(** With [count=1] the first match is the only one replaced. *)
Lemma all_matches_first (fl : flags) (r : regex) (s : str) :
  all_matches fl r s (Some 1)
  = match search fl r s with Some mt => [mt] | None => [] end.
Proof.
  unfold all_matches, search.
  replace (2 * length s + 2) with (S (S (2 * length s))) by lia.
  cbn [iter_matches firstn skipn last_char rev hd_error pred].
  destruct (search_at fl r false 0 None s); reflexivity.
Qed.

Lemma sub_fun_first (fl : flags) (r : regex) (f : str -> rmatch -> str) (s : str) :
  sub_fun fl r f s (Some 1)
  = match search fl r s with
    | Some mt => firstn (r_start mt) s ++ f s mt ++ skipn (r_end mt) s
    | None => s
    end.
Proof.
  unfold sub_fun. rewrite all_matches_first.
  destruct (search fl r s) as [mt|]; [|reflexivity].
  cbn [splice]. unfold slice. rewrite Nat.sub_0_r. reflexivity.
Qed.

Lemma firstn_length_app (a b : str) : firstn (length a) (a ++ b) = a.
Proof. induction a as [|x a IH]; [reflexivity|cbn; rewrite IH; reflexivity]. Qed.

Lemma slice_middle (a w b : str) :
  slice (length a) (length a + length w) (a ++ w ++ b) = w.
Proof.
  unfold slice. rewrite skipn_length_app.
  replace (length a + length w - length a) with (length w) by lia.
  apply firstn_length_app.
Qed.

Lemma skipn_after (a w b : str) :
  skipn (length a + length w) (a ++ w ++ b) = b.
Proof.
  rewrite app_assoc, <- length_app. apply skipn_length_app.
Qed.

Lemma m_Cat (fl : flags) (r1 r2 : regex) (st : mstate) (k : mstate -> option mstate) :
  m fl (Cat r1 r2) st k = m fl r1 st (fun s1 => m fl r2 s1 k).
Proof. reflexivity. Qed.

Lemma m_Grp (fl : flags) (i : nat) (r : regex) (st : mstate)
      (k : mstate -> option mstate) :
  m fl (Grp i r) st k
  = m fl r st (fun s1 => k (set_cap i (m_pos st, m_pos s1) s1)).
Proof. reflexivity. Qed.

(* ===================================================================== *)
(** * Further properties of utils/latex_parser.py *)
(* ===================================================================== *)

Import LatexParser.

Lemma lower_char_space (c : ascii) : isspace (lower_char c) = isspace c.
Proof.
  destruct c as [[|] [|] [|] [|] [|] [|] [|] [|]]; reflexivity.
Qed.

Lemma chr_match_space (fl : flags) (p c : ascii) :
  chr_match fl p c = true -> isspace c = isspace p.
Proof.
  unfold chr_match. destruct (ignorecase fl); intro H; apply Ascii.eqb_eq in H.
  - rewrite <- (lower_char_space c), <- (lower_char_space p), H. reflexivity.
  - rewrite H. reflexivity.
Qed.

(** The words of a literal text: the text itself, up to case when the
    flag is set. *)
Lemma in_lang_lits (fl : flags) (p : str) :
  forall w, in_lang fl (lits p) w ->
            Forall2 (fun x c => chr_match fl x c = true) p w.
Proof.
  induction p as [|x p IH]; intros w H.
  - cbn in H. subst w. constructor.
  - change (lits (x :: p)) with (Cat (Chr x) (lits p)) in H. cbn [in_lang] in H.
    destruct H as (w1 & w2 & -> & (c & -> & Hc) & H2).
    cbn. constructor; [exact Hc|exact (IH w2 H2)].
Qed.

Lemma strip_fixed (s : str) (c d : ascii) :
  hd_error s = Some c -> isspace c = false ->
  last_char s = Some d -> isspace d = false ->
  strip s = s.
Proof.
  intros Hc Hcs Hd Hds. unfold strip, rstrip.
  destruct s as [|c0 t]; [discriminate Hc|]. injection Hc as ->.
  cbn [lstrip]. rewrite Hcs. unfold last_char in Hd.
  destruct (rev (c :: t)) as [|d0 u] eqn:E; [discriminate Hd|]. injection Hd as ->.
  cbn [lstrip]. rewrite Hds, <- E. apply rev_involutive.
Qed.

Lemma edges_strip (fl : flags) (p q : ascii) (w : str) :
  edges fl p q w -> isspace p = false -> isspace q = false -> strip w = w.
Proof.
  intros (c & d & Hc & Hpc & Hd & Hqd) Hp Hq.
  apply (strip_fixed w c d Hc); [|exact Hd|].
  - rewrite (chr_match_space fl p c Hpc). exact Hp.
  - rewrite (chr_match_space fl q d Hqd). exact Hq.
Qed.

Lemma in_lang_lits_head (fl : flags) (x : ascii) (p w : str) :
  in_lang fl (lits (x :: p)) w ->
  exists c, hd_error w = Some c /\ chr_match fl x c = true.
Proof.
  intro H. apply in_lang_lits in H. inversion H as [|x0 c p0 w0 Hc Hrest]; subst.
  exists c. split; [reflexivity|exact Hc].
Qed.

Lemma in_lang_lits_last (fl : flags) (p : str) (x : ascii) (w : str) :
  in_lang fl (lits (p ++ [x])) w ->
  exists d, last_char w = Some d /\ chr_match fl x d = true.
Proof.
  intro H. apply in_lang_lits in H. revert w H.
  induction p as [|y p IH]; intros w H.
  - cbn in H. inversion H as [|x0 c p0 w0 Hc Hrest]; subst.
    inversion Hrest; subst. exists c. split; [reflexivity|exact Hc].
  - cbn in H. inversion H as [|x0 c p0 w0 Hc Hrest]; subst.
    destruct (IH w0 Hrest) as (d & Hd & Hm). exists d. split; [|exact Hm].
    change (c :: w0) with ([c] ++ w0). rewrite last_char_app_or. rewrite Hd. reflexivity.
Qed.

(** The span of a search result cuts the subject in three; the middle
    part is a word of the pattern. *)
Lemma search_span (fl : flags) (r : regex) (s : str) (mt : rmatch) :
  search fl r s = Some mt ->
  exists a w b,
    s = a ++ w ++ b
    /\ r_start mt = length a /\ r_end mt = length a + length w
    /\ in_lang fl r w
    /\ (no_groups r = true -> r_caps mt = []).
Proof.
  intro H. destruct (search_result fl r s mt H) as (a & b & x & -> & Hs & Hm & He & Hc).
  apply m_factor in Hm. destruct Hm as (w & s1 & (Hrest & Hpos & _) & Hcaps & HL & Hx).
  injection Hx as <-. cbn in Hrest, Hpos, Hcaps.
  exists a, w, (m_rest s1). rewrite <- Hrest.
  repeat split; try assumption; try congruence.
  intro Hg. rewrite Hc. exact (Hcaps Hg).
Qed.

Lemma search_grp_span (fl : flags) (i : nat) (r : regex) (s : str) (mt : rmatch) :
  search fl (Grp i r) s = Some mt ->
  no_groups r = true ->
  exists a w b,
    s = a ++ w ++ b
    /\ r_start mt = length a /\ r_end mt = length a + length w
    /\ in_lang fl r w
    /\ r_caps mt = [(i, (length a, length a + length w))].
Proof.
  intros H Hg.
  destruct (search_result fl (Grp i r) s mt H) as (a & b & x & -> & Hs & Hm & He & Hc).
  rewrite m_Grp in Hm.
  apply m_factor in Hm. destruct Hm as (w & s1 & (Hrest & Hpos & _) & Hcaps & HL & Hx).
  injection Hx as <-. cbn in Hrest, Hpos, Hcaps, He, Hc.
  exists a, w, (m_rest s1). rewrite <- Hrest.
  repeat split; try assumption; try congruence.
  rewrite Hc, (Hcaps Hg), Hpos. reflexivity.
Qed.

Lemma search_grp_corr (fl : flags) (i : nat) (r : regex) (s : str) :
  no_groups r = true ->
  rmatch_rel (fun _ _ => True) (search fl (Grp i r) s) (search fl r s).
Proof.
  intro Hg. unfold search.
  apply (search_at_corr fl (fun _ _ => True) (Grp i r) r); [|exact Logic.I].
  apply corr_grp_left; [apply corr_no_groups; exact Hg|]. intros; exact Logic.I.
Qed.

Lemma no_groups_skills (name : str) : no_groups (skills_pattern name) = true.
Proof.
  unfold skills_pattern. cbn [cats fold_right no_groups].
  rewrite !no_groups_lits. reflexivity.
Qed.

Lemma skills_word_edges (fl : flags) (name w : str) :
  in_lang fl (skills_pattern name) w -> strip w = w.
Proof.
  intro H. apply (edges_strip fl backslash "}"%char); [|reflexivity|reflexivity].
  unfold skills_pattern in H. cbn [cats fold_right] in H. cbn [in_lang] in H.
  destruct H as (w1 & r1 & -> & H1 & w2 & r2 & -> & _ & w3 & r3 & -> & _
                 & w4 & r4 & -> & _ & w5 & r5 & -> & H5 & ->).
  apply (in_lang_lits_head fl backslash) in H1. destruct H1 as (c & Hc & Hmc).
  change (lit "\end{itemize}") with (lit "\end{itemize" ++ ["}"%char]) in H5.
  apply in_lang_lits_last in H5. destruct H5 as (d & Hd & Hmd).
  exists c, d. split; [|split; [exact Hmc|split; [|exact Hmd]]].
  - destruct w1; [discriminate Hc|exact Hc].
  - rewrite app_nil_r. rewrite !last_char_app_or, Hd. reflexivity.
Qed.

(** One skills pattern: the found block and its replacement. *)
Lemma skills_frame_one (name s : str) :
  match search DOTALL_I (Grp 1 (skills_pattern name)) s with
  | None => search DOTALL_I (skills_pattern name) s = None
  | Some mt =>
      exists before after,
        s = before ++ strip (group_or_empty s mt 1) ++ after
        /\ matches DOTALL_I (skills_pattern name) s = true
        /\ forall new_skills,
             sub_fun DOTALL_I (skills_pattern name) (fun _ _ => new_skills) s (Some 1)
             = before ++ new_skills ++ after
  end.
Proof.
  pose proof (search_grp_corr DOTALL_I 1 (skills_pattern name) s (no_groups_skills name))
    as Hrel.
  destruct (search DOTALL_I (Grp 1 (skills_pattern name)) s) as [mt|] eqn:E.
  - destruct (search_grp_span DOTALL_I 1 _ s mt E (no_groups_skills name))
      as (a & w & b & Hs & Hst & Hen & HL & Hcaps).
    exists a, b.
    assert (Hg : group_or_empty s mt 1 = w).
    { unfold group_or_empty, group. rewrite Hcaps. cbn [lookup_cap Nat.eqb].
      rewrite Hs. apply slice_middle. }
    rewrite Hg, (skills_word_edges DOTALL_I name w HL).
    split; [exact Hs|]. unfold matches.
    destruct (search DOTALL_I (skills_pattern name) s) as [mt'|] eqn:E';
      [|destruct Hrel].
    split; [reflexivity|]. intro new_skills. rewrite sub_fun_first, E'.
    destruct Hrel as (Hst' & Hen' & _). rewrite <- Hst', <- Hen', Hst, Hen, Hs.
    rewrite firstn_length_app, skipn_after. reflexivity.
  - destruct (search DOTALL_I (skills_pattern name) s); [destruct Hrel|reflexivity].
Qed.

(** X1.  [replace_skills_section] rewrites exactly the block that
    [extract_skills_section] returns: the document is [before ++ block ++
    after] and every replacement gives [before ++ new_skills ++ after] (so
    putting the extracted block back gives the document again); when
    nothing is extracted the document comes back unchanged. *)
Theorem skills_replace_frame (latex_content : str) :
  match extract_skills_section latex_content with
  | None => forall new_skills,
      replace_skills_section latex_content new_skills = latex_content
  | Some block =>
      exists before after,
        latex_content = before ++ block ++ after
        /\ forall new_skills,
             replace_skills_section latex_content new_skills
             = before ++ new_skills ++ after
  end.
Proof.
  unfold extract_skills_section, replace_skills_section.
  pose proof (skills_frame_one (lit "SKILLS") latex_content) as H1.
  pose proof (skills_frame_one (lit "Technical Skills") latex_content) as H2.
  destruct (search DOTALL_I (Grp 1 (skills_pattern (lit "SKILLS"))) latex_content)
    as [mt|].
  - destruct H1 as (before & after & Hs & Hm & Hsub). rewrite Hm.
    exists before, after. split; [exact Hs|exact Hsub].
  - unfold matches. rewrite H1. cbv beta iota.
    destruct (search DOTALL_I (Grp 1 (skills_pattern (lit "Technical Skills")))
                     latex_content) as [mt|].
    + destruct H2 as (before & after & Hs & Hm & Hsub).
      exists before, after. split; [exact Hs|exact Hsub].
    + intro new_skills. rewrite sub_fun_first, H2. reflexivity.
Qed.

Lemma experience_patterns_corr :
  corr experience_rel (Cat experience_head (Grp 1 experience_entry))
       (Cat (Grp 1 experience_head) (Grp 2 experience_entry)).
Proof.
  apply corr_cat.
  - apply corr_grp_right; [apply corr_no_groups; reflexivity|].
    intros sp c c' H. exact H.
  - apply corr_grp; [apply corr_no_groups; reflexivity|].
    intros sp c c' H. reflexivity.
Qed.

Lemma experience_word_edges (fl : flags) (w : str) :
  in_lang fl experience_entry w -> strip w = w.
Proof.
  intro H. apply (edges_strip fl backslash "d"%char); [|reflexivity|reflexivity].
  unfold experience_entry in H. cbn [cats fold_right] in H. cbn [in_lang] in H.
  destruct H as (w1 & r1 & -> & H1 & w2 & r2 & -> & _ & w3 & r3 & -> & H3 & ->).
  apply (in_lang_lits_head fl backslash) in H1. destruct H1 as (c & Hc & Hmc).
  change (lit "\resumeItemListEnd") with (lit "\resumeItemListEn" ++ ["d"%char]) in H3.
  apply in_lang_lits_last in H3. destruct H3 as (d & Hd & Hmd).
  exists c, d. split; [|split; [exact Hmc|split; [|exact Hmd]]].
  - destruct w1; [discriminate Hc|exact Hc].
  - rewrite app_nil_r. rewrite !last_char_app_or, Hd. reflexivity.
Qed.

Lemma Forall2_lower (p e : str) :
  Forall2 (fun x c => chr_match DOTALL_I x c = true) p e -> lower e = lower p.
Proof.
  intro H. induction H as [|x c p e Hc _ IH]; [reflexivity|].
  cbn [lower map]. unfold chr_match in Hc. cbn [ignorecase DOTALL_I] in Hc.
  apply Ascii.eqb_eq in Hc. rewrite <- Hc. f_equal. exact IH.
Qed.

(** The match of the replacing pattern: heading part, then entry. *)
Lemma experience_replace_match (s : str) (mt : rmatch) :
  search DOTALL_I (Cat (Grp 1 experience_head) (Grp 2 experience_entry)) s = Some mt ->
  exists a w1 w2 b,
    s = a ++ w1 ++ w2 ++ b
    /\ r_start mt = length a
    /\ r_end mt = length a + length w1 + length w2
    /\ in_lang DOTALL_I experience_head w1
    /\ in_lang DOTALL_I experience_entry w2
    /\ r_caps mt = [ (2, (length a + length w1, length a + length w1 + length w2));
                     (1, (length a, length a + length w1)) ].
Proof.
  intro H.
  destruct (search_result _ _ s mt H) as (a & b & x & -> & Hs & Hm & He & Hc).
  rewrite m_Cat, m_Grp in Hm.
  apply m_factor in Hm.
  destruct Hm as (w1 & s1 & (Hrest1 & Hpos1 & _) & Hcaps1 & HL1 & Hm).
  rewrite m_Grp in Hm. apply m_factor in Hm.
  destruct Hm as (w2 & s2 & (Hrest2 & Hpos2 & _) & Hcaps2 & HL & Hx).
  injection Hx as <-. cbn in Hrest1, Hpos1, Hcaps1, Hrest2, Hpos2, Hcaps2, He, Hc.
  exists a, w1, w2, (m_rest s2). rewrite <- Hrest2, <- Hrest1.
  repeat split; try assumption; try congruence.
  rewrite Hc, (Hcaps2 eq_refl), (Hcaps1 eq_refl), Hpos2, Hpos1. reflexivity.
Qed.

(** The heading part of the experience pattern begins with the section
    heading, in whatever case of letters. *)
Lemma experience_head_heading (w : str) :
  in_lang DOTALL_I experience_head w ->
  exists rest, lower w = lit "\section{professional experience}" ++ rest.
Proof.
  unfold experience_head. cbn [cats fold_right]. cbn [in_lang].
  intros (w1 & r1 & -> & H1 & _). apply in_lang_lits in H1.
  apply Forall2_lower in H1. exists (lower r1). rewrite lower_app, H1. reflexivity.
Qed.

(** X2.  [replace_first_experience] rewrites exactly the entry that
    [extract_first_experience] returns: the document is [before ++ block ++
    after], with the section heading (in whatever case of letters) inside
    [before], and every replacement gives [before ++ new_experience ++
    after]; when nothing is extracted the document comes back unchanged. *)
Theorem experience_replace_frame (latex_content : str) :
  match extract_first_experience latex_content with
  | None => forall new_experience,
      replace_first_experience latex_content new_experience = latex_content
  | Some block =>
      exists before after,
        latex_content = before ++ block ++ after
        /\ contains (lit "\section{professional experience}") (lower before) = true
        /\ forall new_experience,
             replace_first_experience latex_content new_experience
             = before ++ new_experience ++ after
  end.
Proof.
  unfold extract_first_experience, replace_first_experience.
  pose proof (search_at_corr DOTALL_I experience_rel _ _ experience_patterns_corr
                eq_refl latex_content false 0 None) as Hrel.
  fold (search DOTALL_I (Cat experience_head (Grp 1 experience_entry)) latex_content)
    in Hrel.
  fold (search DOTALL_I (Cat (Grp 1 experience_head) (Grp 2 experience_entry))
               latex_content) in Hrel.
  destruct (search DOTALL_I (Cat experience_head (Grp 1 experience_entry)) latex_content)
    as [mt|];
    destruct (search DOTALL_I (Cat (Grp 1 experience_head) (Grp 2 experience_entry))
                     latex_content) as [mt'|] eqn:E'; try destruct Hrel.
  - destruct H0 as [_ Hcap].
    destruct (experience_replace_match latex_content mt' E')
      as (a & w1 & w2 & b & Hs & Hst & Hen & HL1 & HL & Hcaps).
    exists (a ++ w1), b.
    assert (Hg : group_or_empty latex_content mt 1 = w2).
    { unfold group_or_empty, group. unfold experience_rel in Hcap.
      rewrite Hcap, Hcaps. cbn [lookup_cap Nat.eqb]. rewrite Hs.
      rewrite <- (length_app a w1), (app_assoc a w1). apply slice_middle. }
    rewrite Hg, (experience_word_edges DOTALL_I w2 HL).
    split; [rewrite Hs, <- app_assoc; reflexivity|].
    split.
    { destruct (experience_head_heading w1 HL1) as (rest & Hw1).
      rewrite lower_app, Hw1. apply contains_app_mid. }
    intro new_experience. rewrite sub_fun_first, E'.
    assert (Hg1 : group_or_empty latex_content mt' 1 = w1).
    { unfold group_or_empty, group. rewrite Hcaps. cbn [lookup_cap Nat.eqb].
      rewrite Hs. apply slice_middle. }
    rewrite Hg1, Hst, Hen. rewrite Hs at 1 2.
    rewrite firstn_length_app.
    rewrite <- Nat.add_assoc, <- (length_app w1 w2), (app_assoc w1 w2 b), skipn_after.
    rewrite <- !app_assoc. reflexivity.
  - intro new_experience. rewrite sub_fun_first, E'. reflexivity.
Qed.

Lemma escape_template_app (u v : str) :
  escape_template (u ++ v) = escape_template u ++ escape_template v.
Proof. unfold escape_template. apply flat_map_app. Qed.

Lemma parse_template_escaped (groups : nat) (rest : str) (items : list titem) :
  (forall fuel, length rest < fuel -> parse_template fuel groups rest = Ok items) ->
  forall u fuel,
    length (escape_template u ++ rest) < fuel ->
    parse_template fuel groups (escape_template u ++ rest)
    = Ok (map TLit u ++ items).
Proof.
  intro Hrest. induction u as [|c u IH]; intros fuel Hf.
  - exact (Hrest fuel Hf).
  - destruct fuel as [|fuel]; [lia|].
    cbn [escape_template flat_map] in *.
    fold (escape_template u) in *.
    destruct (eqc c backslash) eqn:E.
    + apply Ascii.eqb_eq in E. subst c.
      cbn [app] in *. cbn [length] in Hf.
      cbn [parse_template]. cbn [eqc negb].
      change (eqc backslash backslash) with true. cbn [negb].
      change (eqc backslash "g"%char) with false.
      change (eqc backslash "0"%char) with false.
      change (isdigit backslash) with false.
      change (escape_code backslash) with (Some 92).
      cbv iota. rewrite IH by lia. reflexivity.
    + cbn [app] in *. cbn [length] in Hf. cbn [parse_template].
      rewrite E. cbn [negb]. rewrite IH by lia. reflexivity.
Qed.

Lemma expand_lits (s : str) (mt : rmatch) (u : str) (items : list titem) :
  expand s (map TLit u ++ items) mt = u ++ expand s items mt.
Proof.
  unfold expand. rewrite flat_map_app. f_equal.
  induction u as [|c u IH]; [reflexivity|]. cbn. rewrite IH. reflexivity.
Qed.

Lemma splice_ext (s : str) (f g : rmatch -> str) :
  (forall mt, f mt = g mt) ->
  forall ms from, splice s from ms f = splice s from ms g.
Proof.
  intro H. induction ms as [|mt ms IH]; intro from; [reflexivity|].
  cbn [splice]. rewrite H, IH. reflexivity.
Qed.

Lemma all_matches_none (fl : flags) (r : regex) (s : str) (limit : option nat) :
  search fl r s = None -> all_matches fl r s limit = [].
Proof.
  intro H. unfold all_matches.
  replace (2 * length s + 2) with (S (S (2 * length s))) by lia.
  cbn [iter_matches firstn skipn last_char rev hd_error].
  unfold search in H. rewrite H. destruct limit as [[|n]|]; reflexivity.
Qed.

Lemma escape_code_other (e : ascii) :
  is_ascii_letter e = false -> eqc e backslash = false -> escape_code e = None.
Proof.
  destruct e as [[|] [|] [|] [|] [|] [|] [|] [|]]; intros H1 H2;
    try reflexivity; try discriminate H1; try discriminate H2.
Qed.

Lemma not_letter_not_g (e : ascii) : is_ascii_letter e = false -> eqc e "g"%char = false.
Proof.
  intro H. destruct (eqc e "g"%char) eqn:E; [|reflexivity].
  apply Ascii.eqb_eq in E. subst e. discriminate H.
Qed.

Lemma not_digit_not_0 (e : ascii) : isdigit e = false -> eqc e "0"%char = false.
Proof.
  intro H. destruct (eqc e "0"%char) eqn:E; [|reflexivity].
  apply Ascii.eqb_eq in E. subst e. discriminate H.
Qed.

Lemma parse_template_safe (groups : nat) (rest : str) (items : list titem) :
  (forall fuel, length rest < fuel -> parse_template fuel groups rest = Ok items) ->
  forall n u,
    length u <= n -> template_safe u = true ->
    forall fuel,
      length (u ++ rest) < fuel ->
      parse_template fuel groups (u ++ rest) = Ok (map TLit u ++ items).
Proof.
  intro Hrest. induction n as [|n IH]; intros u Hn Hs fuel Hf.
  - destruct u; [exact (Hrest fuel Hf)|cbn in Hn; lia].
  - destruct u as [|c u]; [exact (Hrest fuel Hf)|].
    destruct fuel as [|fuel]; [lia|].
    cbn [template_safe] in Hs. cbn [app length] in Hf, Hn.
    cbn [app parse_template].
    destruct (eqc c backslash) eqn:E; cbn [negb].
    + destruct u as [|e u]; [discriminate Hs|].
      apply andb_true_iff in Hs. destruct Hs as [Hs Hu].
      apply andb_true_iff in Hs. destruct Hs as [Hs Hb].
      apply andb_true_iff in Hs. destruct Hs as [Hl Hd].
      apply negb_true_iff in Hl, Hd, Hb.
      cbn [app]. rewrite (not_letter_not_g e Hl), (not_digit_not_0 e Hd), Hd.
      rewrite (escape_code_other e Hl Hb), Hl.
      cbn [app length] in Hf, Hn.
      rewrite (IH u) by (try assumption; lia). reflexivity.
    + rewrite (IH u) by (try assumption; lia). reflexivity.
Qed.

Lemma template_safe_plain (u : str) :
  contains [backslash] u = false -> template_safe u = true.
Proof.
  induction u as [|c u IH]; intro H; [reflexivity|].
  rewrite contains_unfold in H. apply orb_false_iff in H. destruct H as [H1 H2].
  cbn [startswith] in H1. rewrite andb_true_r in H1.
  assert (E : eqc c backslash = false).
  { rewrite <- H1. unfold eqc. apply Ascii.eqb_sym. }
  cbn [template_safe]. rewrite E. exact (IH H2).
Qed.

(** One formatted bullet of the template gives its line. *)
Lemma parse_template_line (groups : nat) (bullet rest : str) (items : list titem) :
  (forall fuel, length rest < fuel -> parse_template fuel groups rest = Ok items) ->
  template_safe bullet = true ->
  forall fuel,
    length (([backslash; backslash] ++ lit "item " ++ bullet) ++ rest) < fuel ->
    parse_template fuel groups (([backslash; backslash] ++ lit "item " ++ bullet) ++ rest)
    = Ok (map TLit (lit "\item " ++ bullet) ++ items).
Proof.
  intros Hrest Hs fuel Hf.
  change ([backslash; backslash] ++ lit "item " ++ bullet)
    with (escape_template (lit "\item ") ++ bullet) in *.
  rewrite <- app_assoc in *. rewrite map_app, <- app_assoc.
  apply parse_template_escaped; [|exact Hf].
  intros fuel' Hf'.
  exact (parse_template_safe groups rest items Hrest (length bullet) bullet
           (le_n _) Hs fuel' Hf').
Qed.

Lemma join_cons2 (sep p q : str) (ps : list str) :
  join sep (p :: q :: ps) = p ++ sep ++ join sep (q :: ps).
Proof. reflexivity. Qed.

Lemma parse_template_lines (groups : nat) (new_bullets : list str) :
  (forall b, In b new_bullets -> template_safe b = true) ->
  forall (rest : str) (items : list titem),
    (forall fuel, length rest < fuel -> parse_template fuel groups rest = Ok items) ->
    forall fuel,
      length (join [nl] (map (fun bullet => [backslash; backslash] ++ lit "item " ++ bullet)
                             new_bullets) ++ rest) < fuel ->
      parse_template fuel groups
        (join [nl] (map (fun bullet => [backslash; backslash] ++ lit "item " ++ bullet)
                        new_bullets) ++ rest)
      = Ok (map TLit (summary_lines new_bullets) ++ items).
Proof.
  unfold summary_lines.
  induction new_bullets as [|b bs IH]; intros H rest items Hrest fuel Hf.
  - exact (Hrest fuel Hf).
  - assert (Hb : template_safe b = true) by (apply H; left; reflexivity).
    destruct bs as [|b' bs].
    + cbn [map join] in *. exact (parse_template_line groups b rest items Hrest Hb fuel Hf).
    + pose (f := fun bullet : str => [backslash; backslash] ++ lit "item " ++ bullet).
      pose (g := fun bullet : str => lit "\item " ++ bullet).
      pose (J := join [nl] (map f (b' :: bs))).
      pose (J' := join [nl] (map g (b' :: bs))).
      change (length (join [nl] (map f (b :: b' :: bs)) ++ rest) < fuel) in Hf.
      change (parse_template fuel groups (join [nl] (map f (b :: b' :: bs)) ++ rest)
              = Ok (map TLit (join [nl] (map g (b :: b' :: bs))) ++ items)).
      assert (E : join [nl] (map f (b :: b' :: bs)) ++ rest
                  = f b ++ ([nl] ++ J ++ rest)).
      { change (map f (b :: b' :: bs)) with (f b :: f b' :: map f bs).
        rewrite join_cons2. rewrite <- !app_assoc. reflexivity. }
      assert (E' : map TLit (join [nl] (map g (b :: b' :: bs))) ++ items
                   = map TLit (g b) ++ (map TLit [nl] ++ map TLit J' ++ items)).
      { change (map g (b :: b' :: bs)) with (g b :: g b' :: map g bs).
        rewrite join_cons2. rewrite !map_app, <- !app_assoc. reflexivity. }
      rewrite E in Hf |- *. rewrite E'.
      apply (parse_template_line groups b); [|exact Hb|exact Hf].
      intros fuel' Hf'.
      change [nl] with (escape_template [nl]) in Hf' |- * at 1.
      apply (parse_template_escaped groups); [|exact Hf'].
      intros fuel'' Hf''.
      apply (IH (fun x Hx => H x (or_intror Hx))); [exact Hrest|exact Hf''].
Qed.

Lemma parse_summary_replacement (new_bullets : list str) :
  (forall b, In b new_bullets -> template_safe b = true) ->
  let formatted_bullets :=
    join [nl] (map (fun bullet => [backslash; backslash] ++ lit "item " ++ bullet)
                   new_bullets) in
  let replacement := lit "\1" ++ formatted_bullets ++ [nl] ++ lit "\3" in
  parse_template (S (length replacement)) 3 replacement
  = Ok (TGroup 1 :: map TLit (summary_lines new_bullets ++ [nl]) ++ [TGroup 3]).
Proof.
  intros H formatted_bullets replacement.
  assert (Hbody : forall fuel,
             length (formatted_bullets ++ [nl] ++ lit "\3") < fuel ->
             parse_template fuel 3 (formatted_bullets ++ [nl] ++ lit "\3")
             = Ok (map TLit (summary_lines new_bullets ++ [nl]) ++ [TGroup 3])).
  { intros fuel Hf. rewrite map_app, <- app_assoc.
    apply (parse_template_lines 3 new_bullets H); [|exact Hf].
    intros fuel' Hf'. cbn in Hf'.
    destruct fuel' as [|[|[|fuel']]]; try lia. reflexivity. }
  unfold replacement at 2. cbn [lit list_ascii_of_string app].
  cbn [parse_template].
  change (eqc "\"%char backslash) with true. cbn [negb].
  change (eqc "1"%char "g"%char) with false.
  change (eqc "1"%char "0"%char) with false.
  change (isdigit "1"%char) with true. cbv iota.
  assert (Hhead : exists c t, formatted_bullets ++ [nl] ++ lit "\3" = c :: t
                                /\ isdigit c = false).
  { unfold formatted_bullets. destruct new_bullets as [|b [|b' bs]].
    - exists nl, (lit "\3"). split; reflexivity.
    - exists backslash. eexists. split; reflexivity.
    - exists backslash. eexists. split; reflexivity. }
  destruct Hhead as (c & t & Ht & Hc).
  change (formatted_bullets ++ nl :: list_ascii_of_string "\3")
    with (formatted_bullets ++ [nl] ++ lit "\3").
  assert (Hlen : length (formatted_bullets ++ [nl] ++ lit "\3") < length replacement).
  { unfold replacement. cbn [lit list_ascii_of_string app length]. lia. }
  rewrite Ht at 1. rewrite Hc. unfold addgroup. cbn [Nat.ltb Nat.leb digit_val].
  change (3 <? code "1"%char - 48) with false. cbv iota.
  rewrite Hbody by exact Hlen. reflexivity.
Qed.

(** X3.  When every backslash of the new bullets is followed by a character
    that is neither an ASCII letter, nor a digit, nor a backslash (no
    backslash at all, or escapes such as [\%] and [\&]), the replacement
    template reproduces the bullets: [replace_summary_section] returns, each
    block that its pattern matches gets the lines [\item <bullet>] between
    its heading part and its [\end{itemize}], and a document that the
    pattern does not match comes back unchanged. *)
Theorem replace_summary_safe_bullets (latex_content : str) (new_bullets : list str) :
  (forall b, In b new_bullets -> template_safe b = true) ->
  replace_summary_section latex_content new_bullets
  = Ok (sub_fun DOTALL_I replace_summary_pattern
          (fun s mt => group_or_empty s mt 1 ++ summary_lines new_bullets ++ [nl]
                       ++ group_or_empty s mt 3)
          latex_content None)
  /\ (matches DOTALL_I replace_summary_pattern latex_content = false ->
      replace_summary_section latex_content new_bullets = Ok latex_content).
Proof.
  intro H.
  assert (Hmain : replace_summary_section latex_content new_bullets
          = Ok (sub_fun DOTALL_I replace_summary_pattern
                  (fun s mt => group_or_empty s mt 1 ++ summary_lines new_bullets ++ [nl]
                               ++ group_or_empty s mt 3)
                  latex_content None)).
  { unfold replace_summary_section, sub_template.
    rewrite (parse_summary_replacement new_bullets H). cbn [bind]. f_equal.
    unfold sub_fun. apply splice_ext. intro mt.
    change (TGroup 1 :: ?l) with ([TGroup 1] ++ l).
    unfold expand at 1. rewrite flat_map_app. cbn [flat_map]. rewrite app_nil_r.
    f_equal.
    fold (expand latex_content
            (map TLit (summary_lines new_bullets ++ [nl]) ++ [TGroup 3]) mt).
    rewrite expand_lits. rewrite <- app_assoc. cbn. rewrite app_nil_r. reflexivity. }
  split; [exact Hmain|].
  intro Hno. rewrite Hmain. f_equal. unfold sub_fun, matches in *.
  destruct (search DOTALL_I replace_summary_pattern latex_content) eqn:E;
    [discriminate Hno|].
  rewrite (all_matches_none _ _ _ None E). reflexivity.
Qed.

Lemma replace_summary_safe_bullets_witness :
  (forall b, In b [lit "Cut latency by 40\% in 3 services"] -> template_safe b = true)
  /\ replace_summary_section summary_doc [lit "Cut latency by 40\% in 3 services"]
     = Ok (text_of_lines
             [ "%-----------SUMMARY-----------";
               "\section{Summary}";
               "\begin{itemize}";
               "\item Cut latency by 40\% in 3 services";
               "\end{itemize}" ]%string).
Proof.
  assert (H : forall b, In b [lit "Cut latency by 40\% in 3 services"] ->
                        template_safe b = true).
  { intros b [<-|[]]. reflexivity. }
  split; [exact H|].
  eapply eq_trans;
    [exact (proj1 (replace_summary_safe_bullets summary_doc _ H))|].
  vm_compute. reflexivity.
Defined.

(* ===================================================================== *)
(** * Further properties of the validators *)
(* ===================================================================== *)

(** ** Digits *)

Lemma cls_digit_mem (fl : flags) (c : ascii) :
  cls_mem fl [CDigit] c = isdigit c.
Proof.
  unfold cls_mem. destruct (ignorecase fl); [|cbn; apply orb_false_r].
  destruct c as [[|] [|] [|] [|] [|] [|] [|] [|]]; reflexivity.
Qed.

Lemma in_lang_digit (fl : flags) (w : str) :
  in_lang fl digit w -> exists c, w = [c] /\ isdigit c = true.
Proof.
  unfold digit. cbn [in_lang xorb]. intros (c & -> & H).
  rewrite cls_digit_mem in H. exists c. split; [reflexivity|exact H].
Qed.

Lemma in_lang_digits (fl : flags) (g : greed) (w : str) :
  in_lang fl (Plus g digit) w -> existsb isdigit w = true.
Proof.
  unfold Plus. cbn [in_lang]. intros (w1 & w2 & -> & H1 & _).
  apply in_lang_digit in H1. destruct H1 as (c & -> & Hc).
  cbn. rewrite Hc. reflexivity.
Qed.

Lemma existsb_split (f : ascii -> bool) (s : str) :
  existsb f s = true -> exists a c b, s = a ++ c :: b /\ f c = true.
Proof.
  intro H. apply existsb_exists in H. destruct H as (c & Hin & Hc).
  apply in_split in Hin. destruct Hin as (a & b & ->). exists a, c, b.
  split; [reflexivity|exact Hc].
Qed.

(** A repetition followed by nothing else always succeeds. *)
Lemma star_loop_total (body : mstate -> (mstate -> option mstate) -> option mstate)
      (g : greed) (n : nat) (st : mstate) :
  star_loop body g (fun s => Some s) n st <> None.
Proof.
  destruct n as [|n]; cbn [star_loop]; [discriminate|].
  destruct g; unfold orelse.
  - destruct (body st _); discriminate.
  - discriminate.
Qed.

(** [\d+] is found exactly in the texts that have a digit. *)
Lemma digits_found (s : str) :
  matches no_flags (Plus Greedy digit) s = existsb isdigit s.
Proof.
  destruct (existsb isdigit s) eqn:E.
  - apply matches_iff. apply existsb_split in E. destruct E as (a & c & b & -> & Hc).
    exists a, (c :: b). split; [reflexivity|].
    unfold Plus. rewrite m_Cat. unfold digit at 1. cbn [m m_rest at_split].
    rewrite cls_digit_mem, Hc. cbn [xorb]. apply star_loop_total.
  - destruct (matches no_flags (Plus Greedy digit) s) eqn:Hm; [|reflexivity].
    unfold matches in Hm.
    destruct (search no_flags (Plus Greedy digit) s) as [mt|] eqn:Hs; [|discriminate Hm].
    destruct (search_span _ _ _ _ Hs) as (a & w & b & -> & _ & _ & HL & _).
    apply in_lang_digits in HL.
    rewrite !existsb_app, HL, orb_true_r in E. discriminate E.
Qed.

(** X4.  The six metric patterns of the experience validator come to one
    test: a text has a metric exactly when it has a digit. *)
Theorem contains_metrics_iff_digit (text : str) :
  ExperienceValidator._contains_metrics text = existsb isdigit text.
Proof.
  unfold ExperienceValidator._contains_metrics, ExperienceValidator.metric_patterns.
  cbn [existsb]. rewrite digits_found.
  destruct (existsb isdigit text) eqn:E; [rewrite !orb_true_r; reflexivity|].
  assert (H : forall r, (forall w, in_lang no_flags r w -> existsb isdigit w = true) ->
                        matches no_flags r text = false).
  { intros r Hr. unfold matches.
    destruct (search no_flags r text) as [mt|] eqn:Hs; [|reflexivity].
    destruct (search_span _ _ _ _ Hs) as (a & w & b & -> & _ & _ & HL & _).
    apply Hr in HL. rewrite !existsb_app, HL, orb_true_r in E. discriminate E. }
  rewrite !H; [reflexivity| | | | |].
  all: intros w Hw; cbn [in_lang] in Hw; destruct Hw as (w1 & w2 & -> & H1 & H2).
  all: rewrite existsb_app.
  all: try (apply (in_lang_digits no_flags Greedy) in H1; rewrite H1; reflexivity).
  apply (in_lang_digits no_flags Greedy) in H2; rewrite H2. apply orb_true_r.
Qed.

(** X5.  A first bullet in the required form holds a number, so it never
    gets the measurable-impact warning. *)
Theorem first_bullet_format_has_number (bullet : str) :
  SummaryValidator._check_first_bullet_format bullet = true ->
  SummaryValidator._contains_numbers bullet = true.
Proof.
  unfold SummaryValidator._check_first_bullet_format, SummaryValidator._contains_numbers.
  rewrite digits_found. unfold matches.
  destruct (search I SummaryValidator.first_bullet_pattern bullet) as [mt|] eqn:Hs;
    [|discriminate].
  intros _. destruct (search_span _ _ _ _ Hs) as (a & w & b & -> & _ & _ & HL & _).
  unfold SummaryValidator.first_bullet_pattern in HL. cbn [cats fold_right] in HL.
  cbn [in_lang] in HL.
  destruct HL as (w0 & r0 & -> & _ & w1 & r1 & -> & _ & w2 & r2 & -> & _
                  & w3 & r3 & -> & _ & w4 & r4 & -> & _ & w5 & r5 & -> & H5 & _).
  assert (Hd : existsb isdigit w5 = true).
  { apply (in_lang_digits I Greedy). exact H5. }
  rewrite !existsb_app, Hd, !orb_true_r. reflexivity.
Qed.

Lemma first_bullet_format_has_number_witness :
  SummaryValidator._check_first_bullet_format (lit "Data Engineer with 5+ yrs of ETL") = true
  /\ SummaryValidator._contains_numbers (lit "Data Engineer with 5+ yrs of ETL") = true.
Proof.
  assert (H : SummaryValidator._check_first_bullet_format
                (lit "Data Engineer with 5+ yrs of ETL") = true)
    by (vm_compute; reflexivity).
  split; [exact H|].
  exact (first_bullet_format_has_number _ H).
Defined.

(** ** When the summary validation passes *)

Lemma flat_map_nil_iff {A B} (f : A -> list B) (l : list A) :
  flat_map f l = [] <-> Forall (fun x => f x = []) l.
Proof.
  induction l as [|x l IH]; cbn [flat_map].
  - split; [constructor|reflexivity].
  - split.
    + intro H. apply app_eq_nil in H. destruct H as [Hx Hl].
      constructor; [exact Hx|apply IH; exact Hl].
    + intro H. inversion H as [|x0 l0 Hx Hl]; subst.
      rewrite Hx. apply IH. exact Hl.
Qed.

Lemma Forall_enumerate {A} (P : nat -> A -> Prop) (xs : list A) :
  forall start,
    Forall (fun ib => P (fst ib) (snd ib)) (enumerate start xs)
    <-> forall k x, nth_error xs k = Some x -> P (start + k) x.
Proof.
  induction xs as [|x xs IH]; intro start; cbn [enumerate].
  - split; [intros _ k y Hk; destruct k; discriminate Hk|constructor].
  - split.
    + intros H k y Hk. inversion H as [|ib l Hx Hl]; subst. cbn [fst snd] in Hx.
      destruct k as [|k]; cbn in Hk.
      * injection Hk as <-. rewrite Nat.add_0_r. exact Hx.
      * rewrite <- Nat.add_succ_comm. apply (proj1 (IH (S start)) Hl). exact Hk.
    + intro H. constructor.
      * cbn [fst snd]. rewrite <- (Nat.add_0_r start). apply H. reflexivity.
      * apply IH. intros k y Hk. rewrite Nat.add_succ_comm. apply H. exact Hk.
Qed.

Lemma Forall_enumerate_snd {A} (P : A -> Prop) (xs : list A) (start : nat) :
  Forall (fun ib => P (snd ib)) (enumerate start xs) <-> Forall P xs.
Proof.
  revert start. induction xs as [|x xs IH]; intro start; cbn [enumerate].
  - split; constructor.
  - split; intro H; inversion H; subst; constructor; try assumption;
      apply (IH (S start)); assumption.
Qed.

Lemma summary_passed_is_no_errors (self : SummaryValidator.SummaryValidator)
      (bullets_text : str) (keywords : list str)
      (context : option SummaryValidator.SummaryValidationContext) :
  let r := SummaryValidator.validate self bullets_text keywords context in
  SummaryValidator.passed r = true <-> SummaryValidator.errors r = [].
Proof.
  unfold SummaryValidator.validate.
  destruct (fold_left _ _ _) as [errs warns].
  cbn [SummaryValidator.passed SummaryValidator.errors].
  apply length_zero_iff.
Qed.

Lemma format_errors_of_nil (self : SummaryValidator.SummaryValidator)
      (i : nat) (bullet : str) :
  format_errors_of self (i, bullet) = []
  <-> summary_bullet_ok self bullet
      /\ (i = 1 -> SummaryValidator._check_first_bullet_format bullet = true).
Proof.
  unfold format_errors_of, summary_bullet_ok.
  destruct (len bullet <? SummaryValidator.char_min self)%Z eqn:E1;
    destruct (SummaryValidator.char_max self <? len bullet)%Z eqn:E2;
    destruct (SummaryValidator._check_first_bullet_format bullet) eqn:E3;
    destruct (endswith (lit ".") (rstrip bullet)) eqn:E4;
    destruct (Nat.eqb_spec i 1) as [Hi|Hi];
    cbn [orb andb negb app];
    try apply Z.ltb_lt in E1; try apply Z.ltb_ge in E1;
    try apply Z.ltb_lt in E2; try apply Z.ltb_ge in E2;
    split; try discriminate; try reflexivity;
    try (intros [[Hr Hp] Hf]; first [lia|discriminate Hp|discriminate (Hf Hi)]).
  all: intros _; repeat split; try lia; try (intro; congruence).
Qed.

Lemma Forall_iff_pointwise {A} (P Q : A -> Prop) (l : list A) :
  (forall x, P x <-> Q x) -> (Forall P l <-> Forall Q l).
Proof.
  intro H. split; apply Forall_impl; intros x Hx; apply H; exact Hx.
Qed.

Lemma Forall_nth_error_iff {A} (P : A -> Prop) (l : list A) :
  Forall P l <-> forall k x, nth_error l k = Some x -> P x.
Proof.
  rewrite Forall_forall. split.
  - intros H k x Hk. apply H. exact (nth_error_In l k Hk).
  - intros H x Hin. apply In_nth_error in Hin. destruct Hin as [k Hk].
    exact (H k x Hk).
Qed.

Lemma summary_format_errors_nil (self : SummaryValidator.SummaryValidator)
      (bullets : list str) :
  flat_map (format_errors_of self) (enumerate 1 bullets) = []
  <-> Forall (summary_bullet_ok self) bullets
      /\ (forall bullet, hd_error bullets = Some bullet ->
                         SummaryValidator._check_first_bullet_format bullet = true).
Proof.
  rewrite flat_map_nil_iff.
  rewrite (Forall_iff_pointwise
             (fun ib => format_errors_of self ib = [])
             (fun ib => summary_bullet_ok self (snd ib)
                        /\ (fst ib = 1 ->
                            SummaryValidator._check_first_bullet_format (snd ib) = true)))
    by (intros [i b]; apply format_errors_of_nil).
  rewrite (Forall_enumerate
             (fun i b => summary_bullet_ok self b
                         /\ (i = 1 -> SummaryValidator._check_first_bullet_format b = true))).
  rewrite Forall_nth_error_iff. split.
  - intro H. split.
    + intros k x Hk. exact (proj1 (H k x Hk)).
    + intros bullet Hb. destruct bullets as [|b0 bs]; [discriminate Hb|].
      cbn in Hb. injection Hb as <-. exact (proj2 (H 0 b0 eq_refl) eq_refl).
  - intros [Hall Hfirst] k x Hk. split; [exact (Hall k x Hk)|].
    intro Hone. destruct k as [|k]; [|lia].
    apply Hfirst. destruct bullets; [discriminate Hk|exact Hk].
Qed.

Lemma summary_semantic_errors_nil (bullets : list str)
      (context : option SummaryValidator.SummaryValidationContext) :
  match context with
  | Some context => flat_map (semantic_errors_of context) (enumerate 1 bullets)
  | None => []
  end = []
  <-> Forall (fun bullet => SummaryValidator.check_all_constraints bullet context = None)
             bullets.
Proof.
  destruct context as [context|].
  - rewrite flat_map_nil_iff.
    rewrite <- (Forall_enumerate_snd
                  (fun bullet => SummaryValidator.check_all_constraints bullet (Some context)
                                 = None) bullets 1).
    apply Forall_iff_pointwise. intros [i b]. unfold semantic_errors_of. cbn [fst snd].
    destruct (SummaryValidator.check_all_constraints b (Some context));
      split; intro H; try reflexivity; discriminate H.
  - split; [|reflexivity]. intros _. apply Forall_forall. intros; reflexivity.
Qed.

(** X6.  [validate] of the summary passes exactly when no bullet is
    rejected by the semantic checks, the number of bullets is the configured
    one, every bullet has a length within the configured bounds and no
    trailing period, the first bullet has the required form, and enough
    keywords are found; the two warnings play no part. *)
Theorem summary_passed_iff (self : SummaryValidator.SummaryValidator)
      (bullets_text : str) (keywords : list str)
      (context : option SummaryValidator.SummaryValidationContext) :
  let r := SummaryValidator.validate self bullets_text keywords context in
  let bullets := SummaryValidator._parse_bullets bullets_text in
  SummaryValidator.passed r = true
  <-> Forall (fun bullet => SummaryValidator.check_all_constraints bullet context = None)
             bullets
      /\ len bullets = SummaryValidator.bullet_count self
      /\ Forall (summary_bullet_ok self) bullets
      /\ (forall bullet, hd_error bullets = Some bullet ->
                         SummaryValidator._check_first_bullet_format bullet = true)
      /\ (SummaryValidator.min_keywords self
          <= Z.of_nat (count_keyword_matches (join (lit " ") bullets) keywords))%Z.
Proof.
  cbv zeta.
  rewrite (summary_passed_is_no_errors self bullets_text keywords context).
  rewrite (summary_validate_errors self bullets_text keywords context).
  set (bullets := SummaryValidator._parse_bullets bullets_text).
  assert (Hkm : SummaryValidator.keywords_matched
                  (SummaryValidator.validate self bullets_text keywords context)
                = count_keyword_matches (join (lit " ") bullets) keywords).
  { unfold SummaryValidator.validate. fold bullets.
    destruct (fold_left _ _ _) as [errs warns]. reflexivity. }
  rewrite Hkm. set (km := count_keyword_matches _ _).
  pose proof (summary_semantic_errors_nil bullets context) as Hsem.
  pose proof (summary_format_errors_nil self bullets) as Hfmt.
  set (SEM := match context with Some _ => _ | None => _ end) in *.
  set (FMT := flat_map _ _) in *.
  assert (H0 : SEM ++ (if negb (len bullets =? SummaryValidator.bullet_count self)%Z
                       then [SummaryValidator.count_message self (len bullets)] else [])
                   ++ FMT
                   ++ (if (Z.of_nat km <? SummaryValidator.min_keywords self)%Z
                       then [SummaryValidator.keywords_message self km (len keywords)]
                       else []) = []
               <-> SEM = [] /\ len bullets = SummaryValidator.bullet_count self
                   /\ FMT = []
                   /\ (SummaryValidator.min_keywords self <= Z.of_nat km)%Z).
  { destruct (Z.eqb_spec (len bullets) (SummaryValidator.bullet_count self)) as [Hc|Hc];
      destruct (Z.ltb_spec (Z.of_nat km) (SummaryValidator.min_keywords self)) as [Hk|Hk];
      cbn [negb app]; split.
    all: try (intro H; apply app_eq_nil in H; destruct H as [H1 H2]).
    all: try (apply app_eq_nil in H2; destruct H2 as [H2 H3]; discriminate H3).
    all: try discriminate H2.
    all: try (intros (H1 & H2 & H3 & H4); first [lia|congruence]).
    - rewrite app_nil_r in H2. repeat split; try assumption; lia.
    - intros (H1 & H2 & H3 & H4). rewrite H1, H3. reflexivity. }
  rewrite H0, Hsem, Hfmt. tauto.
Qed.

(** ** When the experience validation passes *)

Lemma experience_loop_errors (l : list (nat * str)) :
  forall errors warnings,
    fst (fold_left ExperienceValidator.bullet_step l (errors, warnings))
    = errors ++ flat_map period_errors_of l.
Proof.
  induction l as [|[i bullet] l IH]; intros errors warnings.
  - cbn. rewrite app_nil_r. reflexivity.
  - cbn [fold_left flat_map]. unfold ExperienceValidator.bullet_step at 2.
    rewrite IH. unfold period_errors_of at 2. cbn [fst snd].
    destruct (endswith (lit ".") (rstrip bullet)); cbn [app];
      rewrite <- ?app_assoc, ?app_nil_r; reflexivity.
Qed.

Lemma experience_validate_errors (experience_text : str) (keywords : list str) :
  let r := ExperienceValidator.validate experience_text keywords in
  let bullets := ExperienceValidator._parse_bullets experience_text in
  let km := count_keyword_matches (join (lit " ") bullets) keywords in
  ExperienceValidator.errors r
  = (if (len bullets <? 4)%Z then [ExperienceValidator.need_message (len bullets)] else [])
    ++ flat_map period_errors_of (enumerate 1 bullets)
    ++ (if (Z.of_nat km <? 3)%Z
        then [ExperienceValidator.keywords_message km (len keywords)] else [])
    ++ (if negb (ExperienceValidator._check_latex_format experience_text)
        then [ExperienceValidator.format_message] else []).
Proof.
  cbv zeta. unfold ExperienceValidator.validate.
  set (bullets := ExperienceValidator._parse_bullets experience_text).
  set (km := count_keyword_matches _ _).
  change ExperienceValidator.min_bullets with 4%Z.
  change ExperienceValidator.max_bullets with 6%Z.
  change ExperienceValidator.min_keywords with 3%Z.
  set (start := if (len bullets <? 4)%Z then _ else _).
  assert (Hstart : fst start
                   = if (len bullets <? 4)%Z
                     then [ExperienceValidator.need_message (len bullets)] else []).
  { subst start. destruct (len bullets <? 4)%Z; [reflexivity|].
    destruct (6 <? len bullets)%Z; reflexivity. }
  destruct start as [e0 w0]. cbn [fst] in Hstart. subst e0.
  pose proof (experience_loop_errors (enumerate 1 bullets)
                (if (len bullets <? 4)%Z
                 then [ExperienceValidator.need_message (len bullets)] else []) w0) as Hloop.
  destruct (fold_left _ _ _) as [errs warns]. cbn [fst] in Hloop. subst errs.
  cbn [ExperienceValidator.errors].
  destruct (Z.of_nat km <? 3)%Z;
    destruct (negb (ExperienceValidator._check_latex_format experience_text));
    rewrite <- ?app_assoc, ?app_nil_r; reflexivity.
Qed.

Lemma experience_passed_is_no_errors (experience_text : str) (keywords : list str) :
  let r := ExperienceValidator.validate experience_text keywords in
  ExperienceValidator.passed r = true <-> ExperienceValidator.errors r = [].
Proof.
  unfold ExperienceValidator.validate.
  destruct (if (len _ <? _)%Z then _ else _) as [e0 w0].
  destruct (fold_left _ _ _) as [errs warns].
  cbn [ExperienceValidator.passed ExperienceValidator.errors].
  apply length_zero_iff.
Qed.

(** X7.  [validate] of the experience passes exactly when at least four
    bullets are parsed, none of them ends with a period, at least three
    keywords are found, and the text has both [\resumeSubheading] and
    [\resumeItem]; more than six bullets, a missing action verb and missing
    metrics never fail it. *)
Theorem experience_passed_iff (experience_text : str) (keywords : list str) :
  let r := ExperienceValidator.validate experience_text keywords in
  let bullets := ExperienceValidator._parse_bullets experience_text in
  ExperienceValidator.passed r = true
  <-> (4 <= len bullets)%Z
      /\ Forall (fun bullet => endswith (lit ".") (rstrip bullet) = false) bullets
      /\ 3 <= count_keyword_matches (join (lit " ") bullets) keywords
      /\ contains (lit "\resumeSubheading") experience_text = true
      /\ contains (lit "\resumeItem") experience_text = true.
Proof.
  cbv zeta.
  rewrite (experience_passed_is_no_errors experience_text keywords).
  rewrite (experience_validate_errors experience_text keywords).
  set (bullets := ExperienceValidator._parse_bullets experience_text).
  set (km := count_keyword_matches _ _).
  assert (Hper : flat_map period_errors_of (enumerate 1 bullets) = []
                 <-> Forall (fun bullet => endswith (lit ".") (rstrip bullet) = false)
                            bullets).
  { rewrite flat_map_nil_iff.
    rewrite <- (Forall_enumerate_snd
                  (fun bullet => endswith (lit ".") (rstrip bullet) = false) bullets 1).
    apply Forall_iff_pointwise. intros [i b]. unfold period_errors_of. cbn [fst snd].
    destruct (endswith (lit ".") (rstrip b)); split; intro H;
      try reflexivity; discriminate H. }
  rewrite <- Hper. set (PER := flat_map _ _).
  unfold ExperienceValidator._check_latex_format.
  destruct (Z.ltb_spec (len bullets) 4) as [Hn|Hn];
    destruct (Z.ltb_spec (Z.of_nat km) 3) as [Hk|Hk];
    destruct (contains (lit "\resumeSubheading") experience_text);
    destruct (contains (lit "\resumeItem") experience_text);
    cbn [negb andb app]; split.
  all: try discriminate.
  all: try (intros (H1 & H2 & H3 & H4 & H5); first [lia|discriminate]).
  all: try (intro H; apply app_eq_nil in H; destruct H as [H1 H2]; discriminate H2).
  - rewrite !app_nil_r. intro H. repeat split; try assumption; lia.
  - intros (H1 & H2 & H3 & H4 & H5). rewrite H2. reflexivity.
Qed.

(** ** Too few keywords *)

(** X8.  No validator passes a text when fewer keywords are given than it
    requires to be found: fewer than the configured minimum for the
    summary, fewer than three for the experience and for the skills. *)
Theorem too_few_keywords_never_pass :
  (forall self bullets_text keywords context,
      (len keywords < SummaryValidator.min_keywords self)%Z ->
      SummaryValidator.passed
        (SummaryValidator.validate self bullets_text keywords context) = false)
  /\ (forall experience_text keywords,
      length keywords < 3 ->
      ExperienceValidator.passed
        (ExperienceValidator.validate experience_text keywords) = false)
  /\ (forall skills_text keywords,
      length keywords < 3 ->
      SkillsValidator.passed (SkillsValidator.validate skills_text keywords) = false).
Proof.
  split; [|split].
  - intros self bullets_text keywords context Hlen.
    apply not_true_is_false. intro Hp.
    apply (summary_passed_is_no_errors self bullets_text keywords context) in Hp.
    rewrite (summary_validate_errors self bullets_text keywords context) in Hp.
    set (km := SummaryValidator.keywords_matched _) in Hp.
    assert (Hkm : km <= length keywords).
    { subst km. unfold SummaryValidator.validate.
      destruct (fold_left _ _ _) as [errs warns]. cbn [SummaryValidator.keywords_matched].
      apply count_keyword_matches_le. }
    unfold len in Hlen.
    destruct (Z.ltb_spec (Z.of_nat km) (SummaryValidator.min_keywords self)) as [Hk|Hk];
      [|lia].
    apply app_eq_nil in Hp. destruct Hp as [_ Hp].
    apply app_eq_nil in Hp. destruct Hp as [_ Hp].
    apply app_eq_nil in Hp. destruct Hp as [_ Hp]. discriminate Hp.
  - intros experience_text keywords Hlen.
    apply not_true_is_false. intro Hp.
    apply (experience_passed_is_no_errors experience_text keywords) in Hp.
    rewrite (experience_validate_errors experience_text keywords) in Hp.
    set (km := count_keyword_matches _ _) in Hp.
    assert (Hkm : km <= length keywords) by apply count_keyword_matches_le.
    destruct (Z.ltb_spec (Z.of_nat km) 3) as [Hk|Hk]; [|lia].
    apply app_eq_nil in Hp. destruct Hp as [_ Hp].
    apply app_eq_nil in Hp. destruct Hp as [_ Hp].
    apply app_eq_nil in Hp. destruct Hp as [Hp _]. discriminate Hp.
  - intros skills_text keywords Hlen.
    unfold SkillsValidator.validate. cbn [SkillsValidator.passed].
    set (km := count_keyword_matches _ _).
    assert (Hkm : km <= length keywords) by apply count_keyword_matches_le.
    change SkillsValidator.min_keywords with 3%Z.
    destruct (Z.ltb_spec (Z.of_nat km) 3) as [Hk|Hk]; [|lia].
    destruct (negb (SkillsValidator._check_latex_format skills_text)); reflexivity.
Qed.

Lemma too_few_keywords_never_pass_witness :
  SummaryValidator.passed
    (SummaryValidator.validate SummaryValidator.default_settings
       (lit "\item Engineer") [lit "python"; lit "sql"] None) = false
  /\ ExperienceValidator.passed
       (ExperienceValidator.validate (lit "\resumeItem{Built it}") [lit "python"; lit "sql"])
     = false
  /\ SkillsValidator.passed
       (SkillsValidator.validate (lit "\item Python, SQL") [lit "python"; lit "sql"])
     = false.
Proof.
  split; [|split].
  - apply (proj1 too_few_keywords_never_pass). reflexivity.
  - apply (proj1 (proj2 too_few_keywords_never_pass)). cbn. lia.
  - apply (proj2 (proj2 too_few_keywords_never_pass)). cbn. lia.
Defined.

(** ** Duplicate skills *)

Lemma eqs_spec (a b : str) : eqs a b = true <-> a = b.
Proof.
  revert b. induction a as [|x a IH]; intros [|y b]; cbn [eqs];
    try (split; [discriminate|discriminate]); try (split; reflexivity).
  rewrite andb_true_iff, IH. unfold eqc. rewrite Ascii.eqb_eq.
  split; [intros [-> ->]; reflexivity|intros [= -> ->]; split; reflexivity].
Qed.

Lemma existsb_eqs (x : str) (l : list str) : existsb (eqs x) l = true <-> In x l.
Proof.
  rewrite existsb_exists. split.
  - intros (y & Hin & Hy). apply eqs_spec in Hy. subst y. exact Hin.
  - intro Hin. exists x. split; [exact Hin|apply eqs_spec; reflexivity].
Qed.

Lemma find_duplicates_loop (skills : list str) :
  forall seen duplicates,
    snd (fold_left
           (fun '(seen, duplicates) skill =>
              let skill_lower := lower skill in
              if existsb (eqs skill_lower) seen
              then (seen, duplicates ++ [skill])
              else (skill_lower :: seen, duplicates))
           skills (seen, duplicates))
    = duplicates ++ repeated_skills seen skills.
Proof.
  induction skills as [|x xs IH]; intros seen duplicates.
  - cbn. rewrite app_nil_r. reflexivity.
  - cbn [fold_left repeated_skills].
    destruct (existsb (eqs (lower x)) seen).
    + rewrite IH, <- app_assoc. reflexivity.
    + rewrite IH. reflexivity.
Qed.

Lemma repeated_skills_nil (skills : list str) :
  forall seen,
    repeated_skills seen skills = []
    <-> NoDup (map lower skills)
        /\ (forall skill, In skill skills -> ~ In (lower skill) seen).
Proof.
  induction skills as [|x xs IH]; intro seen; cbn [repeated_skills map].
  - split; [intros _; split; [constructor|intros ? []]|reflexivity].
  - destruct (existsb (eqs (lower x)) seen) eqn:E.
    + apply existsb_eqs in E. split; [discriminate|].
      intros [_ H]. exfalso. exact (H x (or_introl eq_refl) E).
    + rewrite IH. split.
      * intros [Hnd Hseen]. split.
        -- constructor; [|exact Hnd]. intro Hin. apply in_map_iff in Hin.
           destruct Hin as (y & Hy & Hin). apply (Hseen y Hin). left. symmetry. exact Hy.
        -- intros skill [<-|Hin].
           ++ intro Hs. apply existsb_eqs in Hs. rewrite Hs in E. discriminate E.
           ++ intro Hs. apply (Hseen skill Hin). right. exact Hs.
      * intros [Hnd Hseen]. inversion Hnd as [|y l Hx Hnd']; subst. split; [exact Hnd'|].
        intros skill Hin [Hs|Hs].
        -- apply Hx. rewrite Hs. apply in_map. exact Hin.
        -- exact (Hseen skill (or_intror Hin) Hs).
Qed.

Lemma repeated_skills_sound (skills : list str) :
  forall seen d,
    In d (repeated_skills seen skills) ->
    In d skills
    /\ (In (lower d) seen
        \/ exists before after skill,
             skills = before ++ skill :: after /\ In d after /\ lower skill = lower d).
Proof.
  induction skills as [|x xs IH]; intros seen d Hd; cbn [repeated_skills] in Hd;
    [destruct Hd|].
  destruct (existsb (eqs (lower x)) seen) eqn:E.
  - destruct Hd as [<-|Hd].
    + split; [left; reflexivity|]. left. apply existsb_eqs. exact E.
    + destruct (IH seen d Hd) as [Hin [Hs|(b & a & s & -> & Ha & Hl)]].
      * split; [right; exact Hin|left; exact Hs].
      * split; [right; exact Hin|]. right. exists (x :: b), a, s.
        split; [reflexivity|split; assumption].
  - destruct (IH (lower x :: seen) d Hd) as [Hin [[Hs|Hs]|(b & a & s & -> & Ha & Hl)]].
    + split; [right; exact Hin|]. right. exists [], xs, x.
      split; [reflexivity|split; assumption].
    + split; [right; exact Hin|left; exact Hs].
    + split; [right; exact Hin|]. right. exists (x :: b), a, s.
      split; [reflexivity|split; assumption].
Qed.

(** X9.  [_find_duplicates] reports nothing exactly when no two skills are
    equal up to case, and every skill it reports is one of the skills that
    has an earlier skill equal to it up to case. *)
Theorem find_duplicates_spec (skills : list str) :
  (SkillsValidator._find_duplicates skills = [] <-> NoDup (map lower skills))
  /\ (forall d, In d (SkillsValidator._find_duplicates skills) ->
        exists before after skill,
          skills = before ++ skill :: after /\ In d after /\ lower skill = lower d).
Proof.
  unfold SkillsValidator._find_duplicates. rewrite find_duplicates_loop. cbn [app].
  split.
  - rewrite repeated_skills_nil. split; [intros [H _]; exact H|].
    intro H. split; [exact H|]. intros skill _ [].
  - intros d Hd. destruct (repeated_skills_sound skills [] d Hd) as [_ [[]|H]]. exact H.
Qed.

(** ** The role level of the metadata *)

Lemma validate_role_level_fixed (v : str) :
  In v valid_levels -> JDAnalyzer.validate_role_level v = v.
Proof.
  intro H. unfold JDAnalyzer.validate_role_level.
  fold valid_levels. apply existsb_eqs in H. rewrite H. reflexivity.
Qed.

Lemma validate_role_level_valid (v : str) :
  In (JDAnalyzer.validate_role_level v) valid_levels.
Proof.
  unfold JDAnalyzer.validate_role_level. fold valid_levels.
  destruct (existsb (eqs v) valid_levels) eqn:E; [apply existsb_eqs; exact E|].
  destruct (_ || _); [cbn; tauto|].
  destruct (JDAnalyzer.any_in _ _); [cbn; tauto|].
  destruct (JDAnalyzer.any_in _ _); [cbn; tauto|].
  destruct (JDAnalyzer.any_in _ _); cbn; tauto.
Qed.

(** X10.  The validator of [role_level] always yields one of Junior, Mid,
    Senior, Staff and Lead, leaves these five as they are, and is
    idempotent. *)
Theorem validate_role_level_spec (v : str) :
  In (JDAnalyzer.validate_role_level v) valid_levels
  /\ (In v valid_levels <-> JDAnalyzer.validate_role_level v = v)
  /\ JDAnalyzer.validate_role_level (JDAnalyzer.validate_role_level v)
     = JDAnalyzer.validate_role_level v.
Proof.
  split; [apply validate_role_level_valid|]. split.
  - split; [apply validate_role_level_fixed|].
    intro H. rewrite <- H. apply validate_role_level_valid.
  - apply validate_role_level_fixed. apply validate_role_level_valid.
Qed.

Lemma int_of_digits_nonneg (s : str) : (0 <= int_of_digits s)%Z.
Proof.
  unfold int_of_digits.
  assert (H : forall acc, (0 <= acc)%Z ->
             (0 <= fold_left (fun acc c => 10 * acc + Z.of_nat (code c - 48)) s acc)%Z).
  { induction s as [|c s IH]; intros acc Hacc; [exact Hacc|].
    cbn [fold_left]. apply IH. lia. }
  apply H. lia.
Qed.

(** X11.  Whatever the job description and the order in which the set of
    company names is listed, the fallback metadata is well formed: its role
    level is one of the five levels, it names at most three companies, it
    lists no responsibility, its years of experience are not negative, and
    it has a maximum only together with a minimum. *)
Theorem default_metadata_well_formed (list_of_set : list str -> list str)
        (job_description : str) :
  let md := JDAnalyzer._get_default_metadata list_of_set job_description in
  In (JDAnalyzer.role_level md) valid_levels
  /\ length (JDAnalyzer.company_names md) <= 3
  /\ JDAnalyzer.key_responsibilities md = []
  /\ (forall y, JDAnalyzer.experience_years_min md = Some y -> (0 <= y)%Z)
  /\ (forall y, JDAnalyzer.experience_years_max md = Some y ->
        (0 <= y)%Z /\ JDAnalyzer.experience_years_min md <> None).
Proof.
  cbv zeta. unfold JDAnalyzer._get_default_metadata.
  destruct (search no_flags JDAnalyzer.experience_pattern (lower job_description))
    as [mt|];
    cbn [JDAnalyzer.role_level JDAnalyzer.company_names JDAnalyzer.key_responsibilities
         JDAnalyzer.experience_years_min JDAnalyzer.experience_years_max].
  - split; [apply validate_role_level_valid|].
    split; [apply firstn_le_length|]. split; [reflexivity|].
    split; [intros y [= <-]; apply int_of_digits_nonneg|].
    intros y Hy. split; [|discriminate].
    destruct (group (lower job_description) mt 2) as [[|c g]|]; try discriminate Hy.
    injection Hy as <-. apply int_of_digits_nonneg.
  - split; [apply validate_role_level_valid|].
    split; [apply firstn_le_length|]. split; [reflexivity|].
    split; intros y Hy; discriminate Hy.
Qed.

(** ** Leadership verbs: the guidance of the prompt and the validation *)

Lemma leadership_verb_rejected (context : SummaryValidator.SummaryValidationContext)
      (verb : string) (bullet : str) :
  SummaryValidator.leadership_allowed context = false ->
  In (cats [WordB; lits (lit verb); WordB]) SummaryValidator.leadership_verbs ->
  occurs_as_whole_word (lit verb) (lower bullet) ->
  SummaryValidator.check_all_constraints bullet (Some context) <> None.
Proof.
  intros Hall Hin Hocc. unfold SummaryValidator.check_all_constraints.
  destruct (SummaryValidator.check_company context (lower bullet)); [discriminate|].
  assert (H : SummaryValidator.check_leadership context (lower bullet) <> None).
  { unfold SummaryValidator.check_leadership. rewrite Hall. cbn [negb].
    apply (first_some_found _ _ _ Hin).
    pose proof (whole_word_is_matched (lit verb) (lower bullet) Hocc) as Hm.
    unfold matches in Hm.
    destruct (search no_flags (cats [WordB; lits (lit verb); WordB]) (lower bullet));
      [discriminate|discriminate Hm]. }
  destruct (SummaryValidator.check_leadership context (lower bullet));
    [discriminate|congruence].
Qed.

Lemma rejected_bullet_fails (self : SummaryValidator.SummaryValidator)
      (bullets_text : str) (keywords : list str)
      (context : SummaryValidator.SummaryValidationContext) (bullet : str) :
  In bullet (SummaryValidator._parse_bullets bullets_text) ->
  SummaryValidator.check_all_constraints bullet (Some context) <> None ->
  SummaryValidator.passed
    (SummaryValidator.validate self bullets_text keywords (Some context)) = false.
Proof.
  intros Hin Hrej. apply not_true_is_false. intro Hp.
  apply (summary_passed_is_no_errors self bullets_text keywords (Some context)) in Hp.
  rewrite (summary_validate_errors self bullets_text keywords (Some context)) in Hp.
  apply app_eq_nil in Hp. destruct Hp as [Hp _].
  apply (summary_semantic_errors_nil _ (Some context)) in Hp.
  rewrite Forall_forall in Hp. exact (Hrej (Hp bullet Hin)).
Qed.

(** X12.  For a Staff or Lead role whose metadata does not say that
    leadership is required, the guidance given to the generator encourages
    leadership language ([led], [managed], [directed]), while the context
    built from the same metadata makes the validator fail every summary one
    of whose bullets has one of these verbs as a whole word. *)
Theorem staff_lead_guidance_against_validation
        (jd_metadata : JDAnalyzer.JobDescriptionMetadata)
        (self : SummaryValidator.SummaryValidator) (bullets_text : str)
        (keywords : list str) (bullet : str) (verb : string) :
  In (JDAnalyzer.role_level jd_metadata) [lit "Staff"; lit "Lead"] ->
  JDAnalyzer.leadership_required jd_metadata = false ->
  In verb ["led"; "managed"; "directed"]%string ->
  In bullet (SummaryValidator._parse_bullets bullets_text) ->
  occurs_as_whole_word (lit verb) (lower bullet) ->
  JDAnalyzer.get_leadership_guidance jd_metadata
  = lit "Leadership language encouraged (led, managed, directed)"
  /\ SummaryValidator.passed
       (SummaryValidator.validate self bullets_text keywords
          (Some (App.validation_context jd_metadata))) = false.
Proof.
  intros Hrole Hreq Hverb Hin Hocc. split.
  - unfold JDAnalyzer.get_leadership_guidance. apply existsb_eqs in Hrole. rewrite Hrole, orb_true_r.
    reflexivity.
  - apply (rejected_bullet_fails self bullets_text keywords _ bullet Hin).
    apply (leadership_verb_rejected _ verb bullet); [exact Hreq| |exact Hocc].
    destruct Hverb as [<-|[<-|[<-|[]]]]; cbn; tauto.
Qed.

Lemma staff_lead_guidance_against_validation_witness :
  JDAnalyzer.get_leadership_guidance
    {| JDAnalyzer.company_names := []; JDAnalyzer.role_level := lit "Staff";
       JDAnalyzer.experience_years_min := None; JDAnalyzer.experience_years_max := None;
       JDAnalyzer.key_responsibilities := []; JDAnalyzer.leadership_required := false |}
  = lit "Leadership language encouraged (led, managed, directed)"
  /\ SummaryValidator.passed
       (SummaryValidator.validate SummaryValidator.default_settings
          (lit "\item Engineer who led 3 teams") []
          (Some (App.validation_context
             {| JDAnalyzer.company_names := []; JDAnalyzer.role_level := lit "Staff";
                JDAnalyzer.experience_years_min := None;
                JDAnalyzer.experience_years_max := None;
                JDAnalyzer.key_responsibilities := [];
                JDAnalyzer.leadership_required := false |}))) = false.
Proof.
  apply (staff_lead_guidance_against_validation _ _ _ _
           (lit "Engineer who led 3 teams") "led"%string).
  - left. reflexivity.
  - reflexivity.
  - left. reflexivity.
  - left. reflexivity.
  - exists (lit "engineer who "), (lit " 3 teams"). repeat split.
Defined.

(** ** The suggested years of experience *)

(** X13.  For metadata whose role level is one of the five levels (as the
    validator of the field ensures): when both bounds are present and
    [0 < min <= max] the suggested experience is [<y>+] for a [y] between
    the two bounds; when only the minimum is present and not zero it is
    [<min>+]; when the minimum is absent or zero it is the default of the
    role level, [2+] for Junior, [4+] for Mid, [7+] for Senior, [10+] for
    Staff and [12+] for Lead, so that the default [5+] of the lookup is
    never used. *)
Theorem suggested_years_spec (jd_metadata : JDAnalyzer.JobDescriptionMetadata) :
  In (JDAnalyzer.role_level jd_metadata) valid_levels ->
  (forall mn mx,
      JDAnalyzer.experience_years_min jd_metadata = Some mn ->
      JDAnalyzer.experience_years_max jd_metadata = Some mx ->
      (0 < mn <= mx)%Z ->
      exists y, JDAnalyzer.get_suggested_experience_years jd_metadata = str_of_Z y ++ lit "+"
                /\ (mn <= y <= mx)%Z)
  /\ (forall mn,
        JDAnalyzer.experience_years_min jd_metadata = Some mn -> mn <> 0%Z ->
        JDAnalyzer.truthy (JDAnalyzer.experience_years_max jd_metadata) = false ->
        JDAnalyzer.get_suggested_experience_years jd_metadata = str_of_Z mn ++ lit "+")
  /\ (JDAnalyzer.truthy (JDAnalyzer.experience_years_min jd_metadata) = false ->
      In (JDAnalyzer.role_level jd_metadata,
          JDAnalyzer.get_suggested_experience_years jd_metadata)
         [ (lit "Junior", lit "2+"); (lit "Mid", lit "4+"); (lit "Senior", lit "7+");
           (lit "Staff", lit "10+"); (lit "Lead", lit "12+") ]).
Proof.
  intro Hrole. split; [|split].
  - intros mn mx Hmn Hmx Hb. unfold JDAnalyzer.get_suggested_experience_years.
    rewrite Hmn, Hmx. cbn [JDAnalyzer.truthy].
    destruct (Z.eqb_spec mn 0) as [E|_]; [lia|].
    destruct (Z.eqb_spec mx 0) as [E|_]; [lia|]. cbn [negb andb].
    exists ((mn + mx) / 2)%Z. split; [reflexivity|].
    split; [apply Z.div_le_lower_bound; lia|apply Z.div_le_upper_bound; lia].
  - intros mn Hmn Hnz Hmax. unfold JDAnalyzer.get_suggested_experience_years.
    rewrite Hmax, Hmn. cbn [JDAnalyzer.truthy].
    destruct (Z.eqb_spec mn 0) as [E|_]; [contradiction|]. reflexivity.
  - intro Hmin. unfold JDAnalyzer.get_suggested_experience_years. rewrite Hmin. cbn [andb].
    destruct Hrole as [<-|[<-|[<-|[<-|[<-|[]]]]]]; cbn; tauto.
Qed.

Lemma suggested_years_spec_witness :
  exists y,
    JDAnalyzer.get_suggested_experience_years
      {| JDAnalyzer.company_names := []; JDAnalyzer.role_level := lit "Mid";
         JDAnalyzer.experience_years_min := Some 3%Z;
         JDAnalyzer.experience_years_max := Some 6%Z;
         JDAnalyzer.key_responsibilities := []; JDAnalyzer.leadership_required := false |}
    = str_of_Z y ++ lit "+"
    /\ (3 <= y <= 6)%Z.
Proof.
  apply (proj1 (suggested_years_spec
                  {| JDAnalyzer.company_names := []; JDAnalyzer.role_level := lit "Mid";
                     JDAnalyzer.experience_years_min := Some 3%Z;
                     JDAnalyzer.experience_years_max := Some 6%Z;
                     JDAnalyzer.key_responsibilities := [];
                     JDAnalyzer.leadership_required := false |}
                  (or_intror (or_introl eq_refl))) 3%Z 6%Z eq_refl eq_refl).
  lia.
Defined.

(** ** Literal patterns are substring tests *)

Lemma contains_app_r (p a b : str) : startswith p b = true -> contains p (a ++ b) = true.
Proof.
  intro H. apply startswith_split in H. destruct H as [b' ->]. apply contains_app_mid.
Qed.

Lemma literal_found (p s : str) : matches no_flags (lits p) s = contains p s.
Proof.
  destruct (contains p s) eqn:E.
  - apply matches_iff. apply contains_split in E. destruct E as (a & b & ->).
    exists a, (p ++ b). split; [reflexivity|].
    rewrite m_lits, startswith_app. discriminate.
  - destruct (matches no_flags (lits p) s) eqn:Hm; [|reflexivity].
    apply matches_iff in Hm. destruct Hm as (a & b & -> & Hm).
    rewrite m_lits in Hm. destruct (startswith p b) eqn:Hp; [|congruence].
    rewrite (contains_app_r p a b Hp) in E. discriminate E.
Qed.

(** X14.  [LatexParser.validate_latex_structure] is three substring tests: it accepts
    exactly the texts that contain [\documentclass], [\begin{document}] and
    [\end{document}], in whatever order. *)
Theorem validate_latex_structure_spec (latex_content : str) :
  LatexParser.validate_latex_structure latex_content
  = contains (lit "\documentclass") latex_content
    && contains (lit "\begin{document}") latex_content
    && contains (lit "\end{document}") latex_content.
Proof.
  unfold LatexParser.validate_latex_structure, LatexParser.required_elements. cbn [forallb].
  rewrite !literal_found, andb_true_r, andb_assoc. reflexivity.
Qed.

(** ** The escaping check of the summary validator *)

Lemma m_unescaped (a b : str) (k : mstate -> option mstate) :
  m no_flags SummaryValidator.unescaped_pattern (at_split a b) k
  = match b with
    | c :: b' =>
        if is_special c
           && negb (match last_char a with Some p => eqc p backslash | None => false end)
        then k (at_split (a ++ [c]) b') else None
    | [] => None
    end.
Proof.
  unfold SummaryValidator.unescaped_pattern. cbn [m m_prev at_split m_rest].
  assert (Hcls : forall c, cls_mem no_flags (map CChar (lit "%$&#_{}^~")) c = is_special c)
    by (intro c; reflexivity).
  assert (Hbs : forall c, items_mem [CChar backslash] c = eqc c backslash)
    by (intro c; unfold items_mem; cbn [existsb item_mem]; apply orb_false_r).
  assert (Hrest : match b with
                  | [] => None
                  | c0 :: rest =>
                      if xorb false (cls_mem no_flags (map CChar (lit "%$&#_{}^~")) c0)
                      then k (advance (at_split a b) c0 rest) else None
                  end
                  = match b with
                    | [] => None
                    | c :: b' => if is_special c then k (at_split (a ++ [c]) b') else None
                    end).
  { destruct b as [|c b']; [reflexivity|]. cbn [xorb]. rewrite Hcls, advance_at_split.
    reflexivity. }
  destruct (last_char a) as [p|].
  - rewrite Hbs. destruct (eqc p backslash); cbn [negb].
    + destruct b as [|c b']; [reflexivity|]. rewrite andb_false_r. reflexivity.
    + rewrite Hrest. destruct b as [|c b']; [reflexivity|]. rewrite andb_true_r.
      reflexivity.
  - cbn [negb]. rewrite Hrest. destruct b as [|c b']; [reflexivity|].
    rewrite andb_true_r. reflexivity.
Qed.

Lemma has_unescaped_split (b : str) :
  forall a,
    has_unescaped (last_char a) b = true
    <-> exists a' c b',
          b = a' ++ c :: b'
          /\ is_special c
             && negb (match last_char (a ++ a') with
                      | Some p => eqc p backslash | None => false end) = true.
Proof.
  induction b as [|x b IH]; intro a; cbn [has_unescaped].
  - split; [discriminate|]. intros (a' & c & b' & H & _). destruct a'; discriminate H.
  - rewrite orb_true_iff, <- (last_char_snoc a x), (IH (a ++ [x])). split.
    + intros [H|(a' & c & b' & -> & H)].
      * exists [], x, b. rewrite app_nil_r. split; [reflexivity|exact H].
      * exists (x :: a'), c, b'. split; [reflexivity|].
        rewrite <- app_assoc in H. exact H.
    + intros (a' & c & b' & Hb & H). destruct a' as [|y a'].
      * cbn in Hb. injection Hb as <- <-. left. rewrite app_nil_r in H. exact H.
      * cbn in Hb. injection Hb as <- ->. right. exists a', c, b'.
        split; [reflexivity|]. rewrite <- app_assoc. exact H.
Qed.

(** X15.  [_check_latex_escaping] accepts a text exactly when each of its
    characters [% $ & # _ { } ^ ~] follows a backslash. *)
Theorem check_latex_escaping_spec (text : str) :
  SummaryValidator._check_latex_escaping text = negb (has_unescaped None text).
Proof.
  unfold SummaryValidator._check_latex_escaping. f_equal.
  destruct (has_unescaped None text) eqn:E.
  - apply matches_iff. apply (has_unescaped_split text []) in E.
    destruct E as (a' & c & b' & -> & H). exists a', (c :: b').
    split; [reflexivity|]. rewrite m_unescaped. cbn [app] in H. rewrite H. discriminate.
  - destruct (matches no_flags SummaryValidator.unescaped_pattern text) eqn:Hm;
      [|reflexivity].
    apply matches_iff in Hm. destruct Hm as (a & b & -> & Hm).
    rewrite m_unescaped in Hm. destruct b as [|c b']; [congruence|].
    destruct (is_special c && _) eqn:H; [|congruence].
    assert (E' : has_unescaped None (a ++ c :: b') = true).
    { apply (has_unescaped_split (a ++ c :: b') []). exists a, c, b'.
      split; [reflexivity|exact H]. }
    rewrite E' in E. discriminate E.
Qed.

(** ** White space at the two ends *)

Lemma lstrip_split (s : str) :
  exists ws, s = ws ++ lstrip s /\ forallb isspace ws = true.
Proof.
  induction s as [|c s IH]; [exists []; split; reflexivity|].
  cbn [lstrip]. destruct (isspace c) eqn:E.
  - destruct IH as (ws & Hs & Hws). exists (c :: ws). split.
    + cbn. rewrite <- Hs. reflexivity.
    + cbn. rewrite E. exact Hws.
  - exists []. split; reflexivity.
Qed.

Lemma rstrip_fixed (s : str) :
  match last_char s with Some c => isspace c = false | None => True end ->
  rstrip s = s.
Proof.
  unfold rstrip, last_char. intro H.
  destruct (rev s) as [|c r] eqn:E.
  - cbn. apply (f_equal (@rev ascii)) in E. rewrite rev_involutive in E. symmetry. exact E.
  - cbn [hd_error] in H. cbn [lstrip]. rewrite H, <- E. apply rev_involutive.
Qed.

Lemma rstrip_last (s : str) :
  match last_char (rstrip s) with Some c => isspace c = false | None => True end.
Proof.
  unfold rstrip, last_char. rewrite rev_involutive.
  destruct (lstrip (rev s)) as [|c r] eqn:E; [exact Logic.I|].
  cbn. exact (lstrip_head _ _ _ E).
Qed.

Lemma strip_last (s : str) :
  match last_char (strip s) with Some c => isspace c = false | None => True end.
Proof. apply rstrip_last. Qed.

(** ** The prefix pattern on a line that starts with [\item] *)

Lemma m_bol (fl : flags) (st : mstate) (k : mstate -> option mstate) :
  m fl Bol st k = if m_pos st =? 0 then k st else None.
Proof. reflexivity. Qed.

Lemma search_at_bol_none (fl : flags) (r : regex) (rest : str) :
  forall must_advance pos prev,
    0 < pos -> search_at fl (Cat Bol r) must_advance pos prev rest = None.
Proof.
  induction rest as [|c rest IH]; intros ma pos prev Hpos; cbn [search_at];
    rewrite m_Cat, m_bol; cbn [m_pos];
    destruct (Nat.eqb_spec pos 0) as [E|_]; try lia; [reflexivity|].
  apply IH. lia.
Qed.

Lemma greedy_space_max (k : mstate -> option mstate) (ws : str) :
  forall a t,
    forallb isspace ws = true ->
    match t with c :: _ => isspace c = false | [] => True end ->
    k (at_split (a ++ ws) t) <> None ->
    m no_flags (Star Greedy space) (at_split a (ws ++ t)) k
    = k (at_split (a ++ ws) t).
Proof.
  induction ws as [|c ws IH]; intros a t Hws Ht Hk.
  - rewrite (app_nil_r a) in *. cbn [app m m_rest at_split star_loop].
    fold (at_split a t). rewrite m_space.
    destruct t as [|x t]; [reflexivity|]. rewrite Ht. reflexivity.
  - cbn [forallb] in Hws. apply andb_true_iff in Hws. destruct Hws as [Hc Hws].
    cbn [app m m_rest at_split star_loop]. fold (at_split a (c :: ws ++ t)).
    rewrite m_space, Hc.
    replace (m_pos (at_split (a ++ [c]) (ws ++ t)) =? m_pos (at_split a (c :: ws ++ t)))
      with false
      by (symmetry; apply Nat.eqb_neq; cbn; rewrite length_app; cbn; lia).
    change (star_loop (m no_flags space) Greedy k (length (c :: ws ++ t))
              (at_split (a ++ [c]) (ws ++ t)))
      with (m no_flags (Star Greedy space) (at_split (a ++ [c]) (ws ++ t)) k).
    replace (a ++ c :: ws) with ((a ++ [c]) ++ ws) in * by (rewrite <- app_assoc; reflexivity).
    rewrite (IH (a ++ [c]) t Hws Ht Hk).
    destruct (k (at_split ((a ++ [c]) ++ ws) t)); [reflexivity|congruence].
Qed.

Lemma item_prefix_match (ws t : str) :
  forallb isspace ws = true ->
  match t with c :: _ => isspace c = false | [] => True end ->
  m no_flags App.item_prefix_pattern (MState 0 None (lit "\item" ++ ws ++ t) [])
    (fun st => Some st)
  = Some (at_split (lit "\item" ++ ws) t).
Proof.
  intros Hws Ht. unfold App.item_prefix_pattern. cbn [cats fold_right].
  rewrite m_Cat, m_bol. cbn [m_pos Nat.eqb].
  unfold Plus. rewrite !m_Cat.
  change (MState 0 None (lit "\item" ++ ws ++ t) [])
    with (at_split [] (backslash :: lit "item" ++ ws ++ t)).
  rewrite m_chr. change (eqc backslash backslash) with true. cbv iota.
  cbn [app].
  change (m no_flags (Star Greedy (Chr backslash))
            (at_split [backslash] (lit "item" ++ ws ++ t)) ?k)
    with (star_loop (m no_flags (Chr backslash)) Greedy k
            (S (length (lit "item" ++ ws ++ t)))
            (at_split [backslash] (lit "item" ++ ws ++ t))).
  cbn [star_loop]. rewrite m_chr.
  change (lit "item" ++ ws ++ t) with ("i"%char :: lit "tem" ++ ws ++ t) at 1.
  assert (E : eqc backslash "i"%char = false) by reflexivity.
  cbv iota. rewrite E. cbn [orelse].
  rewrite !m_Cat, m_lits, startswith_app, skipn_length_app.
  change ([backslash] ++ lit "item") with (lit "\item").
  cbv beta. rewrite ?m_Cat.
  rewrite (greedy_space_max _ ws (lit "\item") t Hws Ht); [reflexivity|discriminate].
Qed.

Lemma search_at_here (fl : flags) (r : regex) (must_advance : bool) (pos : nat)
      (prev : option ascii) (rest : str) (st : mstate) :
  m fl r (MState pos prev rest []) (accept must_advance pos) = Some st ->
  search_at fl r must_advance pos prev rest = Some (RMatch pos (m_pos st) (m_caps st)).
Proof.
  intro H. destruct rest; cbn [search_at]; rewrite H; reflexivity.
Qed.

(** On a line that starts with [\item] the substitution removes [\item]
    and the white space after it. *)
Lemma sub_empty_item_line (ws t : str) :
  forallb isspace ws = true ->
  match t with c :: _ => isspace c = false | [] => True end ->
  App.sub_empty no_flags App.item_prefix_pattern (lit "\item" ++ ws ++ t) = t.
Proof.
  intros Hws Ht. unfold App.sub_empty, all_matches.
  set (s := lit "\item" ++ ws ++ t).
  replace (2 * length s + 2) with (S (S (2 * length s))) by lia.
  cbn [iter_matches firstn skipn last_char rev hd_error].
  rewrite (search_at_here no_flags App.item_prefix_pattern false 0 None s
             (at_split (lit "\item" ++ ws) t))
    by (exact (item_prefix_match ws t Hws Ht)).
  cbn [r_end r_start m_pos m_caps at_split].
  assert (Hpos : 0 < length (lit "\item" ++ ws)) by (cbn; lia).
  unfold App.item_prefix_pattern at 1. cbn [cats fold_right].
  rewrite search_at_bol_none by exact Hpos.
  cbn [splice r_start r_end]. unfold expand. cbn [flat_map app].
  unfold slice. cbn [Nat.sub firstn app]. subst s.
  rewrite app_assoc. apply skipn_length_app.
Qed.

Lemma parse_loops_agree (lines : list str) :
  forall acc,
    fold_left (fun bullets line =>
                 let line := strip line in
                 if startswith (lit "\item") line || startswith (lit "\item") line then
                   let bullet := App.sub_empty no_flags App.item_prefix_pattern line in
                   if nonempty bullet then bullets ++ [bullet] else bullets
                 else bullets)
              lines (filter nonempty acc)
    = filter nonempty
        (fold_left (fun bullets line =>
                      let line := strip line in
                      if startswith (lit "\item") line
                      then bullets ++ [strip (skipn 5 line)]
                      else bullets)
                   lines acc).
Proof.
  induction lines as [|line lines IH]; intro acc; [reflexivity|].
  cbn [fold_left]. cbv zeta. rewrite orb_diag.
  destruct (startswith (lit "\item") (strip line)) eqn:E; [|apply IH].
  rewrite <- IH. f_equal.
  destruct (startswith_split _ _ E) as [rest Hrest].
  destruct (lstrip_split rest) as (ws & Hsplit & Hws).
  assert (Ht : match lstrip rest with c :: _ => isspace c = false | [] => True end).
  { destruct (lstrip rest) as [|c r] eqn:El; [exact Logic.I|]. exact (lstrip_head _ _ _ El). }
  assert (Hsub : App.sub_empty no_flags App.item_prefix_pattern (strip line) = lstrip rest).
  { rewrite Hrest. rewrite Hsplit at 1. exact (sub_empty_item_line ws (lstrip rest) Hws Ht). }
  assert (Hval : strip (skipn 5 (strip line)) = lstrip rest).
  { rewrite Hrest. change 5 with (length (lit "\item")). rewrite skipn_length_app.
    unfold strip at 1. apply rstrip_fixed.
    pose proof (strip_last line) as Hl. rewrite Hrest, Hsplit in Hl.
    rewrite !last_char_app_or in Hl.
    destruct (last_char (lstrip rest)); [exact Hl|exact Logic.I]. }
  rewrite Hsub, Hval, filter_app. cbn [filter].
  destruct (nonempty (lstrip rest)); [reflexivity|symmetry; apply app_nil_r].
Qed.

(** X16.  The bullets that the page takes from a generated summary are
    the bullets that the summary validator checks, without the empty
    ones. *)
Theorem parse_item_bullets_agrees (text : str) :
  App.parse_item_bullets text = filter nonempty (SummaryValidator._parse_bullets text).
Proof.
  unfold App.parse_item_bullets, SummaryValidator._parse_bullets.
  destruct text as [|c text]; [reflexivity|]. cbn [nonempty negb].
  exact (parse_loops_agree (split_on nl (strip (c :: text))) []).
Qed.

(** ** One substitution of a character that does not follow a backslash *)

Lemma m_unescaped_char (c : ascii) (a b : str) (k : mstate -> option mstate) :
  m no_flags (LatexParser.unescaped_char c) (at_split a b) k
  = match b with
    | x :: b' =>
        if eqc c x && negb (after_backslash (last_char a))
        then k (at_split (a ++ [x]) b') else None
    | [] => None
    end.
Proof.
  unfold LatexParser.unescaped_char. cbn [m m_prev at_split m_rest].
  assert (Hbs : forall p, items_mem [CChar backslash] p = eqc p backslash)
    by (intro p; unfold items_mem; cbn [existsb item_mem]; apply orb_false_r).
  assert (Hrest : match b with
                  | [] => None
                  | x :: rest =>
                      if chr_match no_flags c x
                      then k (advance (at_split a b) x rest) else None
                  end
                  = match b with
                    | [] => None
                    | x :: b' => if eqc c x then k (at_split (a ++ [x]) b') else None
                    end).
  { destruct b as [|x b']; [reflexivity|]. rewrite advance_at_split. reflexivity. }
  unfold after_backslash.
  destruct (last_char a) as [p|].
  - rewrite Hbs. destruct (eqc p backslash); cbn [negb].
    + destruct b as [|x b']; [reflexivity|]. rewrite andb_false_r. reflexivity.
    + rewrite Hrest. destruct b as [|x b']; [reflexivity|]. rewrite andb_true_r.
      reflexivity.
  - cbn [negb]. rewrite Hrest. destruct b as [|x b']; [reflexivity|].
    rewrite andb_true_r. reflexivity.
Qed.

Lemma search_unescaped_char (c : ascii) (b : str) :
  forall a,
    search_at no_flags (LatexParser.unescaped_char c) false (length a) (last_char a) b
    = match first_unescaped c (last_char a) b with
      | Some (pre, post) =>
          Some (RMatch (length (a ++ pre)) (S (length (a ++ pre))) [])
      | None => None
      end.
Proof.
  induction b as [|x b IH]; intro a; cbn [search_at first_unescaped].
  - change (MState (length a) (last_char a) [] []) with (at_split a []).
    rewrite m_unescaped_char. reflexivity.
  - change (MState (length a) (last_char a) (x :: b) []) with (at_split a (x :: b)).
    rewrite m_unescaped_char.
    destruct (eqc c x && negb (after_backslash (last_char a))).
    + cbn [accept andb at_split m_pos m_caps]. rewrite app_nil_r, length_app.
      cbn [length]. rewrite Nat.add_1_r. reflexivity.
    + replace (S (length a)) with (length (a ++ [x]))
        by (rewrite length_app; cbn; lia).
      rewrite <- (last_char_snoc a x), IH, last_char_snoc.
      destruct (first_unescaped c (Some x) b) as [[pre post]|]; [|reflexivity].
      rewrite <- app_assoc. reflexivity.
Qed.

Lemma first_unescaped_split (c : ascii) (b : str) :
  forall prev pre post,
    first_unescaped c prev b = Some (pre, post) -> b = pre ++ c :: post.
Proof.
  induction b as [|x b IH]; intros prev pre post H; cbn [first_unescaped] in H;
    [discriminate H|].
  destruct (eqc c x && negb (after_backslash prev)) eqn:E.
  - injection H as <- <-. apply andb_true_iff in E. destruct E as [E _].
    apply Ascii.eqb_eq in E. subst x. reflexivity.
  - destruct (first_unescaped c (Some x) b) as [[pre' post']|] eqn:E'; [|discriminate H].
    injection H as <- <-. cbn. f_equal. exact (IH _ _ _ E').
Qed.

Lemma escape_scan_first (c : ascii) (rep : str) (b : str) :
  forall prev,
    escape_scan [(c, rep)] prev b
    = match first_unescaped c prev b with
      | Some (pre, post) => pre ++ rep ++ escape_scan [(c, rep)] (Some c) post
      | None => b
      end.
Proof.
  induction b as [|x b IH]; intro prev; cbn [escape_scan first_unescaped rule_for];
    [reflexivity|].
  destruct (eqc c x) eqn:E; cbn [andb].
  - apply Ascii.eqb_eq in E. subst x.
    destruct (after_backslash prev); cbn [negb].
    + rewrite IH. destruct (first_unescaped c (Some c) b) as [[pre post]|]; reflexivity.
    + reflexivity.
  - rewrite IH. destruct (first_unescaped c (Some x) b) as [[pre post]|]; reflexivity.
Qed.

(** The matches of one pass, spliced with a constant replacement. *)
Lemma splice_unescaped_char (c : ascii) (rep : str) (f : rmatch -> str) :
  (forall mt, f mt = rep) ->
  forall fuel a b,
    length b < fuel ->
    splice (a ++ b) (length a)
           (iter_matches fuel no_flags (LatexParser.unescaped_char c) (a ++ b) None (length a) false) f
    = escape_scan [(c, rep)] (last_char a) b.
Proof.
  intro Hf. induction fuel as [|fuel IH]; intros a b Hlen; [lia|].
  cbn [iter_matches]. rewrite firstn_length_app, skipn_length_app.
  rewrite search_unescaped_char, escape_scan_first.
  destruct (first_unescaped c (last_char a) b) as [[pre post]|] eqn:E.
  - pose proof (first_unescaped_split c b _ _ _ E) as Hb.
    cbn [splice r_start r_end]. rewrite Hf.
    replace (S (length (a ++ pre)) =? length (a ++ pre)) with false
      by (symmetry; apply Nat.eqb_neq; lia).
    assert (Hs : a ++ b = (a ++ pre ++ [c]) ++ post).
    { rewrite Hb, <- !app_assoc. reflexivity. }
    assert (Hl : S (length (a ++ pre)) = length (a ++ pre ++ [c])).
    { rewrite !length_app. cbn. lia. }
    assert (Hslice : slice (length a) (length (a ++ pre)) (a ++ b) = pre).
    { rewrite Hb, length_app. apply slice_middle. }
    assert (Hlast : last_char (a ++ pre ++ [c]) = Some c).
    { rewrite app_assoc. apply last_char_snoc. }
    rewrite Hslice. f_equal. f_equal.
    rewrite Hl, Hs, (IH (a ++ pre ++ [c]) post), Hlast; [reflexivity|].
    rewrite Hb, length_app in Hlen. cbn in Hlen. lia.
  - cbn [splice]. apply skipn_length_app.
Qed.

Lemma sub_unescaped_char (c : ascii) (rep s : str) :
  parse_template (S (length rep)) 0 rep = Ok (map TLit rep) ->
  sub_template no_flags (LatexParser.unescaped_char c) 0 rep s None
  = Ok (escape_scan [(c, rep)] None s).
Proof.
  intro Hp. unfold sub_template. rewrite Hp. cbn [bind]. f_equal.
  unfold all_matches.
  apply (splice_unescaped_char c rep (expand s (map TLit rep))
           (fun mt => eq_trans (f_equal (fun l => expand s l mt)
                                        (eq_sym (app_nil_r (map TLit rep))))
                               (eq_trans (expand_lits s mt rep [])
                                         (app_nil_r rep)))
           (2 * length s + 2) [] s).
  lia.
Qed.

(** ** The passes, one after the other *)

Lemma escape_scan_nil (prev : option ascii) (s : str) : escape_scan [] prev s = s.
Proof.
  revert prev. induction s as [|x s IH]; intro prev; [reflexivity|].
  cbn [escape_scan rule_for app]. rewrite IH. reflexivity.
Qed.

Lemma escape_scan_app (rules : list (ascii * str)) (u v : str) :
  forall prev,
    escape_scan rules prev (u ++ v)
    = escape_scan rules prev u
      ++ escape_scan rules (match last_char u with Some l => Some l | None => prev end) v.
Proof.
  induction u as [|x u IH]; intro prev; [reflexivity|].
  cbn [app escape_scan]. rewrite IH, <- app_assoc. do 2 f_equal.
  change (x :: u) with ([x] ++ u). rewrite last_char_app_or.
  destruct (last_char u); reflexivity.
Qed.

Lemma escape_scan_absent (c : ascii) (rep u : str) :
  existsb (eqc c) u = false ->
  forall prev, escape_scan [(c, rep)] prev u = u.
Proof.
  induction u as [|x u IH]; intros H prev; [reflexivity|].
  cbn [existsb] in H. apply orb_false_iff in H. destruct H as [Hx Hu].
  cbn [escape_scan rule_for]. rewrite Hx. cbn [app]. rewrite (IH Hu). reflexivity.
Qed.

Lemma rule_for_app (rules more : list (ascii * str)) (x : ascii) :
  rule_for (rules ++ more) x
  = match rule_for rules x with Some r => Some r | None => rule_for more x end.
Proof.
  induction rules as [|[k r] rules IH]; [cbn; destruct (rule_for more x); reflexivity|].
  cbn [app rule_for]. destruct (eqc k x); [reflexivity|exact IH].
Qed.

Lemma rule_for_In (rules : list (ascii * str)) (x : ascii) (r : str) :
  rule_for rules x = Some r -> In (x, r) rules.
Proof.
  induction rules as [|[k r0] rules IH]; cbn [rule_for]; [discriminate|].
  destruct (eqc k x) eqn:E.
  - intros [= <-]. apply Ascii.eqb_eq in E. subst k. left. reflexivity.
  - intro H. right. exact (IH H).
Qed.

Lemma escape_scan_fuse (rules : list (ascii * str)) (c : ascii) (rep : str) :
  eqc c backslash = false ->
  rule_for rules c = None ->
  Forall (rule_before c) rules ->
  forall s po pi,
    after_backslash po = after_backslash pi ->
    escape_scan [(c, rep)] po (escape_scan rules pi s)
    = escape_scan (rules ++ [(c, rep)]) pi s.
Proof.
  intros Hc Hnone Hrules. induction s as [|x s IH]; intros po pi Hp; [reflexivity|].
  cbn [escape_scan]. rewrite rule_for_app.
  destruct (rule_for rules x) as [r|] eqn:Ex.
  - pose proof (rule_for_In rules x r Ex) as Hin.
    rewrite Forall_forall in Hrules. destruct (Hrules _ Hin) as (Hk & Hl & Hn & Hr).
    cbn [fst snd] in Hk, Hl, Hn, Hr.
    assert (Hxc : eqc c x = false).
    { destruct (eqc c x) eqn:E; [|reflexivity]. apply Ascii.eqb_eq in E. subst x.
      rewrite Hnone in Ex. discriminate Ex. }
    destruct (after_backslash pi) eqn:Epi.
    + cbn [app escape_scan rule_for]. rewrite Hxc. cbn [app]. f_equal.
      apply IH. reflexivity.
    + rewrite escape_scan_app, (escape_scan_absent c rep r Hr). f_equal.
      destruct (last_char r) as [l|] eqn:El.
      * apply IH. cbn [after_backslash] in *. rewrite Hl, Hk. reflexivity.
      * destruct r as [|y r]; [discriminate Hn|].
        unfold last_char in El. cbn [rev] in El.
        destruct (rev r); discriminate El.
  - cbn [app escape_scan rule_for]. rewrite Hp.
    destruct (eqc c x); cbn [app]; [destruct (after_backslash pi)|];
      rewrite <- ?app_assoc; cbn [app]; f_equal; apply IH; reflexivity.
Qed.

Lemma rules_ok_split (todo : list (ascii * str)) (c : ascii) (rep : str) :
  forall done,
    rules_ok (done ++ (c, rep) :: todo) = true ->
    eqc c backslash = false
    /\ rule_for done c = None
    /\ Forall (rule_before c) done.
Proof.
  induction done as [|[k r] done IH]; cbn [app rules_ok]; intro H.
  - repeat (apply andb_true_iff in H; destruct H as [H ?]).
    apply negb_true_iff in H. repeat split; [exact H|constructor].
  - apply andb_true_iff in H. destruct H as [H Hrest].
    apply andb_true_iff in H. destruct H as [H Hall].
    apply andb_true_iff in H. destruct H as [H Hne].
    apply andb_true_iff in H. destruct H as [Hk Hl].
    apply negb_true_iff in Hk, Hl.
    destruct (IH Hrest) as (Hc & Hnone & Hbefore).
    rewrite forallb_app in Hall. apply andb_true_iff in Hall. destruct Hall as [_ Hall].
    cbn [forallb fst] in Hall. apply andb_true_iff in Hall. destruct Hall as [Hck _].
    apply andb_true_iff in Hck. destruct Hck as [Hck Hcr].
    apply negb_true_iff in Hck, Hcr.
    split; [exact Hc|]. split.
    + cbn [rule_for]. replace (eqc k c) with false; [exact Hnone|].
      symmetry. rewrite <- Hck. unfold eqc. apply Ascii.eqb_sym.
    + constructor; [|exact Hbefore]. repeat split; assumption.
Qed.

Lemma escape_passes (text : str) (todo : list (ascii * str)) :
  Forall (fun kr => parse_template (S (length (snd kr))) 0 (snd kr)
                    = Ok (map TLit (snd kr))) todo ->
  forall done,
    rules_ok (done ++ todo) = true ->
    fold_left (fun result '(char, escaped) =>
                 bind result (fun result =>
                   sub_template no_flags (LatexParser.unescaped_char char) 0 escaped result None))
              todo (Ok (escape_scan done None text))
    = Ok (escape_scan (done ++ todo) None text).
Proof.
  induction todo as [|[c rep] todo IH]; intros Hparse done Hok.
  - rewrite app_nil_r. reflexivity.
  - inversion Hparse as [|kr l Hp Hparse']; subst. cbn [snd] in Hp.
    cbn [fold_left bind]. rewrite (sub_unescaped_char c rep _ Hp).
    destruct (rules_ok_split todo c rep done Hok) as (Hc & Hnone & Hbefore).
    rewrite (escape_scan_fuse done c rep Hc Hnone Hbefore text None None eq_refl).
    replace (done ++ (c, rep) :: todo) with ((done ++ [(c, rep)]) ++ todo) in *
      by (rewrite <- app_assoc; reflexivity).
    apply IH; assumption.
Qed.

(** X17.  [LatexParser.escape_latex_special_chars] does not raise, and its nine
    substitutions come to one pass over the text: each of the characters
    [% $ & _ { } #] that does not follow a backslash gets a backslash
    before it, [^] and [~] that do not follow a backslash become [\^{}]
    and [\~{}], and every other character is kept. *)
Theorem escape_latex_special_chars_spec (text : str) :
  LatexParser.escape_latex_special_chars text = Ok (escape_scan LatexParser.special_chars None text).
Proof.
  unfold LatexParser.escape_latex_special_chars.
  rewrite <- (escape_scan_nil None text) at 1.
  apply (escape_passes text LatexParser.special_chars); [|reflexivity].
  repeat constructor.
Qed.

(** ** Escaped text under the escaping check of the summary validator *)

Lemma has_unescaped_app (u v : str) :
  forall prev,
    has_unescaped prev (u ++ v)
    = has_unescaped prev u
      || has_unescaped (match last_char u with Some l => Some l | None => prev end) v.
Proof.
  induction u as [|x u IH]; intro prev; [reflexivity|].
  cbn [app has_unescaped]. rewrite IH, <- orb_assoc. do 2 f_equal.
  change (x :: u) with ([x] ++ u). rewrite last_char_app_or.
  destruct (last_char u); reflexivity.
Qed.

Lemma escaped_char_checked (x : ascii) (po pi : option ascii) :
  eqc x "^"%char || eqc x "~"%char = false ->
  after_backslash po = after_backslash pi ->
  let e := match rule_for LatexParser.special_chars x with
           | Some rep => if after_backslash pi then [x] else rep
           | None => [x]
           end in
  has_unescaped po e = false /\ last_char e = Some x.
Proof.
  intros Hx Hp. cbv zeta.
  destruct x as [[|] [|] [|] [|] [|] [|] [|] [|]]; try discriminate Hx;
    cbn [rule_for LatexParser.special_chars eqc Ascii.eqb Bool.eqb andb];
    destruct (after_backslash pi) eqn:E; cbn [has_unescaped];
    unfold after_backslash in Hp; rewrite ?Hp; split; reflexivity.
Qed.

Lemma escaped_text_checked (s : str) :
  forall po pi,
    existsb (fun c => eqc c "^"%char || eqc c "~"%char) s = false ->
    after_backslash po = after_backslash pi ->
    has_unescaped po (escape_scan LatexParser.special_chars pi s) = false.
Proof.
  induction s as [|x s IH]; intros po pi Hs Hp; [reflexivity|].
  cbn [existsb] in Hs. apply orb_false_iff in Hs. destruct Hs as [Hx Hs].
  cbn [escape_scan]. rewrite has_unescaped_app.
  destruct (escaped_char_checked x po pi Hx Hp) as [He Hl].
  cbv zeta in He, Hl. rewrite He, Hl. cbn [orb].
  apply IH; [exact Hs|reflexivity].
Qed.

(** X18.  A text without [^] and [~] that went through
    [LatexParser.escape_latex_special_chars] is accepted by the escaping check of the
    summary validator. *)
Theorem escaped_text_passes_check (text : str) :
  existsb (fun c => eqc c "^"%char || eqc c "~"%char) text = false ->
  exists escaped,
    LatexParser.escape_latex_special_chars text = Ok escaped
    /\ SummaryValidator._check_latex_escaping escaped = true.
Proof.
  intro H. exists (escape_scan LatexParser.special_chars None text).
  split; [apply escape_latex_special_chars_spec|].
  rewrite check_latex_escaping_spec.
  rewrite (escaped_text_checked text None None H eq_refl). reflexivity.
Qed.

Lemma escaped_text_passes_check_witness :
  exists escaped,
    LatexParser.escape_latex_special_chars (lit "50% of R&D in \$ and C#") = Ok escaped
    /\ SummaryValidator._check_latex_escaping escaped = true.
Proof.
  apply escaped_text_passes_check. reflexivity.
Defined.

(** ** The score of the summary *)

Lemma keyword_bonus_bounds (k n : nat) :
  k <= n -> n <= 100 ->
  (0 <= keyword_bonus 10 (Z.of_nat k) (Z.of_nat n) <= 10)%Z.
Proof.
  intros Hk Hn. rewrite (keyword_bonus_is_floor k n Hk Hn). split.
  - apply Z.div_pos; lia.
  - apply Z.div_le_upper_bound; lia.
Qed.

Lemma summary_score_is_calculated (self : SummaryValidator.SummaryValidator)
      (bullets_text : str) (keywords : list str)
      (context : option SummaryValidator.SummaryValidationContext) :
  let r := SummaryValidator.validate self bullets_text keywords context in
  SummaryValidator.score r
  = SummaryValidator._calculate_score
      (SummaryValidator.errors r) (SummaryValidator.warnings r)
      (Z.of_nat (SummaryValidator.keywords_matched r)) (len keywords)
  /\ SummaryValidator.keywords_matched r <= length keywords.
Proof.
  cbv zeta. unfold SummaryValidator.validate.
  destruct (fold_left _ _ _) as [errs warns].
  cbn [SummaryValidator.score SummaryValidator.errors SummaryValidator.warnings
       SummaryValidator.keywords_matched].
  split; [reflexivity|apply count_keyword_matches_le].
Qed.

Lemma filter_length_le {A} (f : A -> bool) (l : list A) :
  length (filter f l) <= length l.
Proof.
  induction l as [|x l IH]; [apply le_n|]. cbn. destruct (f x); cbn; lia.
Qed.

(** X19.  With at most 100 keywords, the score of the summary is 100
    whenever there is neither an error nor a warning; and a score of 100
    is never given with an error or with more than two warnings: a summary
    that fails scores 95 at most. *)
Theorem summary_score_100 (self : SummaryValidator.SummaryValidator)
      (bullets_text : str) (keywords : list str)
      (context : option SummaryValidator.SummaryValidationContext) :
  length keywords <= 100 ->
  let r := SummaryValidator.validate self bullets_text keywords context in
  (SummaryValidator.errors r = [] -> SummaryValidator.warnings r = [] ->
   SummaryValidator.score r = 100%Z)
  /\ (SummaryValidator.score r = 100%Z ->
      SummaryValidator.errors r = [] /\ length (SummaryValidator.warnings r) <= 2)
  /\ (SummaryValidator.passed r = false -> (SummaryValidator.score r <= 95)%Z).
Proof.
  intros Hn r.
  destruct (summary_score_is_calculated self bullets_text keywords context) as [Hs Hk].
  fold r in Hs, Hk.
  pose proof (keyword_bonus_bounds _ _ Hk Hn) as Hb.
  unfold keyword_bonus in Hb.
  assert (Hp : SummaryValidator.passed r = true <-> SummaryValidator.errors r = []).
  { subst r. unfold SummaryValidator.validate.
    destruct (fold_left _ _ _) as [errs warns].
    cbn [SummaryValidator.passed SummaryValidator.errors]. apply length_zero_iff. }
  rewrite Hs. unfold SummaryValidator._calculate_score, clamp, len in *.
  set (errors := SummaryValidator.errors r) in *.
  set (warnings := SummaryValidator.warnings r) in *.
  pose proof (filter_length_le SummaryValidator.is_semantic errors) as Hf.
  set (sem := length (filter SummaryValidator.is_semantic errors)) in *.
  set (bonus := PyFloat.to_int _) in *.
  split; [|split].
  - intros He Hw. subst sem. rewrite He, Hw in *. cbn [filter length] in *. lia.
  - intro H. assert (HL : length errors = 0) by lia.
    split; [apply length_zero_iff_nil; exact HL|lia].
  - intro H. assert (HL : length errors <> 0).
    { intro E. apply length_zero_iff_nil in E. apply Hp in E. congruence. }
    lia.
Qed.

Lemma summary_score_100_witness :
  length [lit "engineer"] <= 100
  /\ (SummaryValidator.score
        (SummaryValidator.validate SummaryValidator.default_settings
           (lit "\item Engineer") [lit "engineer"] None) <= 95)%Z.
Proof.
  assert (H : length [lit "engineer"] <= 100) by (cbn; lia).
  split; [exact H|].
  apply (proj2 (proj2 (summary_score_100 SummaryValidator.default_settings
                         (lit "\item Engineer") [lit "engineer"] None H))).
  vm_compute. reflexivity.
Defined.

(** ** The matched keywords *)

Lemma get_matched_keywords_loop (text_lower : str) (keywords : list str) :
  forall matched,
    fold_left (fun matched keyword =>
                 if contains (lower keyword) text_lower then matched ++ [keyword]
                 else matched) keywords matched
    = matched ++ filter (fun keyword => contains (lower keyword) text_lower) keywords.
Proof.
  induction keywords as [|k ks IH]; intro matched; cbn [fold_left filter].
  - symmetry. apply app_nil_r.
  - rewrite IH. destruct (contains (lower k) text_lower); [|reflexivity].
    rewrite <- app_assoc. reflexivity.
Qed.

Lemma count_keyword_matches_loop (text_lower : str) (keywords : list str) :
  forall matches,
    fold_left (fun matches keyword =>
                 if contains (lower keyword) text_lower then matches + 1 else matches)
              keywords matches
    = matches + length (filter (fun keyword => contains (lower keyword) text_lower)
                               keywords).
Proof.
  induction keywords as [|k ks IH]; intro matches; cbn [fold_left filter].
  - cbn. lia.
  - rewrite IH. destruct (contains (lower k) text_lower); cbn [length]; lia.
Qed.

(** X20.  [KeywordAnalyzer.get_matched_keywords] lists, in their order, the keywords whose
    lower-case form occurs in the lower-case text, and
    [count_keyword_matches] is the length of this list; a keyword given
    twice is listed and counted twice. *)
Theorem matched_keywords_spec (text : str) (keywords : list str) :
  KeywordAnalyzer.get_matched_keywords text keywords
  = filter (fun keyword => contains (lower keyword) (lower text)) keywords
  /\ count_keyword_matches text keywords = length (KeywordAnalyzer.get_matched_keywords text keywords).
Proof.
  unfold KeywordAnalyzer.get_matched_keywords, count_keyword_matches.
  rewrite get_matched_keywords_loop, count_keyword_matches_loop. split; reflexivity.
Qed.

(** ** Every match is a word of the pattern inside the subject *)

Lemma accept_inv (must_advance : bool) (start : nat) (st x : mstate) :
  accept must_advance start st = Some x -> x = st.
Proof.
  unfold accept. destruct (must_advance && (m_pos st =? start)); [discriminate|].
  intros [= <-]. reflexivity.
Qed.

Lemma search_at_span (fl : flags) (r : regex) (b : str) :
  forall must_advance a mt,
    search_at fl r must_advance (length a) (last_char a) b = Some mt ->
    exists w, covers (a ++ b) mt w /\ in_lang fl r w.
Proof.
  induction b as [|c b IH]; intros ma a mt H; cbn [search_at] in H.
  - destruct (m fl r (MState (length a) (last_char a) [] []) (accept ma (length a)))
      as [x|] eqn:E; [|discriminate H].
    injection H as <-. apply m_factor in E.
    destruct E as (w & s1 & (Hrest & Hpos & _) & _ & HL & Hx).
    apply accept_inv in Hx. subst x. cbn in Hrest, Hpos.
    exists w. split; [|exact HL]. exists a, (m_rest s1).
    rewrite <- Hrest. repeat split. exact Hpos.
  - destruct (m fl r (MState (length a) (last_char a) (c :: b) []) (accept ma (length a)))
      as [x|] eqn:E.
    + injection H as <-. apply m_factor in E.
      destruct E as (w & s1 & (Hrest & Hpos & _) & _ & HL & Hx).
      apply accept_inv in Hx. subst x. cbn in Hrest, Hpos.
      exists w. split; [|exact HL]. exists a, (m_rest s1).
      rewrite <- Hrest. repeat split. exact Hpos.
    + replace (S (length a)) with (length (a ++ [c])) in H
        by (rewrite length_app; cbn; lia).
      rewrite <- (last_char_snoc a c) in H.
      destruct (IH _ _ _ H) as (w & Hcov & HL).
      exists w. split; [|exact HL]. rewrite <- app_assoc in Hcov. exact Hcov.
Qed.

Lemma firstn_skipn_length (s : str) (start : nat) :
  start <= length s -> length (firstn start s) = start.
Proof. intro H. rewrite length_firstn. lia. Qed.

Lemma iter_matches_cover (fl : flags) (r : regex) (s : str) :
  forall fuel limit start must_advance,
    start <= length s ->
    Forall (fun mt => exists w, covers s mt w /\ in_lang fl r w)
           (iter_matches fuel fl r s limit start must_advance).
Proof.
  induction fuel as [|fuel IH]; intros limit start ma Hstart; [constructor|].
  cbn [iter_matches].
  assert (Hstep :
    Forall (fun mt => exists w, covers s mt w /\ in_lang fl r w)
      match search_at fl r ma start (last_char (firstn start s)) (skipn start s) with
      | Some mt =>
          mt :: iter_matches fuel fl r s
                  match limit with Some n => Some (Nat.pred n) | None => None end
                  (r_end mt) (r_end mt =? r_start mt)
      | None => []
      end).
  { destruct (search_at fl r ma start (last_char (firstn start s)) (skipn start s))
      as [mt|] eqn:E; [|constructor].
    rewrite <- (firstn_skipn_length s start Hstart) in E at 1.
    apply search_at_span in E. rewrite firstn_skipn in E.
    destruct E as (w & Hcov & HL).
    constructor; [exists w; split; assumption|].
    apply IH. destruct Hcov as (a & b & Hs & _ & He).
    rewrite He, Hs, !length_app. lia. }
  destruct limit as [[|n]|]; [constructor|exact Hstep|exact Hstep].
Qed.

(** What [re.findall] returns for a pattern without groups: words of the
    pattern that occur in the subject. *)
Lemma findall0_words (fl : flags) (r : regex) (s w : str) :
  In w (findall0 fl r s) ->
  in_lang fl r w /\ exists a b, s = a ++ w ++ b.
Proof.
  unfold findall0, all_matches. intro H. apply in_map_iff in H.
  destruct H as (mt & Hw & Hin).
  pose proof (iter_matches_cover fl r s (2 * length s + 2) None 0 false (Nat.le_0_l _))
    as Hall.
  rewrite Forall_forall in Hall. destruct (Hall mt Hin) as (w' & Hcov & HL).
  destruct Hcov as (a & b & Hs & Hst & Hen).
  assert (Hg : group_or_empty s mt 0 = w').
  { unfold group_or_empty, group. rewrite Hst, Hen, Hs. apply slice_middle. }
  rewrite Hg in Hw. subst w'. split; [exact HL|]. exists a, b. exact Hs.
Qed.

(** ** Tokens *)

Lemma in_lang_token_class (w : str) :
  in_lang no_flags KeywordAnalyzer.token_class w -> forallb is_token_char w = true.
Proof.
  unfold KeywordAnalyzer.token_class. cbn [in_lang xorb]. intros (c & -> & H).
  cbn [forallb]. rewrite andb_true_r. unfold is_token_char.
  unfold cls_mem, items_mem in H. cbn [ignorecase no_flags existsb item_mem] in H.
  rewrite orb_false_r in H. apply orb_true_iff in H. destruct H as [H|H].
  - change (in_range (code "a") (code "z") c) with (in_range 97 122 c) in H.
    rewrite H. reflexivity.
  - change (in_range (code "0") (code "9") c) with (in_range 48 57 c) in H.
    rewrite H, orb_true_r. reflexivity.
Qed.

Lemma in_lang_star_forallb (fl : flags) (g : greed) (r : regex) (P : ascii -> bool) :
  (forall w, in_lang fl r w -> forallb P w = true) ->
  forall w, in_lang fl (Star g r) w -> forallb P w = true.
Proof.
  intros Hr w (ws & -> & Hws). induction Hws as [|x l Hx _ IH]; [reflexivity|].
  cbn [concat]. rewrite forallb_app, (Hr x Hx), IH. reflexivity.
Qed.

Lemma in_lang_token_run (g : greed) (w : str) :
  in_lang no_flags (Plus g KeywordAnalyzer.token_class) w -> forallb is_token_char w = true.
Proof.
  unfold Plus. intros (w1 & w2 & -> & H1 & H2).
  rewrite forallb_app, (in_lang_token_class w1 H1).
  exact (in_lang_star_forallb no_flags g KeywordAnalyzer.token_class is_token_char
           in_lang_token_class w2 H2).
Qed.

Lemma in_lang_token (w : str) :
  in_lang no_flags KeywordAnalyzer.token_pattern w -> forallb is_token_char w = true.
Proof.
  unfold KeywordAnalyzer.token_pattern. cbn [cats fold_right].
  intros (w0 & r0 & -> & H0 & w1 & r1 & -> & H1 & w2 & r2 & -> & H2
          & w3 & r3 & -> & H3 & H4).
  cbn [in_lang] in H0, H3, H4. subst w0 w3 r3. cbn [app]. rewrite app_nil_r.
  rewrite forallb_app, (in_lang_token_run Greedy w1 H1). cbn [andb].
  apply (in_lang_star_forallb no_flags Greedy
           (Cat (Chr "-") (Plus Greedy KeywordAnalyzer.token_class)) is_token_char); [|exact H2].
  intros w (u & v & -> & (c & -> & Hc) & Hv).
  cbn [app forallb]. rewrite (in_lang_token_run Greedy v Hv), andb_true_r.
  unfold chr_match in Hc. cbn [ignorecase no_flags] in Hc.
  apply Ascii.eqb_eq in Hc. subst c. reflexivity.
Qed.

Lemma lower_token_char (c : ascii) : is_token_char c = true -> lower_char c = c.
Proof.
  destruct c as [[|] [|] [|] [|] [|] [|] [|] [|]]; intro H;
    try reflexivity; discriminate H.
Qed.

Lemma lower_token (w : str) : forallb is_token_char w = true -> lower w = w.
Proof.
  induction w as [|c w IH]; intro H; [reflexivity|].
  cbn [forallb] in H. apply andb_true_iff in H. destruct H as [Hc Hw].
  cbn [lower map]. rewrite (lower_token_char c Hc). f_equal. exact (IH Hw).
Qed.

Lemma token_properties (text word : str) :
  In word (KeywordAnalyzer.tokenize_text text) ->
  forallb is_token_char word = true
  /\ 2 < length word
  /\ ~ In word KeywordAnalyzer.STOP_WORDS
  /\ contains word (lower text) = true.
Proof.
  unfold KeywordAnalyzer.tokenize_text. intro H. apply filter_In in H. destruct H as [Hin Hf].
  apply andb_true_iff in Hf. destruct Hf as [Hstop Hlen].
  apply findall0_words in Hin. destruct Hin as [HL (a & b & Hs)].
  split; [exact (in_lang_token word HL)|]. split; [apply Nat.ltb_lt; exact Hlen|].
  split.
  - intro Hs'. apply negb_true_iff in Hstop.
    assert (E : existsb (eqs word) KeywordAnalyzer.STOP_WORDS = true).
    { apply existsb_exists. exists word. split; [exact Hs'|].
      clear. induction word as [|c w IH]; [reflexivity|]. cbn. rewrite eqc_refl. exact IH. }
    rewrite E in Hstop. discriminate Hstop.
  - rewrite Hs. apply contains_app_mid.
Qed.

(** X21.  Every token of [KeywordAnalyzer.tokenize_text] is made of lower-case ASCII
    letters, digits and hyphens, has more than two characters, is not a stop
    word, and occurs in the lower-case text. *)
Theorem tokenize_text_tokens (text word : str) :
  In word (KeywordAnalyzer.tokenize_text text) ->
  forallb is_token_char word = true
  /\ 2 < length word
  /\ ~ In word KeywordAnalyzer.STOP_WORDS
  /\ contains word (lower text) = true.
Proof. exact (token_properties text word). Qed.

Lemma tokenize_text_tokens_witness :
  forallb is_token_char (lit "python") = true
  /\ 2 < length (lit "python")
  /\ ~ In (lit "python") KeywordAnalyzer.STOP_WORDS
  /\ contains (lit "python") (lower (lit "We use Python and SQL")) = true.
Proof.
  apply (tokenize_text_tokens (lit "We use Python and SQL") (lit "python")).
  vm_compute. right. left. reflexivity.
Defined.

(** ** Counting the tokens *)

Lemma eqs_refl (a : str) : eqs a a = true.
Proof. induction a as [|c a IH]; [reflexivity|]. cbn. rewrite eqc_refl. exact IH. Qed.

Lemma eqs_eq (a b : str) : eqs a b = true -> a = b.
Proof.
  revert b. induction a as [|x a IH]; intros [|y b] H; cbn in H;
    try discriminate H; [reflexivity|].
  apply andb_true_iff in H. destruct H as [Hc H]. apply Ascii.eqb_eq in Hc.
  subst y. f_equal. exact (IH b H).
Qed.

Lemma eqs_neq (a b : str) : eqs a b = false -> a <> b.
Proof. intros H ->. rewrite eqs_refl in H. discriminate H. Qed.

Lemma eqs_sym (a b : str) : eqs a b = eqs b a.
Proof.
  destruct (eqs a b) eqn:E.
  - apply eqs_eq in E. subst b. symmetry. apply eqs_refl.
  - destruct (eqs b a) eqn:E'; [|reflexivity].
    apply eqs_eq in E'. subst b. rewrite eqs_refl in E. discriminate E.
Qed.

Lemma counter_add_count (x w : str) (counts : list (str * nat)) :
  count_of w (KeywordAnalyzer.counter_add x counts)
  = if eqs x w then S (count_of w counts) else count_of w counts.
Proof.
  induction counts as [|[k c] counts IH]; cbn [KeywordAnalyzer.counter_add count_of].
  - destruct (eqs x w); reflexivity.
  - destruct (eqs k x) eqn:Ekx; cbn [count_of].
    + apply eqs_eq in Ekx. subst k. destruct (eqs x w); reflexivity.
    + rewrite IH. destruct (eqs k w) eqn:Ekw; [|reflexivity].
      apply eqs_eq in Ekw. subst k. rewrite eqs_sym, Ekx. reflexivity.
Qed.

Lemma counter_add_keys (x : str) (counts : list (str * nat)) :
  map fst (KeywordAnalyzer.counter_add x counts)
  = if existsb (eqs x) (map fst counts) then map fst counts
    else map fst counts ++ [x].
Proof.
  induction counts as [|[k c] counts IH]; cbn [KeywordAnalyzer.counter_add map fst existsb app];
    [reflexivity|].
  rewrite (eqs_sym x k). destruct (eqs k x); cbn [orb map fst]; [reflexivity|].
  rewrite IH. destruct (existsb (eqs x) (map fst counts)); reflexivity.
Qed.

Lemma counter_add_positive (x : str) (counts : list (str * nat)) :
  Forall (fun kc => 0 < snd kc) counts ->
  Forall (fun kc => 0 < snd kc) (KeywordAnalyzer.counter_add x counts).
Proof.
  induction counts as [|[k c] counts IH]; intro H; cbn [KeywordAnalyzer.counter_add].
  - repeat constructor.
  - inversion H as [|y l Hy Hl]; subst. destruct (eqs k x).
    + constructor; [cbn; lia|exact Hl].
    + constructor; [exact Hy|exact (IH Hl)].
Qed.

Lemma existsb_eqs_In (x : str) (l : list str) : existsb (eqs x) l = true <-> In x l.
Proof.
  rewrite existsb_exists. split.
  - intros (y & Hin & Hy). apply eqs_eq in Hy. subst y. exact Hin.
  - intro Hin. exists x. split; [exact Hin|apply eqs_refl].
Qed.

Lemma Counter_loop (words : list str) :
  forall counts,
    NoDup (map fst counts) ->
    let result := fold_left (fun counts word => KeywordAnalyzer.counter_add word counts) words counts in
    NoDup (map fst result)
    /\ (forall w, count_of w result = count_of w counts + occurrences w words)
    /\ (forall w, In w (map fst result) <-> In w (map fst counts) \/ In w words).
Proof.
  induction words as [|x words IH]; intros counts Hnd; cbv zeta; cbn [fold_left].
  - split; [exact Hnd|]. split; [intro w; cbn; lia|intro w; cbn [In]; tauto].
  - assert (Hnd' : NoDup (map fst (KeywordAnalyzer.counter_add x counts))).
    { rewrite counter_add_keys.
      destruct (existsb (eqs x) (map fst counts)) eqn:E; [exact Hnd|].
      apply NoDup_app; [exact Hnd|repeat constructor; intros []|].
      intros w Hw [<-|[]]. apply existsb_eqs_In in Hw. congruence. }
    destruct (IH (KeywordAnalyzer.counter_add x counts) Hnd') as (H1 & H2 & H3). cbv zeta in *.
    split; [exact H1|]. split.
    + intro w. rewrite H2, counter_add_count. unfold occurrences. cbn [filter].
      rewrite (eqs_sym w x). destruct (eqs x w); cbn [length]; lia.
    + intro w. rewrite H3, counter_add_keys.
      destruct (existsb (eqs x) (map fst counts)) eqn:E.
      * apply existsb_eqs_In in E. cbn [In]. split; [tauto|].
        intros [H|[<-|H]]; tauto.
      * rewrite in_app_iff. cbn [In]. tauto.
Qed.

Lemma count_of_entry (counts : list (str * nat)) (k : str) (c : nat) :
  NoDup (map fst counts) -> In (k, c) counts -> count_of k counts = c.
Proof.
  induction counts as [|[k0 c0] counts IH]; intros Hnd Hin; [destruct Hin|].
  cbn [map fst] in Hnd. inversion Hnd as [|y l Hy Hl]; subst.
  cbn [count_of]. destruct Hin as [[= -> ->]|Hin].
  - rewrite eqs_refl. reflexivity.
  - destruct (eqs k0 k) eqn:E; [|exact (IH Hl Hin)].
    apply eqs_eq in E. subst k0. exfalso. apply Hy.
    apply in_map_iff. exists (k, c). split; [reflexivity|exact Hin].
Qed.

(** ** The most common entries *)

Lemma insert_by_count_perm (x : str * nat) (l : list (str * nat)) :
  Permutation (KeywordAnalyzer.insert_by_count x l) (x :: l).
Proof.
  induction l as [|y l IH]; cbn [KeywordAnalyzer.insert_by_count]; [apply Permutation_refl|].
  destruct (snd x <? snd y); [|apply Permutation_refl].
  apply (Permutation_trans (l' := y :: x :: l)); [|apply perm_swap].
  apply perm_skip. exact IH.
Qed.

Lemma sort_by_count_perm (l : list (str * nat)) :
  Permutation (fold_right KeywordAnalyzer.insert_by_count [] l) l.
Proof.
  induction l as [|x l IH]; cbn [fold_right]; [apply Permutation_refl|].
  apply (Permutation_trans (insert_by_count_perm x _)). apply perm_skip. exact IH.
Qed.

Lemma insert_by_count_sorted (x : str * nat) (l : list (str * nat)) :
  StronglySorted count_ge l -> StronglySorted count_ge (KeywordAnalyzer.insert_by_count x l).
Proof.
  induction l as [|y l IH]; intro H; cbn [KeywordAnalyzer.insert_by_count].
  - repeat constructor.
  - inversion H as [|y0 l0 Hl Hy]; subst.
    destruct (Nat.ltb_spec (snd x) (snd y)) as [Hlt|Hge].
    + constructor; [exact (IH Hl)|].
      apply (Permutation_Forall (Permutation_sym (insert_by_count_perm x l))).
      constructor; [unfold count_ge; lia|exact Hy].
    + constructor; [exact H|]. constructor; [exact Hge|].
      apply (Forall_impl (P := count_ge y)); [|exact Hy].
      intros z Hz. unfold count_ge in *. lia.
Qed.

Lemma sort_by_count_sorted (l : list (str * nat)) :
  StronglySorted count_ge (fold_right KeywordAnalyzer.insert_by_count [] l).
Proof.
  induction l as [|x l IH]; cbn [fold_right]; [constructor|].
  apply insert_by_count_sorted. exact IH.
Qed.

Lemma sorted_firstn_skipn (l : list (str * nat)) :
  StronglySorted count_ge l ->
  forall n x y, In x (firstn n l) -> In y (skipn n l) -> count_ge x y.
Proof.
  intro H. induction H as [|z l Hl IH Hz]; intros n x y Hx Hy.
  - destruct n; destruct Hx.
  - destruct n as [|n]; [destruct Hx|]. cbn [firstn skipn] in Hx, Hy.
    destruct Hx as [<-|Hx]; [|exact (IH n x y Hx Hy)].
    rewrite Forall_forall in Hz. apply Hz.
    rewrite <- (firstn_skipn n l). apply in_or_app. right. exact Hy.
Qed.

Lemma NoDup_firstn {A} (n : nat) (l : list A) : NoDup l -> NoDup (firstn n l).
Proof.
  intro H. rewrite <- (firstn_skipn n l) in H. exact (NoDup_app_remove_r _ _ H).
Qed.

Lemma all_found_count (text : str) (keywords : list str) :
  (forall k, In k keywords -> contains (lower k) (lower text) = true) ->
  count_keyword_matches text keywords = length keywords.
Proof.
  intro H. unfold count_keyword_matches. rewrite count_keyword_matches_loop. cbn [Nat.add].
  f_equal. induction keywords as [|k ks IH]; [reflexivity|].
  cbn [filter]. rewrite (H k (or_introl eq_refl)). f_equal.
  apply IH. intros k' Hk'. apply H. right. exact Hk'.
Qed.

(** X22.  [KeywordAnalyzer.extract_keywords] returns at most [top_n] keywords, all
    different, each of them a token of the job description; no token that
    is left out occurs more often among the tokens than a keyword that is
    kept; and every keyword is found in the job description itself by
    [count_keyword_matches]. *)
Theorem extract_keywords_spec (job_description : str) (top_n : nat) :
  let keywords := KeywordAnalyzer.extract_keywords job_description top_n in
  let tokens := KeywordAnalyzer.tokenize_text job_description in
  length keywords <= top_n
  /\ NoDup keywords
  /\ (forall k, In k keywords -> In k tokens)
  /\ (forall k t, In k keywords -> In t tokens -> ~ In t keywords ->
        occurrences t tokens <= occurrences k tokens)
  /\ count_keyword_matches job_description keywords = length keywords.
Proof.
  cbv zeta. unfold KeywordAnalyzer.extract_keywords, KeywordAnalyzer.most_common.
  set (tokens := KeywordAnalyzer.tokenize_text job_description).
  destruct (Counter_loop tokens [] (NoDup_nil _)) as (Hnd & Hcount & Hkeys).
  cbv zeta in Hnd, Hcount, Hkeys. fold (KeywordAnalyzer.Counter tokens) in Hnd, Hcount, Hkeys.
  cbn [count_of Nat.add map In] in Hcount, Hkeys.
  set (sorted := fold_right KeywordAnalyzer.insert_by_count [] (KeywordAnalyzer.Counter tokens)).
  pose proof (sort_by_count_perm (KeywordAnalyzer.Counter tokens)) as Hperm. fold sorted in Hperm.
  pose proof (sort_by_count_sorted (KeywordAnalyzer.Counter tokens)) as Hsorted. fold sorted in Hsorted.
  assert (Hnd' : NoDup (map fst sorted)).
  { apply (Permutation_NoDup (l := map fst (KeywordAnalyzer.Counter tokens))); [|exact Hnd].
    apply Permutation_map. apply Permutation_sym. exact Hperm. }
  assert (Hin : forall k, In k (map fst (firstn top_n sorted)) -> In k tokens).
  { intros k Hk. apply in_map_iff in Hk. destruct Hk as ([k' c] & <- & Hk).
    assert (H : In (k', c) (KeywordAnalyzer.Counter tokens)).
    { apply (Permutation_in _ Hperm). rewrite <- (firstn_skipn top_n sorted).
      apply in_or_app. left. exact Hk. }
    apply (in_map fst) in H. apply Hkeys in H. destruct H as [[]|H]. exact H. }
  split; [rewrite length_map; apply firstn_le_length|].
  split; [rewrite <- firstn_map; apply NoDup_firstn; exact Hnd'|].
  split; [exact Hin|]. split.
  - intros k t Hk Ht Hnot.
    apply in_map_iff in Hk. destruct Hk as ([k' c] & Hk' & Hk). cbn [fst] in Hk'. subst k'.
    assert (Htk : In t (map fst sorted)).
    { apply (Permutation_in (l := map fst (KeywordAnalyzer.Counter tokens))).
      - apply Permutation_map. apply Permutation_sym. exact Hperm.
      - apply Hkeys. right. exact Ht. }
    apply in_map_iff in Htk. destruct Htk as ([t' c'] & Ht' & Htk). cbn [fst] in Ht'.
    subst t'. rewrite <- (firstn_skipn top_n sorted) in Htk.
    apply in_app_or in Htk. destruct Htk as [Htk|Htk].
    + exfalso. apply Hnot. apply in_map_iff. exists (t, c'). split; [reflexivity|exact Htk].
    + pose proof (sorted_firstn_skipn sorted Hsorted top_n _ _ Hk Htk) as Hge.
      unfold count_ge in Hge. cbn [snd] in Hge.
      assert (Hc : count_of k (KeywordAnalyzer.Counter tokens) = c).
      { apply (count_of_entry _ _ _ Hnd). apply (Permutation_in _ Hperm).
        rewrite <- (firstn_skipn top_n sorted). apply in_or_app. left. exact Hk. }
      assert (Hc' : count_of t (KeywordAnalyzer.Counter tokens) = c').
      { apply (count_of_entry _ _ _ Hnd). apply (Permutation_in _ Hperm).
        rewrite <- (firstn_skipn top_n sorted). apply in_or_app. right. exact Htk. }
      rewrite <- !Hcount, Hc, Hc'. exact Hge.
  - apply all_found_count. intros k Hk. apply Hin in Hk.
    destruct (token_properties job_description k Hk) as (Hchars & _ & _ & Hc).
    rewrite (lower_token k Hchars). exact Hc.
Qed.

(** ** The run of the matcher behind each match *)

Lemma search_at_run (fl : flags) (r : regex) (b : str) :
  forall must_advance a mt,
    search_at fl r must_advance (length a) (last_char a) b = Some mt ->
    run_of fl r (a ++ b) mt.
Proof.
  induction b as [|c b IH]; intros ma a mt H; cbn [search_at] in H.
  - destruct (m fl r (MState (length a) (last_char a) [] []) (accept ma (length a)))
      as [x|] eqn:E; [|discriminate H].
    injection H as <-. exists a, [], ma, x. repeat split. exact E.
  - destruct (m fl r (MState (length a) (last_char a) (c :: b) []) (accept ma (length a)))
      as [x|] eqn:E.
    + injection H as <-. exists a, (c :: b), ma, x. repeat split. exact E.
    + replace (S (length a)) with (length (a ++ [c])) in H
        by (rewrite length_app; cbn; lia).
      rewrite <- (last_char_snoc a c) in H.
      apply IH in H. rewrite <- app_assoc in H. exact H.
Qed.

Lemma iter_matches_runs (fl : flags) (r : regex) (s : str) :
  forall fuel limit start must_advance,
    start <= length s ->
    Forall (run_of fl r s) (iter_matches fuel fl r s limit start must_advance).
Proof.
  induction fuel as [|fuel IH]; intros limit start ma Hstart; [constructor|].
  cbn [iter_matches].
  assert (Hstep :
    Forall (run_of fl r s)
      match search_at fl r ma start (last_char (firstn start s)) (skipn start s) with
      | Some mt =>
          mt :: iter_matches fuel fl r s
                  match limit with Some n => Some (Nat.pred n) | None => None end
                  (r_end mt) (r_end mt =? r_start mt)
      | None => []
      end).
  { destruct (search_at fl r ma start (last_char (firstn start s)) (skipn start s))
      as [mt|] eqn:E; [|constructor].
    assert (Hlen : length (firstn start s) = start) by (rewrite length_firstn; lia).
    rewrite <- Hlen in E at 1.
    pose proof E as E'. apply search_at_run in E. rewrite firstn_skipn in E.
    constructor; [exact E|]. apply IH.
    apply search_at_span in E'. rewrite firstn_skipn in E'.
    destruct E' as (w & (a & b & Hs & _ & He) & _).
    rewrite He, Hs, !length_app. lia. }
  destruct limit as [[|n]|]; [constructor|exact Hstep|exact Hstep].
Qed.

Lemma all_matches_runs (fl : flags) (r : regex) (s : str) (limit : option nat) :
  Forall (run_of fl r s) (all_matches fl r s limit).
Proof. apply iter_matches_runs. apply Nat.le_0_l. Qed.

(** ** A lazy [.*?] stops at the first point where the rest matches *)

Lemma lazy_any_minimal (fl : flags) (k : mstate -> option mstate) :
  forall n st x,
    star_loop (m fl Any) Lazy k n st = Some x ->
    exists w s1,
      reaches st w s1 /\ m_caps s1 = m_caps st /\ k s1 = Some x
      /\ forall w1 w2, w = w1 ++ w2 -> w2 <> [] ->
           k (state_after st w1 (w2 ++ m_rest s1)) = None.
Proof.
  induction n as [|n IH]; intros st x H; cbn [star_loop] in H.
  - exists [], st. split; [apply reaches_refl|]. split; [reflexivity|].
    split; [exact H|]. intros w1 w2 Hw Hw2. destruct w1; destruct w2; try discriminate Hw.
    congruence.
  - unfold orelse in H. destruct (k st) as [y|] eqn:Ek.
    + injection H as <-. exists [], st. split; [apply reaches_refl|].
      split; [reflexivity|]. split; [exact Ek|].
      intros w1 w2 Hw Hw2. destruct w1; destruct w2; try discriminate Hw. congruence.
    + cbn [m] in H. destruct (m_rest st) as [|c rest] eqn:Hrest; [discriminate H|].
      destruct (dotall fl || negb (eqc c nl)); [|discriminate H].
      replace (m_pos (advance st c rest) =? m_pos st) with false in H
        by (symmetry; apply Nat.eqb_neq; cbn; lia).
      apply IH in H. destruct H as (w & s1 & Hr & Hc & Hk & Hmin).
      exists (c :: w), s1.
      split; [exact (reaches_trans _ _ _ [c] w (reaches_advance st c rest Hrest) Hr)|].
      split; [exact Hc|]. split; [exact Hk|].
      intros w1 w2 Hw Hw2. destruct w1 as [|c1 w1].
      * cbn [app] in Hw. subst w2. unfold state_after. cbn [length last_char rev hd_error].
        rewrite Nat.add_0_r. destruct Hr as (Hr & _).
        cbn [advance m_rest] in Hr. cbn [app]. rewrite <- Hr, <- Hrest.
        destruct st; exact Ek.
      * cbn [app] in Hw. injection Hw as <- ->.
        specialize (Hmin w1 w2 eq_refl Hw2). unfold state_after in *.
        cbn [advance m_pos m_prev m_caps] in Hmin. cbn [length].
        replace (m_pos st + S (length w1)) with (S (m_pos st) + length w1) by lia.
        change (c :: w1) with ([c] ++ w1). rewrite last_char_app_or.
        cbn [last_char rev app hd_error] in *.
        destruct (last_char w1); exact Hmin.
Qed.

(** ** What [\NAME{(.*?)}] captures *)

Lemma chr_match_refl (fl : flags) (c : ascii) : chr_match fl c c = true.
Proof. unfold chr_match. destruct (ignorecase fl); apply eqc_refl. Qed.

Lemma m_star_lazy_any (fl : flags) (st : mstate) (k : mstate -> option mstate) :
  m fl (Star Lazy Any) st k
  = star_loop (m fl Any) Lazy k (S (length (m_rest st))) st.
Proof. reflexivity. Qed.

Lemma in_lang_chr_exact (fl : flags) (p : ascii) (w : str) :
  ignorecase fl = false -> in_lang fl (Chr p) w -> w = [p].
Proof.
  intros Hfl (c & -> & Hc). unfold chr_match in Hc. rewrite Hfl in Hc.
  apply Ascii.eqb_eq in Hc. subst c. reflexivity.
Qed.

Lemma in_lang_lits_exact (fl : flags) (p w : str) :
  ignorecase fl = false -> in_lang fl (lits p) w -> w = p.
Proof.
  intros Hfl H. apply in_lang_lits in H.
  induction H as [|x c p' w' Hc _ IH]; [reflexivity|].
  unfold chr_match in Hc. rewrite Hfl in Hc. apply Ascii.eqb_eq in Hc.
  subst c. f_equal. exact IH.
Qed.

Lemma wrapper_group (fl : flags) (name : string) (s : str) (mt : rmatch) :
  ignorecase fl = false ->
  run_of fl (ExperienceValidator.wrapper_pattern name) s mt ->
  exists a w b,
    s = a ++ (backslash :: lit name ++ ["{"%char]) ++ w ++ "}"%char :: b
    /\ group_or_empty s mt 1 = w
    /\ existsb (eqc "}"%char) w = false.
Proof.
  intros Hfl (a & b & ma & x & Hs & Hst & Hm & Hen & Hcaps).
  unfold ExperienceValidator.wrapper_pattern in Hm. cbn [cats fold_right] in Hm.
  rewrite m_Cat in Hm. apply m_factor in Hm.
  destruct Hm as (w1 & s1 & (Hr1 & Hp1 & _) & Hc1 & HL1 & Hm).
  rewrite m_Cat in Hm. apply m_factor in Hm.
  destruct Hm as (w2 & s2 & (Hr2 & Hp2 & _) & Hc2 & HL2 & Hm).
  rewrite m_Cat in Hm. apply m_factor in Hm.
  destruct Hm as (w3 & s3 & (Hr3 & Hp3 & _) & Hc3 & HL3 & Hm).
  specialize (Hc1 eq_refl). specialize (Hc2 (no_groups_lits _)). specialize (Hc3 eq_refl).
  apply (in_lang_chr_exact fl _ _ Hfl) in HL1, HL3.
  apply (in_lang_lits_exact fl _ _ Hfl) in HL2. subst w1 w2 w3.
  rewrite m_Cat, m_Grp, m_star_lazy_any in Hm.
  apply lazy_any_minimal in Hm.
  destruct Hm as (w & s4 & (Hr4 & Hp4 & _) & Hc4 & Hk & Hmin).
  rewrite m_Cat in Hk. apply m_factor in Hk.
  destruct Hk as (w5 & s5 & (Hr5 & _ & _) & Hc5 & HL5 & Hk). specialize (Hc5 eq_refl).
  apply (in_lang_chr_exact fl _ _ Hfl) in HL5. subst w5.
  cbn [m] in Hk. apply accept_inv in Hk. subst x.
  cbn [m_rest m_pos m_caps set_cap] in *.
  assert (Hcaps' : r_caps mt = [(1, (m_pos s3, m_pos s4))]).
  { rewrite Hcaps, Hc5, Hc4, Hc3, Hc2, Hc1. reflexivity. }
  exists a, w, (m_rest s5).
  assert (Hs' : s = (a ++ backslash :: lit name ++ ["{"%char]) ++ w ++ "}"%char :: m_rest s5).
  { rewrite Hs, Hr1, Hr2, Hr3, Hr4, Hr5. cbn [app]. rewrite <- !app_assoc. cbn [app].
    rewrite <- !app_assoc. reflexivity. }
  split; [rewrite Hs', <- app_assoc; reflexivity|]. split.
  - unfold group_or_empty, group. rewrite Hcaps'. cbn [lookup_cap Nat.eqb].
    assert (Hpos3 : m_pos s3 = length (a ++ backslash :: lit name ++ ["{"%char])).
    { rewrite !length_app. cbn [length]. rewrite length_app. cbn [length] in *. lia. }
    rewrite Hp4, Hpos3. rewrite Hs' at 1. apply slice_middle.
  - destruct (existsb (eqc "}"%char) w) eqn:E; [|reflexivity]. exfalso.
    apply existsb_split in E. destruct E as (u & c & v & Hw & Hc).
    apply Ascii.eqb_eq in Hc. subst c.
    specialize (Hmin u ("}"%char :: v) Hw ltac:(discriminate)).
    rewrite m_Cat in Hmin. unfold state_after in Hmin.
    cbn [m set_cap m_rest m_pos m_prev m_caps app] in Hmin.
    rewrite chr_match_refl in Hmin. unfold accept in Hmin.
    unfold set_cap in Hmin. cbn [advance m_pos] in Hmin.
    replace (S (m_pos s3 + length u) =? length a) with false in Hmin
      by (symmetry; apply Nat.eqb_neq; cbn [length] in *; lia).
    destruct ma; discriminate Hmin.
Qed.

(** ** The bullets of the experience validator *)

Lemma existsb_lstrip (P : ascii -> bool) (s : str) :
  existsb P s = false -> existsb P (lstrip s) = false.
Proof.
  intro H. destruct (lstrip_split s) as (ws & Hs & _). rewrite Hs in H.
  rewrite existsb_app in H. apply orb_false_iff in H. exact (proj2 H).
Qed.

Lemma existsb_rev (P : ascii -> bool) (s : str) : existsb P (rev s) = existsb P s.
Proof.
  induction s as [|c s IH]; [reflexivity|].
  cbn [rev existsb]. rewrite existsb_app, IH. cbn [existsb].
  rewrite orb_false_r. apply orb_comm.
Qed.

Lemma existsb_strip (P : ascii -> bool) (s : str) :
  existsb P s = false -> existsb P (strip s) = false.
Proof.
  intro H. unfold strip, rstrip. rewrite existsb_rev. apply existsb_lstrip.
  rewrite existsb_rev. apply existsb_lstrip. exact H.
Qed.

Lemma sub_group1_not_found (fl : flags) (r : regex) (s : str) :
  search fl r s = None -> sub_group1 fl r s = s.
Proof.
  intro H. unfold sub_group1. rewrite (all_matches_none fl r s None H). reflexivity.
Qed.

Lemma no_match_without_brace (r : regex) (s : str) :
  (forall w, in_lang no_flags r w -> existsb (eqc "}"%char) w = true) ->
  existsb (eqc "}"%char) s = false ->
  search no_flags r s = None.
Proof.
  intros Hr Hs. destruct (search no_flags r s) as [mt|] eqn:E; [|reflexivity].
  destruct (search_span _ _ _ _ E) as (a & w & b & -> & _ & _ & HL & _).
  apply Hr in HL. rewrite !existsb_app, HL, orb_true_r in Hs. discriminate Hs.
Qed.

Lemma wrapper_word_has_brace (name : string) (w : str) :
  in_lang no_flags (ExperienceValidator.wrapper_pattern name) w ->
  existsb (eqc "}"%char) w = true.
Proof.
  unfold ExperienceValidator.wrapper_pattern. cbn [cats fold_right].
  intros (w1 & r1 & -> & _ & w2 & r2 & -> & _ & w3 & r3 & -> & _
          & w4 & r4 & -> & _ & w5 & r5 & -> & H5 & _).
  apply (in_lang_chr_exact no_flags _ _ eq_refl) in H5. subst w5.
  rewrite !existsb_app. cbn [existsb]. rewrite eqc_refl. cbn [orb].
  rewrite ?orb_true_r. reflexivity.
Qed.

Lemma textcolor_word_has_brace (w : str) :
  in_lang no_flags ExperienceValidator.textcolor_pattern w ->
  existsb (eqc "}"%char) w = true.
Proof.
  unfold ExperienceValidator.textcolor_pattern. cbn [cats fold_right].
  intros (w1 & r1 & -> & _ & w2 & r2 & -> & _ & w3 & r3 & -> & _
          & w4 & r4 & -> & _ & w5 & r5 & -> & H5 & _).
  apply (in_lang_chr_exact no_flags _ _ eq_refl) in H5. subst w5.
  rewrite !existsb_app. cbn [existsb]. rewrite eqc_refl. cbn [orb].
  rewrite ?orb_true_r. reflexivity.
Qed.

Lemma experience_bullets_loop (found : list str) :
  Forall (fun mtext => existsb (eqc "}"%char) mtext = false) found ->
  forall bullets,
    fold_left (fun bullets mtext =>
                 let content := strip mtext in
                 let content :=
                   sub_group1 no_flags (ExperienceValidator.wrapper_pattern "textit")
                              content in
                 let content :=
                   sub_group1 no_flags (ExperienceValidator.wrapper_pattern "textbf")
                              content in
                 let content :=
                   sub_group1 no_flags ExperienceValidator.textcolor_pattern content in
                 bullets ++ [content])
              found bullets
    = bullets ++ map strip found.
Proof.
  intro H. induction H as [|mtext found Hm _ IH]; intro bullets.
  - cbn. symmetry. apply app_nil_r.
  - cbn [fold_left map]. cbv zeta.
    pose proof (existsb_strip _ _ Hm) as Hs.
    rewrite (sub_group1_not_found no_flags _ (strip mtext)
               (no_match_without_brace _ _ (wrapper_word_has_brace "textit") Hs)).
    rewrite (sub_group1_not_found no_flags _ (strip mtext)
               (no_match_without_brace _ _ (wrapper_word_has_brace "textbf") Hs)).
    rewrite (sub_group1_not_found no_flags _ (strip mtext)
               (no_match_without_brace _ _ textcolor_word_has_brace Hs)).
    rewrite IH, <- app_assoc. reflexivity.
Qed.

Lemma found_items (text : str) :
  Forall (item_text text)
         (findall1 DOTALL (ExperienceValidator.wrapper_pattern "resumeItem") text).
Proof.
  unfold findall1. apply Forall_forall. intros w Hw. apply in_map_iff in Hw.
  destruct Hw as (mt & Hw & Hin).
  pose proof (all_matches_runs DOTALL (ExperienceValidator.wrapper_pattern "resumeItem")
                text None) as Hruns.
  rewrite Forall_forall in Hruns.
  destruct (wrapper_group DOTALL "resumeItem" text mt eq_refl (Hruns mt Hin))
    as (a & w' & b & Hs & Hg & Hb).
  rewrite Hg in Hw. subst w'. exists a, b. split; [exact Hs|exact Hb].
Qed.

(** X23.  Each bullet that the experience validator parses is the text
    between a [\resumeItem{] and the first closing brace after it, without
    the white space at its ends: a bullet never holds a closing brace, and
    the removal of [\textit{..}], [\textbf{..}] and [\textcolor{..}{..}]
    never changes it. *)
Theorem experience_bullets_spec (experience_text : str) :
  ExperienceValidator._parse_bullets experience_text
  = map strip (findall1 DOTALL (ExperienceValidator.wrapper_pattern "resumeItem")
                        experience_text)
  /\ Forall (fun bullet =>
               existsb (eqc "}"%char) bullet = false
               /\ exists w, item_text experience_text w /\ bullet = strip w)
            (ExperienceValidator._parse_bullets experience_text).
Proof.
  pose proof (found_items experience_text) as Hitems.
  assert (Heq : ExperienceValidator._parse_bullets experience_text
                = map strip (findall1 DOTALL
                               (ExperienceValidator.wrapper_pattern "resumeItem")
                               experience_text)).
  { unfold ExperienceValidator._parse_bullets.
    rewrite experience_bullets_loop; [reflexivity|].
    apply (Forall_impl (P := item_text experience_text)); [|exact Hitems].
    intros w (a & b & _ & Hb). exact Hb. }
  split; [exact Heq|]. rewrite Heq. apply Forall_forall. intros bullet Hin.
  apply in_map_iff in Hin. destruct Hin as (w & <- & Hw).
  rewrite Forall_forall in Hitems. pose proof (Hitems w Hw) as Hitem.
  split; [|exists w; split; [exact Hitem|reflexivity]].
  destruct Hitem as (a & b & _ & Hb). exact (existsb_strip _ _ Hb).
Qed.

(** ** The first Summary block and its replacement *)

Lemma m_lits_found (fl : flags) (p : str) :
  forall (st : mstate) (e t : str) (k : mstate -> option mstate),
    m_rest st = e ++ t ->
    Forall2 (fun x c => chr_match fl x c = true) p e ->
    m fl (lits p) st k = k (state_after st e t).
Proof.
  induction p as [|x p IH]; intros st e t k Hrest H.
  - inversion H; subst. cbn [app] in Hrest. cbn [lits cats map fold_right m].
    unfold state_after. cbn [length last_char rev hd_error]. rewrite Nat.add_0_r, <- Hrest.
    destruct st; reflexivity.
  - inversion H as [|x0 c p0 e0 Hc Hrest']; subst.
    change (lits (x :: p)) with (Cat (Chr x) (lits p)). rewrite m_Cat.
    cbn [m]. cbn [app] in Hrest. rewrite Hrest, Hc.
    rewrite (IH (advance st c (e0 ++ t)) e0 t k eq_refl Hrest').
    f_equal. unfold state_after, advance. cbn [m_pos m_prev m_caps length].
    f_equal; [lia|].
    change (c :: e0) with ([c] ++ e0). rewrite last_char_app_or.
    destruct (last_char e0); reflexivity.
Qed.

Lemma startswith_lower_Forall2 (p : str) :
  forall s, startswith (lower p) (lower s) = true ->
            exists e t, s = e ++ t
                        /\ Forall2 (fun x c => chr_match DOTALL_I x c = true) p e.
Proof.
  induction p as [|x p IH]; intros s H.
  - exists [], s. split; [reflexivity|constructor].
  - destruct s as [|c s]; [discriminate H|]. cbn [lower map startswith] in H.
    apply andb_true_iff in H. destruct H as [Hc Hs].
    destruct (IH s Hs) as (e & t & -> & He). exists (c :: e), t.
    split; [reflexivity|]. constructor; [exact Hc|exact He].
Qed.

Lemma summary_heading_ends (w : str) :
  in_lang DOTALL_I LatexParser.summary_heading w -> exists w', w = w' ++ [nl].
Proof.
  unfold LatexParser.summary_heading, summary_anchor. cbn [app cats fold_right].
  intros (w1 & r1 & -> & _ & w2 & r2 & -> & _ & w3 & r3 & -> & _ & w4 & r4 & -> & _
          & w5 & r5 & -> & _ & w6 & r6 & -> & _ & w7 & r7 & -> & _ & w8 & r8 & -> & _
          & w9 & r9 & -> & _ & w10 & r10 & -> & H10 & H11).
  cbn [in_lang] in H10, H11. subst r10. destruct H10 as (c & -> & Hc).
  unfold chr_match in Hc. cbn [ignorecase DOTALL_I] in Hc.
  assert (c = nl).
  { destruct c as [[|] [|] [|] [|] [|] [|] [|] [|]]; try discriminate Hc; reflexivity. }
  subst c. exists (w1 ++ w2 ++ w3 ++ w4 ++ w5 ++ w6 ++ w7 ++ w8 ++ w9).
  rewrite app_nil_r, <- !app_assoc. reflexivity.
Qed.

(** The first match of the pattern of [replace_summary_section]. *)
Lemma replace_summary_match (s : str) (mt : rmatch) :
  search DOTALL_I replace_summary_pattern s = Some mt ->
  exists before g1 g2 g3 rest,
    s = before ++ g1 ++ g2 ++ g3 ++ rest
    /\ r_start mt = length before
    /\ r_end mt = length (before ++ g1 ++ g2 ++ g3)
    /\ group_or_empty s mt 1 = g1
    /\ group_or_empty s mt 3 = g3
    /\ in_lang DOTALL_I LatexParser.summary_heading g1
    /\ lower g3 = lit "\end{itemize}"
    /\ (forall u v, g2 = u ++ v -> v <> [] ->
          startswith (lit "\end{itemize}") (lower (v ++ g3 ++ rest)) = false).
Proof.
  intro H. destruct (search_result _ _ s mt H) as (a & b & x & Hs & Hst & Hm & Hen & Hcaps).
  unfold replace_summary_pattern in Hm. cbn [cats fold_right] in Hm.
  fold LatexParser.summary_heading in Hm.
  rewrite m_Cat, m_Grp in Hm. apply m_factor in Hm.
  destruct Hm as (w1 & s1 & (Hr1 & Hp1 & _) & Hc1 & HL1 & Hm).
  specialize (Hc1 eq_refl).
  rewrite m_Cat, m_Grp, m_star_lazy_any in Hm. apply lazy_any_minimal in Hm.
  destruct Hm as (w2 & s2 & (Hr2 & Hp2 & _) & Hc2 & Hm & Hmin).
  rewrite m_Cat, m_Grp in Hm. apply m_factor in Hm.
  destruct Hm as (w3 & s3 & (Hr3 & Hp3 & _) & Hc3 & HL3 & Hm).
  specialize (Hc3 (no_groups_lits _)).
  cbn [m] in Hm. injection Hm as <-.
  cbn [m_rest m_pos m_caps set_cap] in *.
  assert (Hs' : s = a ++ w1 ++ w2 ++ w3 ++ m_rest s3).
  { rewrite Hs, Hr1, Hr2, Hr3. reflexivity. }
  assert (Hcaps' : r_caps mt = [ (3, (m_pos s2, m_pos s3)); (2, (m_pos s1, m_pos s2));
                                 (1, (length a, m_pos s1)) ]).
  { rewrite Hcaps. cbn [m_caps]. rewrite Hc3. cbn [m_caps]. rewrite Hc2. cbn [m_caps].
    rewrite Hc1. reflexivity. }
  exists a, w1, w2, w3, (m_rest s3).
  split; [exact Hs'|]. split; [exact Hst|].
  split; [rewrite Hen; cbn [m_pos]; rewrite !length_app; lia|].
  split; [|split; [|split; [exact HL1|split]]].
  - unfold group_or_empty, group. rewrite Hcaps'. cbn [lookup_cap Nat.eqb].
    rewrite Hp1, Hs'. apply slice_middle.
  - unfold group_or_empty, group. rewrite Hcaps'. cbn [lookup_cap Nat.eqb].
    rewrite Hp3, Hp2, Hp1.
    replace (length a + length w1 + length w2) with (length (a ++ w1 ++ w2))
      by (rewrite !length_app; lia).
    rewrite Hs'.
    replace (a ++ w1 ++ w2 ++ w3 ++ m_rest s3) with ((a ++ w1 ++ w2) ++ w3 ++ m_rest s3)
      by (rewrite <- !app_assoc; reflexivity).
    apply slice_middle.
  - apply in_lang_lits in HL3. apply Forall2_lower in HL3. exact HL3.
  - intros u v Hw Hv.
    destruct (startswith (lit "\end{itemize}") (lower (v ++ w3 ++ m_rest s3))) eqn:E;
      [|reflexivity].
    exfalso. specialize (Hmin u v Hw Hv).
    change (lit "\end{itemize}") with (lower (lit "\end{itemize}")) in E.
    apply startswith_lower_Forall2 in E. destruct E as (e & t & He & HF).
    rewrite m_Cat, m_Grp in Hmin.
    rewrite (m_lits_found DOTALL_I _ _ e t) in Hmin.
    + cbn [m] in Hmin. discriminate Hmin.
    + cbn [set_cap state_after m_rest]. rewrite Hr3. exact He.
    + exact HF.
Qed.

Lemma orelse_none {A} (a b : option A) : orelse a b = None <-> a = None /\ b = None.
Proof.
  destruct a; cbn; split; try tauto; try (intros [H _]; discriminate H).
  intro H; discriminate H.
Qed.

Lemma star_loop_shift (d d' : nat) (g : greed)
      (body body' : mstate -> (mstate -> option mstate) -> option mstate) :
  (forall st st' k k',
      shifted d d' st st' ->
      (forall s s', shifted d d' s s' -> (k s = None <-> k' s' = None)) ->
      (body st k = None <-> body' st' k' = None)) ->
  forall n st st' k k',
    shifted d d' st st' ->
    (forall s s', shifted d d' s s' -> (k s = None <-> k' s' = None)) ->
    (star_loop body g k n st = None <-> star_loop body' g k' n st' = None).
Proof.
  intro Hbody. induction n as [|n IH]; intros st st' k k' Hst Hk; cbn [star_loop].
  - exact (Hk st st' Hst).
  - assert (Hagain :
      body st (fun st1 => if m_pos st1 =? m_pos st then None
                          else star_loop body g k n st1) = None
      <-> body' st' (fun st1 => if m_pos st1 =? m_pos st' then None
                                else star_loop body' g k' n st1) = None).
    { apply Hbody; [exact Hst|]. intros s s' Hs.
      destruct Hst as (_ & Hp), Hs as (Hr1 & Hp1).
      destruct (Nat.eqb_spec (m_pos s) (m_pos st)) as [E|E];
        destruct (Nat.eqb_spec (m_pos s') (m_pos st')) as [E'|E']; try lia.
      - tauto.
      - apply IH; [split; assumption|exact Hk]. }
    specialize (Hk st st' Hst).
    destruct g; rewrite !orelse_none; tauto.
Qed.

Lemma m_shift (fl : flags) (d d' : nat) (r : regex) :
  position_free r = true ->
  forall st st' k k',
    shifted d d' st st' ->
    (forall s s', shifted d d' s s' -> (k s = None <-> k' s' = None)) ->
    (m fl r st k = None <-> m fl r st' k' = None).
Proof.
  induction r as [| c | | neg items | r1 IH1 r2 IH2 | r1 IH1 r2 IH2 | g r1 IH1
                 | g r1 IH1 | i r1 IH1 | r1 IH1 | items | | | ];
    intros Hfree st st' k k' Hst Hk; cbn [position_free] in Hfree;
    try discriminate Hfree; cbn [m].
  - exact (Hk st st' Hst).
  - destruct Hst as (Hr & Hp). rewrite Hr.
    destruct (m_rest st) as [|c0 rest]; [tauto|].
    destruct (chr_match fl c c0); [|tauto].
    apply Hk. split; cbn; [reflexivity|lia].
  - destruct Hst as (Hr & Hp). rewrite Hr.
    destruct (m_rest st) as [|c0 rest]; [tauto|].
    destruct (dotall fl || negb (eqc c0 nl)); [|tauto].
    apply Hk. split; cbn; [reflexivity|lia].
  - destruct Hst as (Hr & Hp). rewrite Hr.
    destruct (m_rest st) as [|c0 rest]; [tauto|].
    destruct (xorb neg (cls_mem fl items c0)); [|tauto].
    apply Hk. split; cbn; [reflexivity|lia].
  - apply andb_true_iff in Hfree. destruct Hfree as [H1 H2].
    apply (IH1 H1); [exact Hst|]. intros s s' Hs. apply (IH2 H2); assumption.
  - apply andb_true_iff in Hfree. destruct Hfree as [H1 H2].
    rewrite !orelse_none.
    pose proof (IH1 H1 st st' k k' Hst Hk). pose proof (IH2 H2 st st' k k' Hst Hk).
    tauto.
  - replace (m_rest st') with (m_rest st) by (symmetry; exact (proj1 Hst)).
    apply (star_loop_shift d d' g (m fl r1) (m fl r1)); [|exact Hst|exact Hk].
    intros s s' k0 k0' Hs Hk0. apply (IH1 Hfree); assumption.
  - pose proof (IH1 Hfree st st' k k' Hst Hk). specialize (Hk st st' Hst).
    destruct g; rewrite !orelse_none; tauto.
  - apply (IH1 Hfree); [exact Hst|]. intros s s' Hs. apply Hk.
    destruct Hs as (Hr & Hp). split; cbn; assumption.
  - assert (H : m fl r1 st (fun st1 => Some st1) = None
                <-> m fl r1 st' (fun st1 => Some st1) = None).
    { apply (IH1 Hfree); [exact Hst|]. intros s s' _. split; intro H; discriminate H. }
    specialize (Hk st st' Hst).
    destruct (m fl r1 st _), (m fl r1 st' _); try tauto.
    + destruct H as [_ H]. specialize (H eq_refl). discriminate H.
    + destruct H as [H _]. specialize (H eq_refl). discriminate H.
  - destruct Hst as (Hr & Hp). rewrite Hr.
    assert (Hk' := Hk st st' (conj Hr Hp)).
    destruct (m_rest st) as [|c0 [|c1 rest]]; try tauto.
    destruct (eqc c0 nl); tauto.
Qed.

(** Whether a position-free pattern matches somewhere does not depend on
    where the text stands in the subject. *)
Lemma search_at_shift (fl : flags) (r : regex) :
  position_free r = true ->
  forall rest pos prev pos' prev',
    search_at fl r false pos prev rest = None
    <-> search_at fl r false pos' prev' rest = None.
Proof.
  intro Hfree. induction rest as [|c rest IH]; intros pos prev pos' prev';
    cbn [search_at].
  - assert (H : m fl r (MState pos prev [] []) (accept false pos) = None
                <-> m fl r (MState pos' prev' [] []) (accept false pos') = None).
    { apply (m_shift fl pos' pos r Hfree); [split; cbn; [reflexivity|lia]|].
      intros s s' _. cbn. split; intro H; discriminate H. }
    destruct (m fl r (MState pos prev [] []) _), (m fl r (MState pos' prev' [] []) _);
      try tauto.
    + split; intro H0; discriminate H0.
    + destruct H as [_ H]. specialize (H eq_refl). discriminate H.
    + destruct H as [H _]. specialize (H eq_refl). discriminate H.
  - assert (H : m fl r (MState pos prev (c :: rest) []) (accept false pos) = None
                <-> m fl r (MState pos' prev' (c :: rest) []) (accept false pos') = None).
    { apply (m_shift fl pos' pos r Hfree); [split; cbn; [reflexivity|lia]|].
      intros s s' _. cbn. split; intro H; discriminate H. }
    destruct (m fl r (MState pos prev (c :: rest) []) _),
             (m fl r (MState pos' prev' (c :: rest) []) _).
    + split; intro H0; discriminate H0.
    + destruct H as [_ H]. specialize (H eq_refl). discriminate H.
    + destruct H as [H _]. specialize (H eq_refl). discriminate H.
    + apply IH.
Qed.

Lemma replace_summary_sub (latex_content : str) (new_bullets : list str) :
  (forall b, In b new_bullets -> template_safe b = true) ->
  replace_summary_section latex_content new_bullets
  = Ok (sub_fun DOTALL_I replace_summary_pattern
          (fun s mt => group_or_empty s mt 1 ++ summary_lines new_bullets ++ [nl]
                       ++ group_or_empty s mt 3)
          latex_content None).
Proof.
  intro H. unfold replace_summary_section, sub_template.
  rewrite (parse_summary_replacement new_bullets H). cbn [bind]. f_equal.
  unfold sub_fun. apply splice_ext. intro mt.
  change (TGroup 1 :: ?l) with ([TGroup 1] ++ l).
  unfold expand at 1. rewrite flat_map_app. cbn [flat_map]. rewrite app_nil_r.
  f_equal.
  fold (expand latex_content
          (map TLit (summary_lines new_bullets ++ [nl]) ++ [TGroup 3]) mt).
  rewrite expand_lits. rewrite <- app_assoc. cbn. rewrite app_nil_r. reflexivity.
Qed.

(** X24.  The frame of [replace_summary_section]: when the bullets are
    safe for the template and the pattern matches, the document is
    [before ++ heading ++ newline ++ old ++ closing ++ rest], where
    [heading ++ newline] is the first text that the heading part of the
    pattern matches (from the [%---SUMMARY---] comment to the end of the
    [\begin{itemize}] line), [closing] is the first [\end{itemize}] (in any
    case of letters) after it and [old] everything in between; the result
    keeps [before], the heading and [closing] as they are and has the lines
    [\item <bullet>] in the place of [old]; the text after the block is
    unchanged when the pattern does not match it again. *)
Theorem replace_summary_frame (latex_content : str) (new_bullets : list str) :
  (forall b, In b new_bullets -> template_safe b = true) ->
  matches DOTALL_I replace_summary_pattern latex_content = true ->
  exists before heading old closing rest rest',
    latex_content = before ++ heading ++ nl :: old ++ closing ++ rest
    /\ replace_summary_section latex_content new_bullets
       = Ok (before ++ heading ++ nl :: summary_lines new_bullets
                    ++ nl :: closing ++ rest')
    /\ in_lang DOTALL_I LatexParser.summary_heading (heading ++ [nl])
    /\ lower closing = lit "\end{itemize}"
    /\ (forall u v, old = u ++ v -> v <> [] ->
          startswith (lit "\end{itemize}") (lower (v ++ closing ++ rest)) = false)
    /\ (matches DOTALL_I replace_summary_pattern rest = false -> rest' = rest).
Proof.
  intros Hsafe Hm. rewrite (replace_summary_sub _ _ Hsafe).
  unfold matches in Hm.
  destruct (search DOTALL_I replace_summary_pattern latex_content) as [mt|] eqn:E;
    [clear Hm|discriminate Hm].
  destruct (replace_summary_match _ _ E)
    as (before & g1 & old & closing & rest & Hs & Hst & Hen & Hg1 & Hg3 & HL & Hcl & Hmin).
  destruct (summary_heading_ends g1 HL) as [heading ->].
  set (f := fun mt0 => group_or_empty latex_content mt0 1 ++ summary_lines new_bullets
                       ++ [nl] ++ group_or_empty latex_content mt0 3).
  set (ms := iter_matches (S (2 * length latex_content)) DOTALL_I replace_summary_pattern
               latex_content None (r_end mt) (r_end mt =? r_start mt)).
  exists before, heading, old, closing, rest, (splice latex_content (r_end mt) ms f).
  assert (Hall : all_matches DOTALL_I replace_summary_pattern latex_content None
                 = mt :: ms).
  { unfold all_matches.
    replace (2 * length latex_content + 2) with (S (S (2 * length latex_content))) by lia.
    cbn [iter_matches firstn skipn last_char rev hd_error].
    unfold search in E. rewrite E. reflexivity. }
  split; [rewrite Hs, <- !app_assoc; reflexivity|].
  split.
  { f_equal. unfold sub_fun. rewrite Hall. cbn [splice]. fold f.
    unfold slice. rewrite Nat.sub_0_r. cbn [skipn].
    rewrite Hst. rewrite Hs at 1. rewrite firstn_length_app.
    unfold f at 1. rewrite Hg1, Hg3. rewrite <- !app_assoc. reflexivity. }
  split; [exact HL|]. split; [exact Hcl|]. split; [exact Hmin|].
  intro Hno. unfold matches in Hno.
  destruct (search DOTALL_I replace_summary_pattern rest) eqn:E2; [discriminate Hno|].
  assert (Hskip : skipn (r_end mt) latex_content = rest).
  { rewrite Hen, Hs.
    replace (before ++ (heading ++ [nl]) ++ old ++ closing ++ rest)
      with ((before ++ (heading ++ [nl]) ++ old ++ closing) ++ rest)
      by (rewrite <- !app_assoc; reflexivity).
    apply skipn_length_app. }
  assert (Hadv : (r_end mt =? r_start mt) = false).
  { apply Nat.eqb_neq. rewrite Hen, Hst, !length_app. cbn [length]. lia. }
  unfold ms. rewrite Hadv. cbn [iter_matches]. rewrite Hskip.
  unfold search in E2.
  apply (search_at_shift DOTALL_I replace_summary_pattern eq_refl rest 0 None
           (r_end mt) (last_char (firstn (r_end mt) latex_content))) in E2.
  rewrite E2. cbn [splice]. exact Hskip.
Qed.

Lemma replace_summary_frame_witness :
  (forall b, In b [lit "Cut latency by 40\% in 3 services"] -> template_safe b = true)
  /\ matches DOTALL_I replace_summary_pattern summary_doc = true
  /\ exists before heading old closing rest rest',
       summary_doc = before ++ heading ++ nl :: old ++ closing ++ rest
       /\ replace_summary_section summary_doc [lit "Cut latency by 40\% in 3 services"]
          = Ok (before ++ heading
                       ++ nl :: summary_lines [lit "Cut latency by 40\% in 3 services"]
                       ++ nl :: closing ++ rest')
       /\ in_lang DOTALL_I LatexParser.summary_heading (heading ++ [nl])
       /\ lower closing = lit "\end{itemize}"
       /\ (forall u v, old = u ++ v -> v <> [] ->
             startswith (lit "\end{itemize}") (lower (v ++ closing ++ rest)) = false)
       /\ (matches DOTALL_I replace_summary_pattern rest = false -> rest' = rest).
Proof.
  assert (H : forall b, In b [lit "Cut latency by 40\% in 3 services"] ->
                        template_safe b = true).
  { intros b [<-|[]]. reflexivity. }
  split; [exact H|]. split; [reflexivity|].
  exact (replace_summary_frame summary_doc _ H eq_refl).
Defined.

(** ** Lines *)

Lemma split_on_cons (sep : ascii) (s : str) : exists w ws, split_on sep s = w :: ws.
Proof.
  destruct s as [|c s]; [exists [], []; reflexivity|]. cbn [split_on].
  destruct (eqc c sep); [eexists; eexists; reflexivity|].
  destruct (split_on sep s); eexists; eexists; reflexivity.
Qed.

Lemma join_split_on (sep : ascii) (s : str) : join [sep] (split_on sep s) = s.
Proof.
  induction s as [|c s IH]; [reflexivity|]. cbn [split_on].
  destruct (split_on_cons sep s) as (w & ws & Es). rewrite Es in *.
  destruct (eqc c sep) eqn:E.
  - apply Ascii.eqb_eq in E. subst c.
    change (join [sep] ([] :: w :: ws)) with ([] ++ [sep] ++ join [sep] (w :: ws)).
    rewrite IH. reflexivity.
  - destruct ws as [|w' ws].
    + cbn in IH |- *. rewrite IH. reflexivity.
    + change (join [sep] ((c :: w) :: w' :: ws))
        with (c :: (w ++ [sep] ++ join [sep] (w' :: ws))).
      change (join [sep] (w :: w' :: ws)) with (w ++ [sep] ++ join [sep] (w' :: ws)) in IH.
      rewrite IH. reflexivity.
Qed.

Lemma split_on_no_sep (sep : ascii) (s : str) :
  Forall (fun l => existsb (eqc sep) l = false) (split_on sep s).
Proof.
  induction s as [|c s IH]; [repeat constructor|]. cbn [split_on].
  destruct (eqc c sep) eqn:E.
  - constructor; [reflexivity|exact IH].
  - destruct (split_on sep s) as [|w ws]; [repeat constructor; cbn|].
    + unfold eqc in *. rewrite Ascii.eqb_sym, E. reflexivity.
    + inversion IH as [|? ? Hw Hws]; subst. constructor; [|exact Hws].
      cbn [existsb]. unfold eqc in *. rewrite Ascii.eqb_sym, E. exact Hw.
Qed.

Lemma from_first_split {A} (p : A -> bool) (lines : list A) :
  exists pre, lines = pre ++ from_first p lines /\ Forall (fun l => p l = false) pre.
Proof.
  induction lines as [|l ls IH].
  - exists []. split; [reflexivity|constructor].
  - cbn [from_first]. destruct (p l) eqn:E.
    + exists []. split; [reflexivity|constructor].
    + destruct IH as (pre & Hls & Hpre). exists (l :: pre).
      split; [cbn; rewrite <- Hls; reflexivity|constructor; assumption].
Qed.

Lemma from_first_head {A} (p : A -> bool) (lines : list A) (l : A) (ls : list A) :
  from_first p lines = l :: ls -> p l = true.
Proof.
  induction lines as [|x xs IH]; [discriminate|]. cbn [from_first].
  destruct (p x) eqn:E; [|exact IH]. intro H. injection H as -> _. exact E.
Qed.

Lemma from_first_nil {A} (p : A -> bool) (lines : list A) :
  from_first p lines = [] -> Forall (fun l => p l = false) lines.
Proof.
  induction lines as [|x xs IH]; [constructor|]. cbn [from_first].
  destruct (p x) eqn:E; [discriminate|]. intro H. constructor; [exact E|exact (IH H)].
Qed.

Lemma join_lines_app (pre post : list str) :
  post <> [] ->
  join [nl] (pre ++ post) = concat (map (fun l => l ++ [nl]) pre) ++ join [nl] post.
Proof.
  intro Hpost. induction pre as [|l pre IH]; [reflexivity|].
  cbn [app map concat].
  destruct (pre ++ post) as [|x xs] eqn:E.
  - destruct pre; [cbn in E; contradiction|discriminate E].
  - change (join [nl] (l :: x :: xs)) with (l ++ [nl] ++ join [nl] (x :: xs)).
    rewrite IH, <- !app_assoc. reflexivity.
Qed.

(** ** The loop of [_clean_response] *)

Lemma collect_started (lines : list str) :
  forall acc, fold_left ClaudeClient.collect_line lines (true, acc) = (true, acc ++ lines).
Proof.
  induction lines as [|l ls IH]; intro acc; [rewrite app_nil_r; reflexivity|].
  cbn [fold_left ClaudeClient.collect_line].
  destruct (ClaudeClient.is_latex_line l); rewrite IH, <- app_assoc; reflexivity.
Qed.

Lemma collect_from_first (lines : list str) :
  snd (fold_left ClaudeClient.collect_line lines (false, []))
  = from_first ClaudeClient.is_latex_line lines.
Proof.
  induction lines as [|l ls IH]; [reflexivity|].
  cbn [fold_left ClaudeClient.collect_line from_first].
  destruct (ClaudeClient.is_latex_line l).
  - rewrite collect_started. reflexivity.
  - exact IH.
Qed.

(** ** Occurrences of a command *)

Lemma is_latex_line_markers (line : str) :
  ClaudeClient.is_latex_line line = existsb (fun p => contains p line) latex_markers.
Proof.
  unfold ClaudeClient.is_latex_line, latex_markers. cbn [existsb].
  rewrite orb_false_r, !orb_assoc. reflexivity.
Qed.

Lemma marker_shape (p : str) :
  In p latex_markers ->
  exists p', p = backslash :: p' /\ existsb isspace p = false.
Proof.
  intros [<-|[<-|[<-|[<-|[]]]]]; eexists; split; reflexivity.
Qed.

Lemma startswith_app_l (p a b : str) :
  startswith p (a ++ b) = true -> length p <= length a -> startswith p a = true.
Proof.
  revert a. induction p as [|x p IH]; intros a H Hl; [reflexivity|].
  destruct a as [|y a]; [cbn in Hl; lia|]. cbn [app startswith] in *.
  apply andb_true_iff in H. destruct H as [-> H]. cbn. apply (IH a H). cbn in Hl. lia.
Qed.

Lemma startswith_In (p s : str) (n : nat) (d c : ascii) :
  startswith p s = true -> n < length p -> nth n s d = c -> In c p.
Proof.
  revert s n. induction p as [|x p IH]; intros s n H Hn Hc; [cbn in Hn; lia|].
  destruct s as [|y s]; [discriminate H|]. cbn [startswith] in H.
  apply andb_true_iff in H. destruct H as [E H]. apply Ascii.eqb_eq in E. subst y.
  destruct n as [|n]; [left; exact Hc|]. right. apply (IH s n H); [cbn in Hn; lia|exact Hc].
Qed.

(** An occurrence of [p] in [a ++ c :: b] lies in [a] or in [b], unless
    [c] is a character of [p]. *)
Lemma contains_across (p a b : str) (c : ascii) :
  ~ In c p -> contains p (a ++ c :: b) = true ->
  contains p a = true \/ contains p b = true.
Proof.
  intros Hc. induction a as [|y a IH]; intro H.
  - cbn [app] in H. rewrite contains_unfold in H. apply orb_true_iff in H.
    destruct H as [H|H]; [|right; exact H].
    destruct p as [|x p]; [left; reflexivity|].
    cbn [startswith] in H. apply andb_true_iff in H. destruct H as [E _].
    apply Ascii.eqb_eq in E. subst x. exfalso. apply Hc. left. reflexivity.
  - cbn [app] in H. rewrite contains_unfold in H. apply orb_true_iff in H.
    destruct H as [H|H].
    + destruct (le_lt_dec (length p) (length (y :: a))) as [Hl|Hl].
      * left. rewrite contains_unfold.
        rewrite (startswith_app_l p (y :: a) (c :: b) H Hl). reflexivity.
      * exfalso. apply Hc.
        apply (startswith_In p ((y :: a) ++ c :: b) (length (y :: a)) c c H Hl).
        rewrite app_nth2 by lia. rewrite Nat.sub_diag. reflexivity.
    + destruct (IH H) as [H'|H']; [left|right; exact H'].
      rewrite contains_unfold, H'. apply orb_true_r.
Qed.

Lemma contains_embed (p a l b : str) :
  contains p l = true -> contains p (a ++ l ++ b) = true.
Proof.
  intro H. destruct (contains_split p l H) as (u & v & ->).
  replace (a ++ (u ++ p ++ v) ++ b) with ((a ++ u) ++ p ++ (v ++ b))
    by (rewrite <- !app_assoc; reflexivity).
  apply contains_app_mid.
Qed.

Lemma marker_not_in_spaces (p ws : str) :
  In p latex_markers -> forallb isspace ws = true -> contains p ws = false.
Proof.
  intros Hp Hws. destruct (marker_shape p Hp) as (p' & -> & _).
  apply (contains_absent_char backslash); [left; reflexivity|].
  induction ws as [|c ws IH]; [reflexivity|]. cbn [forallb] in *.
  apply andb_true_iff in Hws. destruct Hws as [Hc Hws]. rewrite (IH Hws), andb_true_r.
  destruct c as [[|] [|] [|] [|] [|] [|] [|] [|]]; try reflexivity; discriminate Hc.
Qed.

Lemma marker_after_spaces (p ws y : str) :
  In p latex_markers -> forallb isspace ws = true ->
  contains p (ws ++ y) = true -> contains p y = true.
Proof.
  intros Hp Hws. destruct (marker_shape p Hp) as (p' & -> & _).
  induction ws as [|c ws IH]; intro H; [exact H|]. cbn [forallb] in Hws.
  apply andb_true_iff in Hws. destruct Hws as [Hc Hws].
  cbn [app] in H. rewrite contains_unfold in H. apply orb_true_iff in H.
  destruct H as [H|H]; [|exact (IH Hws H)].
  cbn [startswith] in H. apply andb_true_iff in H. destruct H as [E _].
  apply Ascii.eqb_eq in E. subst c. discriminate Hc.
Qed.

Lemma marker_no_newline (p : str) : In p latex_markers -> ~ In nl p.
Proof.
  intros [<-|[<-|[<-|[<-|[]]]]] H; cbn in H;
    repeat (destruct H as [H|H]; [discriminate H|]); exact H.
Qed.

Lemma marker_in_lines (p : str) (pre : list str) (ws : str) :
  In p latex_markers ->
  Forall (fun l => ClaudeClient.is_latex_line l = false) pre ->
  contains p ws = false ->
  contains p (concat (map (fun l => l ++ [nl]) pre) ++ ws) = false.
Proof.
  intros Hp Hpre Hws. induction Hpre as [|l pre Hl _ IH]; [exact Hws|].
  cbn [map concat]. rewrite <- !app_assoc. cbn [app].
  destruct (contains p (l ++ nl :: concat (map (fun l0 => l0 ++ [nl]) pre) ++ ws)) eqn:E;
    [|reflexivity].
  apply (contains_across p _ _ nl (marker_no_newline p Hp)) in E.
  destruct E as [E|E]; [|congruence].
  rewrite is_latex_line_markers in Hl.
  assert (H : existsb (fun p0 => contains p0 l) latex_markers = true).
  { apply existsb_exists. exists p. split; [exact Hp|exact E]. }
  congruence.
Qed.

Lemma is_latex_line_false (l : str) :
  ClaudeClient.is_latex_line l = false
  <-> forall p, In p latex_markers -> contains p l = false.
Proof.
  rewrite is_latex_line_markers. split.
  - intros H p Hp. destruct (contains p l) eqn:E; [|reflexivity].
    rewrite <- H. symmetry. apply existsb_exists. exists p. split; assumption.
  - intro H. destruct (existsb _ latex_markers) eqn:E; [|reflexivity].
    apply existsb_exists in E. destruct E as (p & Hp & E). rewrite (H p Hp) in E.
    discriminate E.
Qed.

Lemma is_latex_line_true (l : str) :
  ClaudeClient.is_latex_line l = true
  <-> exists p, In p latex_markers /\ contains p l = true.
Proof. rewrite is_latex_line_markers. apply existsb_exists. Qed.

Lemma latex_free_join (lines : list str) :
  Forall (fun l => ClaudeClient.is_latex_line l = false) lines ->
  ClaudeClient.is_latex_line (join [nl] lines) = false.
Proof.
  intro H. apply is_latex_line_false. intros p Hp.
  induction H as [|l ls Hl Hls IH].
  - destruct (marker_shape p Hp) as (p' & -> & _). reflexivity.
  - destruct ls as [|x xs]; [exact (proj1 (is_latex_line_false l) Hl p Hp)|].
    change (join [nl] (l :: x :: xs)) with (l ++ nl :: join [nl] (x :: xs)).
    destruct (contains p (l ++ nl :: join [nl] (x :: xs))) eqn:E; [|reflexivity].
    apply (contains_across p _ _ nl (marker_no_newline p Hp)) in E.
    destruct E as [E|E]; [|congruence].
    rewrite (proj1 (is_latex_line_false l) Hl p Hp) in E. discriminate E.
Qed.

(** ** White space at the ends *)

Lemma rstrip_split (s : str) :
  exists ws, s = rstrip s ++ ws /\ forallb isspace ws = true.
Proof.
  destruct (lstrip_split (rev s)) as (ws & Hs & Hws). exists (rev ws). split.
  - unfold rstrip. rewrite <- rev_app_distr, <- Hs, rev_involutive. reflexivity.
  - rewrite forallb_forall in *. intros c Hc. apply Hws. apply in_rev. exact Hc.
Qed.

Lemma strip_head (s : str) :
  match strip s with c :: _ => isspace c = false | [] => True end.
Proof.
  unfold strip. destruct (rstrip_split (lstrip s)) as (ws & Hs & _).
  destruct (rstrip (lstrip s)) as [|c r]; [exact Logic.I|].
  cbn [app] in Hs. exact (lstrip_head s c _ Hs).
Qed.

Lemma lstrip_app_mark (a b : str) (c : ascii) :
  In c a -> isspace c = false -> lstrip (a ++ b) = lstrip a ++ b.
Proof.
  intros Hin Hc. induction a as [|x a IH]; [destruct Hin|].
  cbn [app lstrip]. destruct (isspace x) eqn:Ex; [|reflexivity].
  destruct Hin as [->|Hin]; [congruence|]. exact (IH Hin).
Qed.

Lemma last_char_none (s : str) : last_char s = None -> s = [].
Proof.
  unfold last_char. intro H. destruct (rev s) eqn:E; [|discriminate H].
  rewrite <- (rev_involutive s), E. reflexivity.
Qed.

Lemma strip_is_lstrip (x : str) (d : ascii) :
  last_char x = Some d -> isspace d = false -> strip x = lstrip x.
Proof.
  intros Hl Hd. unfold strip. apply rstrip_fixed.
  destruct (lstrip_split x) as (ws & Hx & Hws).
  rewrite Hx, last_char_app_or in Hl.
  destruct (last_char (lstrip x)) as [c|] eqn:E.
  - injection Hl as ->. exact Hd.
  - exact Logic.I.
Qed.

Lemma join_head (l0 : str) (ls : list str) :
  exists tail, join [nl] (l0 :: ls) = l0 ++ tail.
Proof.
  destruct ls as [|x xs]; [exists []; cbn; rewrite app_nil_r; reflexivity|].
  exists (nl :: join [nl] (x :: xs)). reflexivity.
Qed.

Lemma clean_fences (response : str) :
  sub_template DOTALL ClaudeClient.fence_pattern 1 (lit "\1") response None
  = Ok (sub_fun DOTALL ClaudeClient.fence_pattern (fun s mt => group_or_empty s mt 1)
          response None).
Proof.
  unfold sub_template.
  replace (parse_template (S (length (lit "\1"))) 1 (lit "\1")) with (Ok [TGroup 1])
    by (vm_compute; reflexivity).
  cbn [bind]. f_equal. unfold sub_fun. apply splice_ext. intro mt.
  unfold expand. cbn [flat_map]. apply app_nil_r.
Qed.

(** A response without three backquotes in a row has no fence to remove. *)
Lemma no_fence_unchanged (response : str) :
  contains (lit "```") response = false ->
  sub_fun DOTALL ClaudeClient.fence_pattern (fun s mt => group_or_empty s mt 1)
          response None
  = response.
Proof.
  intro Hno. unfold sub_fun.
  destruct (search DOTALL ClaudeClient.fence_pattern response) as [mt|] eqn:E.
  - exfalso. destruct (search_result _ _ _ _ E) as (a & b & x & Hs & _ & Hm & _).
    unfold ClaudeClient.fence_pattern in Hm. cbn [cats fold_right] in Hm.
    rewrite m_Cat in Hm. apply m_factor in Hm.
    destruct Hm as (w & s1 & (Hr & _) & _ & HL & _).
    apply (in_lang_lits_exact DOTALL) in HL; [|reflexivity]. subst w.
    cbn [m_rest] in Hr. rewrite Hs, Hr, contains_app_mid in Hno. discriminate Hno.
  - rewrite (all_matches_none _ _ _ None E). reflexivity.
Qed.

Lemma last_char_lines (pre : list str) :
  pre <> [] -> last_char (concat (map (fun l => l ++ [nl]) pre)) = Some nl.
Proof.
  induction pre as [|l pre IH]; [contradiction|]. intros _. cbn [map concat].
  rewrite last_char_app_or. destruct pre as [|x xs].
  - cbn [map concat last_char rev hd_error]. apply last_char_snoc.
  - rewrite IH by discriminate. reflexivity.
Qed.

(** X25.  [_clean_response] removes the code fences and then keeps the
    stripped text from the first line on that holds one of the commands
    [\item], [\section], [\begin], [\resumeSubheading].  With [text] the
    stripped response without its fences, [text = before ++ indent ++ kept]
    where [kept] is the result, [before] is made of whole lines, [indent]
    is white space, none of the commands occurs in [before ++ indent], and
    [kept] does not begin with white space.  When a command occurs in
    [text], [kept] begins with the rest of a line that holds one, and
    everything after that line is kept as well; when none occurs, the
    whole [text] is returned.  A response without three backquotes in a
    row has no fence: [text] is the stripped response. *)
Theorem clean_response_spec (response : str) :
  let text := strip (sub_fun DOTALL ClaudeClient.fence_pattern
                             (fun s mt => group_or_empty s mt 1) response None) in
  exists before indent kept,
    ClaudeClient._clean_response response = Ok kept
    /\ text = before ++ indent ++ kept
    /\ (before = [] \/ last_char before = Some nl)
    /\ forallb isspace indent = true
    /\ ClaudeClient.is_latex_line (before ++ indent) = false
    /\ match kept with c :: _ => isspace c = false | [] => True end
    /\ (ClaudeClient.is_latex_line text = false -> kept = text)
    /\ (ClaudeClient.is_latex_line text = true ->
        exists first rest,
          kept = first ++ rest
          /\ ClaudeClient.is_latex_line first = true
          /\ existsb (eqc nl) first = false)
    /\ (contains (lit "```") response = false -> text = strip response).
Proof.
  intro text.
  assert (Hfence : contains (lit "```") response = false -> text = strip response).
  { intro Hno. unfold text. f_equal. exact (no_fence_unchanged response Hno). }
  unfold ClaudeClient._clean_response. rewrite clean_fences. cbn [bind].
  fold text. rewrite collect_from_first.
  pose proof (join_split_on nl text) as Hjoin.
  pose proof (split_on_no_sep nl text) as Hnosep.
  set (lines := split_on nl text) in *.
  destruct (from_first_split ClaudeClient.is_latex_line lines) as (pre & Hlines & Hpre).
  destruct (from_first ClaudeClient.is_latex_line lines) as [|l0 ls] eqn:Ef.
  - cbn [nonempty]. exists [], [], text.
    split; [reflexivity|]. split; [reflexivity|]. split; [left; reflexivity|].
    split; [reflexivity|]. split; [reflexivity|].
    split; [apply strip_head|]. split; [reflexivity|]. split; [|exact Hfence].
    intro Ht. exfalso.
    rewrite <- Hjoin, (latex_free_join lines (from_first_nil _ _ Ef)) in Ht.
    discriminate Ht.
  - cbn [nonempty].
    pose proof (from_first_head _ _ _ _ Ef) as Hl0.
    destruct (proj1 (is_latex_line_true l0) Hl0) as (p & Hp & Hpl0).
    destruct (marker_shape p Hp) as (p' & Hp' & _).
    assert (Hbs : In backslash l0).
    { destruct (contains_split p l0 Hpl0) as (u & v & ->). subst p.
      apply in_or_app. right. left. reflexivity. }
    destruct (join_head l0 ls) as (tail & Hx).
    destruct (lstrip_split l0) as (ws & Hws & Hsp).
    assert (Htext : text = concat (map (fun l => l ++ [nl]) pre) ++ ws
                           ++ lstrip l0 ++ tail).
    { rewrite <- Hjoin, Hlines, join_lines_app by discriminate.
      rewrite Hx. rewrite Hws at 1. rewrite <- !app_assoc. reflexivity. }
    assert (Hfirst : contains p (lstrip l0) = true).
    { apply (marker_after_spaces p ws); [exact Hp|exact Hsp|].
      rewrite <- Hws. exact Hpl0. }
    assert (Hkept : strip (join [nl] (l0 :: ls)) = lstrip l0 ++ tail).
    { rewrite Hx.
      assert (Hne : l0 ++ tail <> []).
      { destruct l0; [destruct Hbs|discriminate]. }
      pose proof (strip_last (sub_fun DOTALL ClaudeClient.fence_pattern
                                (fun s mt => group_or_empty s mt 1) response None))
        as Hlast.
      fold text in Hlast. rewrite <- Hjoin, Hlines, join_lines_app in Hlast by discriminate.
      rewrite Hx, (last_char_app _ _ Hne) in Hlast.
      destruct (last_char (l0 ++ tail)) as [d|] eqn:Ed;
        [|apply last_char_none in Ed; contradiction].
      rewrite (strip_is_lstrip _ d Ed Hlast).
      apply (lstrip_app_mark l0 tail backslash Hbs). reflexivity. }
    assert (Hlatex : ClaudeClient.is_latex_line text = true).
    { rewrite Htext. apply is_latex_line_true. exists p. split; [exact Hp|].
      rewrite app_assoc. apply contains_embed. exact Hfirst. }
    exists (concat (map (fun l => l ++ [nl]) pre)), ws, (lstrip l0 ++ tail).
    split; [rewrite Hkept; reflexivity|]. split; [exact Htext|].
    split.
    { destruct pre as [|x xs]; [left; reflexivity|right].
      apply last_char_lines. discriminate. }
    split; [exact Hsp|].
    split.
    { apply is_latex_line_false. intros q Hq.
      apply (marker_in_lines q pre ws Hq Hpre). exact (marker_not_in_spaces q ws Hq Hsp). }
    split.
    { destruct (lstrip l0) as [|c r] eqn:El; [rewrite Hp' in Hfirst; discriminate Hfirst|].
      cbn [app]. exact (lstrip_head l0 c r El). }
    split; [intro Ht; congruence|]. split; [|exact Hfence].
    intros _. exists (lstrip l0), tail. split; [reflexivity|].
    split; [apply is_latex_line_true; exists p; split; assumption|].
    apply existsb_lstrip.
    rewrite Forall_forall in Hnosep. apply Hnosep. rewrite Hlines.
    apply in_or_app. right. left. reflexivity.
Qed.
